(** * pdbex: the field-declaration printer and the extractor driver

    A shallow embedding of [UserDataFieldDefinition] (the printer that turns
    a type chain into prefix / name / suffix / comment text) and of
    [PDBExtractor] (command-line parsing, the one-symbol and all-symbols
    dumps, the error path of [Run]).

    Conventions.
    - A [const SYMBOL*] is an address ([SymPtr]) into a symbol memory, a
      finite map from addresses to [SYMBOL] values; dereferencing an address
      that is not mapped is undefined behaviour and shows up as [None] (in
      the printer) or as the outcome [Undefined] (in the extractor).
    - [DWORD] fields are natural numbers in [N]; nothing here does
      arithmetic on them, so no wrap-around is involved.
    - C strings are [string]; [strlen] is [String.length]. *)

From Stdlib Require Import NArith ZArith Ascii DecimalString DecimalN DecimalPos.
From Stdlib Require String.
From stdpp Require Import gmap strings list.

Open Scope stdpp_scope.

(* ===================================================================== *)
(** * The symbol model (PDB.h) *)
(* ===================================================================== *)

Module PDB.

(** A [const SYMBOL*]. *)
Abbreviation SymPtr := positive.

Inductive UdtKind := UdtStruct | UdtClass | UdtUnion.

Inductive SymTag :=
| SymTagBaseType
| SymTagPointerType
| SymTagArrayType
| SymTagFunctionType
| SymTagEnum
| SymTagUDT
| SymTagTypedef
| SymTagData.

Record SYMBOL_UDT_FIELD := {
  FieldName   : string;
  FieldType   : SymPtr;
  Offset      : N;
  Bits        : N;
  BitPosition : N
}.

(** Modelled from the spec: the anonymous union [u] of [struct SYMBOL]
    (PDB.h is not among the sources).  The members the sources read are
    [u.Array.ElementCount] and [u.UserData.Kind]; the others follow the
    data model of the specification (child of a pointer, array or typedef,
    members of a user-defined type).  [Tag] is the discriminant of the
    union, so it is the constructor here. *)
Inductive SYMBOL_UNION :=
| BaseType (Basic : N)
| Pointer (Type_ : SymPtr)
| Array (ElementType : SymPtr) (ElementCount : N)
| Function (ReturnType : SymPtr) (Arguments : list SymPtr)
| Enum (Values : list (string * N))
| UserData (Kind : UdtKind) (Fields : list SYMBOL_UDT_FIELD)
| Typedef (Type_ : SymPtr)
| Data.

(** Modelled from the spec: [struct SYMBOL] (PDB.h is not among the
    sources): a size in bytes, an optional name, and the tagged payload. *)
Record SYMBOL := {
  Size : N;
  Name : option string;
  u    : SYMBOL_UNION
}.

Definition Tag (s : SYMBOL) : SymTag :=
  match u s with
  | BaseType _ => SymTagBaseType
  | Pointer _ => SymTagPointerType
  | Array _ _ => SymTagArrayType
  | Function _ _ => SymTagFunctionType
  | Enum _ => SymTagEnum
  | UserData _ _ => SymTagUDT
  | Typedef _ => SymTagTypedef
  | Data => SymTagData
  end.

(** [Symbol->u.Array.ElementCount]: only an array has one. *)
Definition Array_ElementCount (s : SYMBOL) : option N :=
  match u s with
  | Array _ n => Some n
  | _ => None
  end.

(** [Symbol->u.UserData.Kind]. *)
Definition UserData_Kind (s : SYMBOL) : option UdtKind :=
  match u s with
  | UserData k _ => Some k
  | _ => None
  end.

(** [const_cast<SYMBOL*>(Symbol)->Size = n]. *)
Definition set_Size (n : N) (s : SYMBOL) : SYMBOL :=
  {| Size := n; Name := Name s; u := u s |}.

#[global] Instance SymTag_eq_dec : EqDecision SymTag.
Proof. solve_decision. Defined.

#[global] Instance UdtKind_eq_dec : EqDecision UdtKind.
Proof. solve_decision. Defined.

(** The symbol memory. *)
Abbreviation Memory := (gmap positive SYMBOL).

End PDB.

Import PDB.

(** [std::to_string] on an unsigned value: its decimal digits. *)
Definition to_string (n : N) : string :=
  NilZero.string_of_uint (N.to_uint n).

(* ===================================================================== *)
(** * UserDataFieldDefinition: the field-declaration printer *)
(* ===================================================================== *)

Module FieldDefinition.

Record Settings := { UseStdInt : bool }.

(** [static Settings DefaultSettings;] with its member initialiser. *)
Definition DefaultSettings : Settings := {| UseStdInt := false |}.

(** The data members of the class. *)
Record UserDataFieldDefinition := {
  m_TypePrefix : string;
  m_MemberName : string;
  m_TypeSuffix : string;
  m_Comment    : string;
  m_Settings   : Settings
}.

(** A freshly constructed printer after [SetSettings]: the four strings
    are default-constructed, hence empty. *)
Definition fresh (s : Settings) : UserDataFieldDefinition :=
  {| m_TypePrefix := ""; m_MemberName := ""; m_TypeSuffix := "";
     m_Comment := ""; m_Settings := s |}.

Definition with_TypePrefix (p : string) (d : UserDataFieldDefinition) :=
  {| m_TypePrefix := p; m_MemberName := m_MemberName d;
     m_TypeSuffix := m_TypeSuffix d; m_Comment := m_Comment d;
     m_Settings := m_Settings d |}.

Definition with_TypeSuffix (p : string) (d : UserDataFieldDefinition) :=
  {| m_TypePrefix := m_TypePrefix d; m_MemberName := m_MemberName d;
     m_TypeSuffix := p; m_Comment := m_Comment d;
     m_Settings := m_Settings d |}.

Definition with_Comment (c : string) (d : UserDataFieldDefinition) :=
  {| m_TypePrefix := m_TypePrefix d; m_MemberName := m_MemberName d;
     m_TypeSuffix := m_TypeSuffix d; m_Comment := c;
     m_Settings := m_Settings d |}.

Definition with_MemberName (n : string) (d : UserDataFieldDefinition) :=
  {| m_TypePrefix := m_TypePrefix d; m_MemberName := n;
     m_TypeSuffix := m_TypeSuffix d; m_Comment := m_Comment d;
     m_Settings := m_Settings d |}.

Definition with_Settings (s : Settings) (d : UserDataFieldDefinition) :=
  {| m_TypePrefix := m_TypePrefix d; m_MemberName := m_MemberName d;
     m_TypeSuffix := m_TypeSuffix d; m_Comment := m_Comment d;
     m_Settings := s |}.

(** What a callback works on: the printer object and the symbol memory
    its argument points into. *)
Definition State : Type := UserDataFieldDefinition * gmap positive SYMBOL.

Section Callbacks.

(** [PDB::GetBasicTypeString] lives in PDB.h, which is not among the
    sources: it is a parameter of the development. *)
Variable GetBasicTypeString : SYMBOL -> bool -> string.

Definition VisitBaseType (Symbol : SymPtr) (st : State) : option State :=
  let '(d, mem) := st in
  match mem !! Symbol with
  | None => None
  | Some sym =>
      Some (with_TypePrefix
              (m_TypePrefix d +:+ GetBasicTypeString sym (UseStdInt (m_Settings d))) d,
            mem)
  end.

Definition VisitPointerTypeEnd (Symbol : SymPtr) (st : State) : option State :=
  let '(d, mem) := st in
  Some (with_TypePrefix (m_TypePrefix d +:+ "*") d, mem).

Definition VisitArrayTypeEnd (Symbol : SymPtr) (st : State) : option State :=
  let '(d, mem) := st in
  match mem !! Symbol with
  | None => None
  | Some sym =>
      match Array_ElementCount sym with
      | None => None
      | Some ElementCount =>
          if (ElementCount =? 0)%N
          then Some (with_TypePrefix (m_TypePrefix d +:+ "*") d,
                     <[Symbol := set_Size 1 sym]> mem)
          else Some (with_TypeSuffix
                       (m_TypeSuffix d +:+ ("[" +:+ to_string ElementCount) +:+ "]") d,
                     mem)
      end
  end.

Definition VisitFunctionTypeEnd (Symbol : SymPtr) (st : State) : option State :=
  let '(d, mem) := st in
  Some (with_Comment " /* function */"
          (with_TypePrefix (m_TypePrefix d +:+ "void") d),
        mem).

(** [MemberName ? MemberName : std::string()]. *)
Definition SetMemberName (MemberName : option string) (st : State) : option State :=
  let '(d, mem) := st in
  Some (with_MemberName (default "" MemberName) d, mem).

(** [operator+] associates to the left. *)
Definition GetPrintableDefinition (d : UserDataFieldDefinition) : string :=
  (((m_TypePrefix d +:+ " ") +:+ m_MemberName d) +:+ m_TypeSuffix d) +:+ m_Comment d.

Definition SetSettings (MemberDefinitionSettings : option Settings)
    (d : UserDataFieldDefinition) : UserDataFieldDefinition :=
  with_Settings (default DefaultSettings MemberDefinitionSettings) d.

(** One call of the symbol visitor into the printer. *)
Inductive Callback :=
| CallVisitBaseType (Symbol : SymPtr)
| CallVisitPointerTypeEnd (Symbol : SymPtr)
| CallVisitArrayTypeEnd (Symbol : SymPtr)
| CallVisitFunctionTypeEnd (Symbol : SymPtr)
| CallSetMemberName (MemberName : option string).

Definition call (c : Callback) : State -> option State :=
  match c with
  | CallVisitBaseType p => VisitBaseType p
  | CallVisitPointerTypeEnd p => VisitPointerTypeEnd p
  | CallVisitArrayTypeEnd p => VisitArrayTypeEnd p
  | CallVisitFunctionTypeEnd p => VisitFunctionTypeEnd p
  | CallSetMemberName n => SetMemberName n
  end.

(** A sequence of calls, in order; it stops at the first undefined one. *)
Fixpoint calls (cs : list Callback) (st : State) : option State :=
  match cs with
  | [] => Some st
  | c :: cs' =>
      match call c st with
      | None => None
      | Some st' => calls cs' st'
      end
  end.

(** The visitor chooses the callback by the tag of the symbol it stands
    on: [VisitBaseType] gets a base type and [VisitArrayTypeEnd] an array,
    both present in the memory. *)
Definition call_tagged (mem : gmap positive SYMBOL) (c : Callback) : bool :=
  match c with
  | CallVisitBaseType p =>
      match mem !! p with
      | Some sym => bool_decide (Tag sym = SymTagBaseType)
      | None => false
      end
  | CallVisitArrayTypeEnd p =>
      match mem !! p with
      | Some sym => bool_decide (Tag sym = SymTagArrayType)
      | None => false
      end
  | _ => true
  end.

Definition calls_tagged (mem : gmap positive SYMBOL) (cs : list Callback) : bool :=
  forallb (call_tagged mem) cs.

(** One reconstruction of a member: a fresh printer, the calls, the
    rendered text. *)
Definition reconstruct (s : Settings) (cs : list Callback)
    (mem : gmap positive SYMBOL) : option (string * gmap positive SYMBOL) :=
  match calls cs (fresh s, mem) with
  | None => None
  | Some (d, mem') => Some (GetPrintableDefinition d, mem')
  end.

End Callbacks.

(** Modelled from the spec: the calls the symbol visitor makes along the
    type chain of a member (PDBSymbolVisitor.h is not among the sources).
    It walks from the outermost wrapper down to the base; the callback of
    a pointer or an array is its end callback, so it comes after the
    callbacks of what the wrapper holds; a base type and a function end
    the chain; a user-defined type, an enum or a typedef at the end is
    left to the header reconstructor and calls nothing here.  The walk
    reads the tag and the child of a symbol, never its size.  [fuel]
    bounds the depth of the chain. *)
Fixpoint chain_calls (fuel : nat) (mem : gmap positive SYMBOL) (Symbol : SymPtr)
    : option (list Callback) :=
  match fuel with
  | O => None
  | S fuel' =>
      match mem !! Symbol with
      | None => None
      | Some sym =>
          match u sym with
          | BaseType _ => Some [CallVisitBaseType Symbol]
          | Pointer Type_ =>
              match chain_calls fuel' mem Type_ with
              | Some cs => Some (cs ++ [CallVisitPointerTypeEnd Symbol])
              | None => None
              end
          | Array ElementType _ =>
              match chain_calls fuel' mem ElementType with
              | Some cs => Some (cs ++ [CallVisitArrayTypeEnd Symbol])
              | None => None
              end
          | Function _ _ => Some [CallVisitFunctionTypeEnd Symbol]
          | _ => Some []
          end
      end
  end.

(** [m'] is [m] with the size of some zero-length arrays set to 1: what
    the corrections of [VisitArrayTypeEnd] can have done to [m]. *)
Definition fixed_from (m m' : gmap positive SYMBOL) : Prop :=
  forall p,
    m' !! p = m !! p
    \/ exists s, m !! p = Some s
                /\ Array_ElementCount s = Some 0%N
                /\ m' !! p = Some (set_Size 1 s).

End FieldDefinition.

(* ===================================================================== *)
(** * PDBExtractor: the driver *)
(* ===================================================================== *)

Module Extractor.

(** ** Outcomes and the state monad of the driver *)

(** How a piece of the driver ends: it returns, it throws a
    [PDBDumperException] carrying a message, it leaves the process through
    [exit], or it has run into undefined behaviour. *)
Inductive outcome (A : Type) :=
| Ok (a : A)
| Throw (what : string)
| Exit (status : Z)
| Undefined.

Arguments Ok {A} a.
Arguments Throw {A} what.
Arguments Exit {A} status.
Arguments Undefined {A}.

Definition ERROR_SUCCESS : Z := 0.
Definition EXIT_SUCCESS : Z := 0.
Definition EXIT_FAILURE : Z := 1.

Definition MESSAGE_INVALID_PARAMETERS : string := "Invalid parameters".
Definition MESSAGE_FILE_NOT_FOUND : string := "File not found".
Definition MESSAGE_SYMBOL_NOT_FOUND : string := "Symbol not found".

(** The characters the string literals of the source escape. *)
Definition endl : string := String (ascii_of_nat 10) "".
Definition tab : string := String (ascii_of_nat 9) "".
Definition dquote : string := String (ascii_of_nat 34) "".

(** A [std::ostream*]: one of the two standard streams or a
    [std::ofstream] made by [new], named by its allocation number. *)
Inductive ostream := cout | cerr | ofstream (h : nat).

#[global] Instance ostream_eq_dec : EqDecision ostream.
Proof. solve_decision. Defined.

(** What the run does to the outside, in order: text sent to a stream,
    and a call of the symbol visitor (with everything that call prints). *)
Inductive event :=
| Write (to : ostream) (text : string)
| RunVisitor (e : SymPtr).

Inductive ImageArchitecture := ArchNone | ArchX86 | ArchX64.

#[global] Instance ImageArchitecture_eq_dec : EqDecision ImageArchitecture.
Proof. solve_decision. Defined.

(** [PDBHeaderReconstructor::MemberStructExpansionType]. *)
Module MemberStructExpansionType.
Inductive t := None | InlineUnnamed | InlineAll.
End MemberStructExpansionType.

#[global] Instance MemberStructExpansionType_eq_dec :
  EqDecision MemberStructExpansionType.t.
Proof. solve_decision. Defined.

(** Modelled from the spec: [PDBHeaderReconstructor::Settings]
    (PDBHeaderReconstructor.h is not among the sources); the members are
    those [ParseParameters] assigns. *)
Record PDBHeaderReconstructor_Settings := {
  MemberStructExpansion   : MemberStructExpansionType.t;
  OutputFile              : ostream;
  TestFile                : option ostream;
  AnonymousUnionPrefix    : string;
  AnonymousStructPrefix   : string;
  SymbolPrefix            : string;
  SymbolSuffix            : string;
  CreatePaddingMembers    : bool;
  ShowOffsets             : bool;
  MicrosoftTypedefs       : bool;
  AllowBitFieldsInUnion   : bool;
  AllowAnonymousDataTypes : bool
}.

(** Modelled from the spec: [PDBExtractor::Settings] (PDBExtractor.h is
    not among the sources).  The two file names are [const char*], null
    until an option sets them. *)
Record Settings := {
  SymbolName     : string;
  PdbPath        : string;
  OutputFilename : option string;
  TestFilename   : option string;
  PdbHeaderReconstructorSettings  : PDBHeaderReconstructor_Settings;
  UserDataFieldDefinitionSettings : FieldDefinition.Settings;
  PrintReferencedTypes : bool;
  PrintHeader          : bool;
  PrintDeclarations    : bool;
  PrintDefinitions     : bool
}.

(** Modelled from the spec: the defaults of the settings, as the usage
    text and the command surface give them (expansion [i], padding,
    offsets and typedefs on, bitfields in unions off, unnamed types on,
    stdint off, the four print switches on, output to the standard output,
    no test file).  The defaults of the four name affixes are not stated
    anywhere and are arguments. *)
Definition DefaultSettings (UnionPrefix StructPrefix Prefix Suffix : string) : Settings :=
  {| SymbolName := ""; PdbPath := "";
     OutputFilename := None; TestFilename := None;
     PdbHeaderReconstructorSettings :=
       {| MemberStructExpansion := MemberStructExpansionType.InlineUnnamed;
          OutputFile := cout; TestFile := None;
          AnonymousUnionPrefix := UnionPrefix;
          AnonymousStructPrefix := StructPrefix;
          SymbolPrefix := Prefix; SymbolSuffix := Suffix;
          CreatePaddingMembers := true; ShowOffsets := true;
          MicrosoftTypedefs := true; AllowBitFieldsInUnion := false;
          AllowAnonymousDataTypes := true |};
     UserDataFieldDefinitionSettings := FieldDefinition.DefaultSettings;
     PrintReferencedTypes := true; PrintHeader := true;
     PrintDeclarations := true; PrintDefinitions := true |}.

(** Assignments to one member. *)
Definition map_Reconstructor (f : PDBHeaderReconstructor_Settings -> PDBHeaderReconstructor_Settings)
    (s : Settings) : Settings :=
  {| SymbolName := SymbolName s; PdbPath := PdbPath s;
     OutputFilename := OutputFilename s; TestFilename := TestFilename s;
     PdbHeaderReconstructorSettings := f (PdbHeaderReconstructorSettings s);
     UserDataFieldDefinitionSettings := UserDataFieldDefinitionSettings s;
     PrintReferencedTypes := PrintReferencedTypes s; PrintHeader := PrintHeader s;
     PrintDeclarations := PrintDeclarations s; PrintDefinitions := PrintDefinitions s |}.

Definition set_SymbolName (v : string) (s : Settings) : Settings :=
  {| SymbolName := v; PdbPath := PdbPath s;
     OutputFilename := OutputFilename s; TestFilename := TestFilename s;
     PdbHeaderReconstructorSettings := PdbHeaderReconstructorSettings s;
     UserDataFieldDefinitionSettings := UserDataFieldDefinitionSettings s;
     PrintReferencedTypes := PrintReferencedTypes s; PrintHeader := PrintHeader s;
     PrintDeclarations := PrintDeclarations s; PrintDefinitions := PrintDefinitions s |}.

Definition set_PdbPath (v : string) (s : Settings) : Settings :=
  {| SymbolName := SymbolName s; PdbPath := v;
     OutputFilename := OutputFilename s; TestFilename := TestFilename s;
     PdbHeaderReconstructorSettings := PdbHeaderReconstructorSettings s;
     UserDataFieldDefinitionSettings := UserDataFieldDefinitionSettings s;
     PrintReferencedTypes := PrintReferencedTypes s; PrintHeader := PrintHeader s;
     PrintDeclarations := PrintDeclarations s; PrintDefinitions := PrintDefinitions s |}.

Definition set_OutputFilename (v : option string) (s : Settings) : Settings :=
  {| SymbolName := SymbolName s; PdbPath := PdbPath s;
     OutputFilename := v; TestFilename := TestFilename s;
     PdbHeaderReconstructorSettings := PdbHeaderReconstructorSettings s;
     UserDataFieldDefinitionSettings := UserDataFieldDefinitionSettings s;
     PrintReferencedTypes := PrintReferencedTypes s; PrintHeader := PrintHeader s;
     PrintDeclarations := PrintDeclarations s; PrintDefinitions := PrintDefinitions s |}.

Definition set_TestFilename (v : option string) (s : Settings) : Settings :=
  {| SymbolName := SymbolName s; PdbPath := PdbPath s;
     OutputFilename := OutputFilename s; TestFilename := v;
     PdbHeaderReconstructorSettings := PdbHeaderReconstructorSettings s;
     UserDataFieldDefinitionSettings := UserDataFieldDefinitionSettings s;
     PrintReferencedTypes := PrintReferencedTypes s; PrintHeader := PrintHeader s;
     PrintDeclarations := PrintDeclarations s; PrintDefinitions := PrintDefinitions s |}.

Definition set_UseStdInt (v : bool) (s : Settings) : Settings :=
  {| SymbolName := SymbolName s; PdbPath := PdbPath s;
     OutputFilename := OutputFilename s; TestFilename := TestFilename s;
     PdbHeaderReconstructorSettings := PdbHeaderReconstructorSettings s;
     UserDataFieldDefinitionSettings := {| FieldDefinition.UseStdInt := v |};
     PrintReferencedTypes := PrintReferencedTypes s; PrintHeader := PrintHeader s;
     PrintDeclarations := PrintDeclarations s; PrintDefinitions := PrintDefinitions s |}.

Definition set_PrintReferencedTypes (v : bool) (s : Settings) : Settings :=
  {| SymbolName := SymbolName s; PdbPath := PdbPath s;
     OutputFilename := OutputFilename s; TestFilename := TestFilename s;
     PdbHeaderReconstructorSettings := PdbHeaderReconstructorSettings s;
     UserDataFieldDefinitionSettings := UserDataFieldDefinitionSettings s;
     PrintReferencedTypes := v; PrintHeader := PrintHeader s;
     PrintDeclarations := PrintDeclarations s; PrintDefinitions := PrintDefinitions s |}.

Definition set_PrintHeader (v : bool) (s : Settings) : Settings :=
  {| SymbolName := SymbolName s; PdbPath := PdbPath s;
     OutputFilename := OutputFilename s; TestFilename := TestFilename s;
     PdbHeaderReconstructorSettings := PdbHeaderReconstructorSettings s;
     UserDataFieldDefinitionSettings := UserDataFieldDefinitionSettings s;
     PrintReferencedTypes := PrintReferencedTypes s; PrintHeader := v;
     PrintDeclarations := PrintDeclarations s; PrintDefinitions := PrintDefinitions s |}.

Definition set_PrintDeclarations (v : bool) (s : Settings) : Settings :=
  {| SymbolName := SymbolName s; PdbPath := PdbPath s;
     OutputFilename := OutputFilename s; TestFilename := TestFilename s;
     PdbHeaderReconstructorSettings := PdbHeaderReconstructorSettings s;
     UserDataFieldDefinitionSettings := UserDataFieldDefinitionSettings s;
     PrintReferencedTypes := PrintReferencedTypes s; PrintHeader := PrintHeader s;
     PrintDeclarations := v; PrintDefinitions := PrintDefinitions s |}.

Definition set_PrintDefinitions (v : bool) (s : Settings) : Settings :=
  {| SymbolName := SymbolName s; PdbPath := PdbPath s;
     OutputFilename := OutputFilename s; TestFilename := TestFilename s;
     PdbHeaderReconstructorSettings := PdbHeaderReconstructorSettings s;
     UserDataFieldDefinitionSettings := UserDataFieldDefinitionSettings s;
     PrintReferencedTypes := PrintReferencedTypes s; PrintHeader := PrintHeader s;
     PrintDeclarations := PrintDeclarations s; PrintDefinitions := v |}.

Definition set_MemberStructExpansion (v : MemberStructExpansionType.t)
    (r : PDBHeaderReconstructor_Settings) : PDBHeaderReconstructor_Settings :=
  {| MemberStructExpansion := v; OutputFile := OutputFile r; TestFile := TestFile r;
     AnonymousUnionPrefix := AnonymousUnionPrefix r;
     AnonymousStructPrefix := AnonymousStructPrefix r;
     SymbolPrefix := SymbolPrefix r; SymbolSuffix := SymbolSuffix r;
     CreatePaddingMembers := CreatePaddingMembers r; ShowOffsets := ShowOffsets r;
     MicrosoftTypedefs := MicrosoftTypedefs r;
     AllowBitFieldsInUnion := AllowBitFieldsInUnion r;
     AllowAnonymousDataTypes := AllowAnonymousDataTypes r |}.

Definition set_OutputFile (v : ostream)
    (r : PDBHeaderReconstructor_Settings) : PDBHeaderReconstructor_Settings :=
  {| MemberStructExpansion := MemberStructExpansion r; OutputFile := v; TestFile := TestFile r;
     AnonymousUnionPrefix := AnonymousUnionPrefix r;
     AnonymousStructPrefix := AnonymousStructPrefix r;
     SymbolPrefix := SymbolPrefix r; SymbolSuffix := SymbolSuffix r;
     CreatePaddingMembers := CreatePaddingMembers r; ShowOffsets := ShowOffsets r;
     MicrosoftTypedefs := MicrosoftTypedefs r;
     AllowBitFieldsInUnion := AllowBitFieldsInUnion r;
     AllowAnonymousDataTypes := AllowAnonymousDataTypes r |}.

Definition set_TestFile (v : option ostream)
    (r : PDBHeaderReconstructor_Settings) : PDBHeaderReconstructor_Settings :=
  {| MemberStructExpansion := MemberStructExpansion r; OutputFile := OutputFile r; TestFile := v;
     AnonymousUnionPrefix := AnonymousUnionPrefix r;
     AnonymousStructPrefix := AnonymousStructPrefix r;
     SymbolPrefix := SymbolPrefix r; SymbolSuffix := SymbolSuffix r;
     CreatePaddingMembers := CreatePaddingMembers r; ShowOffsets := ShowOffsets r;
     MicrosoftTypedefs := MicrosoftTypedefs r;
     AllowBitFieldsInUnion := AllowBitFieldsInUnion r;
     AllowAnonymousDataTypes := AllowAnonymousDataTypes r |}.

Definition set_AnonymousUnionPrefix (v : string)
    (r : PDBHeaderReconstructor_Settings) : PDBHeaderReconstructor_Settings :=
  {| MemberStructExpansion := MemberStructExpansion r; OutputFile := OutputFile r; TestFile := TestFile r;
     AnonymousUnionPrefix := v;
     AnonymousStructPrefix := AnonymousStructPrefix r;
     SymbolPrefix := SymbolPrefix r; SymbolSuffix := SymbolSuffix r;
     CreatePaddingMembers := CreatePaddingMembers r; ShowOffsets := ShowOffsets r;
     MicrosoftTypedefs := MicrosoftTypedefs r;
     AllowBitFieldsInUnion := AllowBitFieldsInUnion r;
     AllowAnonymousDataTypes := AllowAnonymousDataTypes r |}.

Definition set_AnonymousStructPrefix (v : string)
    (r : PDBHeaderReconstructor_Settings) : PDBHeaderReconstructor_Settings :=
  {| MemberStructExpansion := MemberStructExpansion r; OutputFile := OutputFile r; TestFile := TestFile r;
     AnonymousUnionPrefix := AnonymousUnionPrefix r;
     AnonymousStructPrefix := v;
     SymbolPrefix := SymbolPrefix r; SymbolSuffix := SymbolSuffix r;
     CreatePaddingMembers := CreatePaddingMembers r; ShowOffsets := ShowOffsets r;
     MicrosoftTypedefs := MicrosoftTypedefs r;
     AllowBitFieldsInUnion := AllowBitFieldsInUnion r;
     AllowAnonymousDataTypes := AllowAnonymousDataTypes r |}.

Definition set_SymbolPrefix (v : string)
    (r : PDBHeaderReconstructor_Settings) : PDBHeaderReconstructor_Settings :=
  {| MemberStructExpansion := MemberStructExpansion r; OutputFile := OutputFile r; TestFile := TestFile r;
     AnonymousUnionPrefix := AnonymousUnionPrefix r;
     AnonymousStructPrefix := AnonymousStructPrefix r;
     SymbolPrefix := v; SymbolSuffix := SymbolSuffix r;
     CreatePaddingMembers := CreatePaddingMembers r; ShowOffsets := ShowOffsets r;
     MicrosoftTypedefs := MicrosoftTypedefs r;
     AllowBitFieldsInUnion := AllowBitFieldsInUnion r;
     AllowAnonymousDataTypes := AllowAnonymousDataTypes r |}.

Definition set_SymbolSuffix (v : string)
    (r : PDBHeaderReconstructor_Settings) : PDBHeaderReconstructor_Settings :=
  {| MemberStructExpansion := MemberStructExpansion r; OutputFile := OutputFile r; TestFile := TestFile r;
     AnonymousUnionPrefix := AnonymousUnionPrefix r;
     AnonymousStructPrefix := AnonymousStructPrefix r;
     SymbolPrefix := SymbolPrefix r; SymbolSuffix := v;
     CreatePaddingMembers := CreatePaddingMembers r; ShowOffsets := ShowOffsets r;
     MicrosoftTypedefs := MicrosoftTypedefs r;
     AllowBitFieldsInUnion := AllowBitFieldsInUnion r;
     AllowAnonymousDataTypes := AllowAnonymousDataTypes r |}.

Definition set_CreatePaddingMembers (v : bool)
    (r : PDBHeaderReconstructor_Settings) : PDBHeaderReconstructor_Settings :=
  {| MemberStructExpansion := MemberStructExpansion r; OutputFile := OutputFile r; TestFile := TestFile r;
     AnonymousUnionPrefix := AnonymousUnionPrefix r;
     AnonymousStructPrefix := AnonymousStructPrefix r;
     SymbolPrefix := SymbolPrefix r; SymbolSuffix := SymbolSuffix r;
     CreatePaddingMembers := v; ShowOffsets := ShowOffsets r;
     MicrosoftTypedefs := MicrosoftTypedefs r;
     AllowBitFieldsInUnion := AllowBitFieldsInUnion r;
     AllowAnonymousDataTypes := AllowAnonymousDataTypes r |}.

Definition set_ShowOffsets (v : bool)
    (r : PDBHeaderReconstructor_Settings) : PDBHeaderReconstructor_Settings :=
  {| MemberStructExpansion := MemberStructExpansion r; OutputFile := OutputFile r; TestFile := TestFile r;
     AnonymousUnionPrefix := AnonymousUnionPrefix r;
     AnonymousStructPrefix := AnonymousStructPrefix r;
     SymbolPrefix := SymbolPrefix r; SymbolSuffix := SymbolSuffix r;
     CreatePaddingMembers := CreatePaddingMembers r; ShowOffsets := v;
     MicrosoftTypedefs := MicrosoftTypedefs r;
     AllowBitFieldsInUnion := AllowBitFieldsInUnion r;
     AllowAnonymousDataTypes := AllowAnonymousDataTypes r |}.

Definition set_MicrosoftTypedefs (v : bool)
    (r : PDBHeaderReconstructor_Settings) : PDBHeaderReconstructor_Settings :=
  {| MemberStructExpansion := MemberStructExpansion r; OutputFile := OutputFile r; TestFile := TestFile r;
     AnonymousUnionPrefix := AnonymousUnionPrefix r;
     AnonymousStructPrefix := AnonymousStructPrefix r;
     SymbolPrefix := SymbolPrefix r; SymbolSuffix := SymbolSuffix r;
     CreatePaddingMembers := CreatePaddingMembers r; ShowOffsets := ShowOffsets r;
     MicrosoftTypedefs := v;
     AllowBitFieldsInUnion := AllowBitFieldsInUnion r;
     AllowAnonymousDataTypes := AllowAnonymousDataTypes r |}.

Definition set_AllowBitFieldsInUnion (v : bool)
    (r : PDBHeaderReconstructor_Settings) : PDBHeaderReconstructor_Settings :=
  {| MemberStructExpansion := MemberStructExpansion r; OutputFile := OutputFile r; TestFile := TestFile r;
     AnonymousUnionPrefix := AnonymousUnionPrefix r;
     AnonymousStructPrefix := AnonymousStructPrefix r;
     SymbolPrefix := SymbolPrefix r; SymbolSuffix := SymbolSuffix r;
     CreatePaddingMembers := CreatePaddingMembers r; ShowOffsets := ShowOffsets r;
     MicrosoftTypedefs := MicrosoftTypedefs r;
     AllowBitFieldsInUnion := v;
     AllowAnonymousDataTypes := AllowAnonymousDataTypes r |}.

Definition set_AllowAnonymousDataTypes (v : bool)
    (r : PDBHeaderReconstructor_Settings) : PDBHeaderReconstructor_Settings :=
  {| MemberStructExpansion := MemberStructExpansion r; OutputFile := OutputFile r; TestFile := TestFile r;
     AnonymousUnionPrefix := AnonymousUnionPrefix r;
     AnonymousStructPrefix := AnonymousStructPrefix r;
     SymbolPrefix := SymbolPrefix r; SymbolSuffix := SymbolSuffix r;
     CreatePaddingMembers := CreatePaddingMembers r; ShowOffsets := ShowOffsets r;
     MicrosoftTypedefs := MicrosoftTypedefs r;
     AllowBitFieldsInUnion := AllowBitFieldsInUnion r;
     AllowAnonymousDataTypes := v |}.

(** Modelled from the spec: what the symbol-graph reader hands over once
    a file is open (PDB.h is not among the sources): the top-level symbols
    in the order of the symbol map, the lookup by name, and the symbols
    themselves. *)
Record PDBFile := {
  GetSymbolMap    : list (N * SymPtr);
  GetSymbolByName : string -> option SymPtr;
  Symbols         : gmap positive SYMBOL
}.

(** ** The collaborators whose code is not among the sources *)

(** What the driver calls in the other components:
    - [PDBSymbolSorter] (PDBSymbolSorter.h): its state and the five
      operations used here;
    - [PDB::Open] on a path: the file system and the reader together;
    - [PDB::IsUnnamedSymbol] and [PDB::GetUdtKindString] (PDB.h);
    - [PDBHeaderReconstructor::GetCorrectedSymbolName]
      (PDBHeaderReconstructor.h);
    - what [PDBSymbolVisitor::Run] does to the symbols it walks (the
      printer above rewrites the size of a zero-length array); what it
      prints is the event [RunVisitor];
    - the macro [PDBEX_VERSION_STRING] (PDBExtractor.h). *)
Class Collaborators := {
  Sorter : Type;
  Sorter_make : Sorter;
  Sorter_Visit : SymPtr -> gmap positive SYMBOL -> Sorter -> Sorter;
  Sorter_GetSortedSymbols : Sorter -> list SymPtr;
  Sorter_GetImageArchitecture : Sorter -> ImageArchitecture;
  Sorter_Clear : Sorter -> Sorter;
  PDB_Open : string -> option PDBFile;
  IsUnnamedSymbol : SYMBOL -> bool;
  GetUdtKindString : UdtKind -> string;
  GetCorrectedSymbolName : PDBHeaderReconstructor_Settings -> SYMBOL -> string;
  Visitor_Run : Settings -> SymPtr -> gmap positive SYMBOL -> gmap positive SYMBOL;
  PDBEX_VERSION_STRING : string
}.

Section Driver.

Context `{Collaborators}.

(** ** The state of a run *)

(** The members of the [PDBExtractor] object, and around them the live
    [std::ofstream] objects (allocation number to file name), the
    allocation counter, the symbol memory and the events so far. *)
Record World := {
  m_Settings     : Settings;
  m_PDB          : option PDBFile;
  m_SymbolSorter : option Sorter;
  m_Architecture : ImageArchitecture;
  streams        : gmap nat string;
  next_stream    : nat;
  memory         : gmap positive SYMBOL;
  trace          : list event
}.

Definition M (A : Type) : Type := World -> outcome A * World.

Definition ret {A} (a : A) : M A := fun w => (Ok a, w).

Definition bind {A B} (m : M A) (k : A -> M B) : M B :=
  fun w =>
    match m w with
    | (Ok a, w') => k a w'
    | (Throw what, w') => (Throw what, w')
    | (Exit status, w') => (Exit status, w')
    | (Undefined, w') => (Undefined, w')
    end.

Notation "x <- m ;; k" := (bind m (fun x => k))
  (at level 100, m at next level, right associativity).
Notation "m ;;; k" := (bind m (fun _ => k))
  (at level 100, right associativity).

Definition throw {A} (what : string) : M A := fun w => (Throw what, w).
Definition exit {A} (status : Z) : M A := fun w => (Exit status, w).
Definition undefined {A} : M A := fun w => (Undefined, w).
Definition get : M World := fun w => (Ok w, w).
Definition modify (f : World -> World) : M unit := fun w => (Ok tt, f w).

Definition with_Settings (f : Settings -> Settings) (w : World) : World :=
  {| m_Settings := f (m_Settings w); m_PDB := m_PDB w;
     m_SymbolSorter := m_SymbolSorter w; m_Architecture := m_Architecture w;
     streams := streams w; next_stream := next_stream w;
     memory := memory w; trace := trace w |}.

Definition with_PDB (p : PDBFile) (w : World) : World :=
  {| m_Settings := m_Settings w; m_PDB := Some p;
     m_SymbolSorter := m_SymbolSorter w; m_Architecture := m_Architecture w;
     streams := streams w; next_stream := next_stream w;
     memory := Symbols p; trace := trace w |}.

Definition with_SymbolSorter (s : option Sorter) (w : World) : World :=
  {| m_Settings := m_Settings w; m_PDB := m_PDB w;
     m_SymbolSorter := s; m_Architecture := m_Architecture w;
     streams := streams w; next_stream := next_stream w;
     memory := memory w; trace := trace w |}.

Definition with_Architecture (a : ImageArchitecture) (w : World) : World :=
  {| m_Settings := m_Settings w; m_PDB := m_PDB w;
     m_SymbolSorter := m_SymbolSorter w; m_Architecture := a;
     streams := streams w; next_stream := next_stream w;
     memory := memory w; trace := trace w |}.

Definition with_streams (f : gmap nat string -> gmap nat string) (n : nat)
    (w : World) : World :=
  {| m_Settings := m_Settings w; m_PDB := m_PDB w;
     m_SymbolSorter := m_SymbolSorter w; m_Architecture := m_Architecture w;
     streams := f (streams w); next_stream := n;
     memory := memory w; trace := trace w |}.

Definition with_memory (f : gmap positive SYMBOL -> gmap positive SYMBOL)
    (w : World) : World :=
  {| m_Settings := m_Settings w; m_PDB := m_PDB w;
     m_SymbolSorter := m_SymbolSorter w; m_Architecture := m_Architecture w;
     streams := streams w; next_stream := next_stream w;
     memory := f (memory w); trace := trace w |}.

Definition emit (e : event) (w : World) : World :=
  {| m_Settings := m_Settings w; m_PDB := m_PDB w;
     m_SymbolSorter := m_SymbolSorter w; m_Architecture := m_Architecture w;
     streams := streams w; next_stream := next_stream w;
     memory := memory w; trace := trace w ++ [e] |}.

(** [*to << text]. *)
Definition write (to : ostream) (text : string) : M unit :=
  modify (emit (Write to text)).

(** [new std::ofstream(name, std::ios::out)]. *)
Definition new_ofstream (name : string) : M ostream :=
  fun w =>
    let h := next_stream w in
    (Ok (ofstream h), with_streams (fun m => <[h := name]> m) (S h) w).

(** [delete p]: nothing for a null pointer, the end of a stream made by
    [new]; on a standard stream it is undefined. *)
Definition delete (p : option ostream) : M unit :=
  match p with
  | None => ret tt
  | Some (ofstream h) =>
      fun w => (Ok tt, with_streams (fun m => base.delete h m) (next_stream w) w)
  | Some _ => undefined
  end.

(** [*p] for a [const SYMBOL*]. *)
Definition deref (p : SymPtr) : M SYMBOL :=
  fun w =>
    match memory w !! p with
    | Some sym => (Ok sym, w)
    | None => (Undefined, w)
    end.

(** [m_SymbolSorter->...]: the pointer is null until [ParseParameters]
    has made the sorter. *)
Definition the_sorter : M Sorter :=
  fun w =>
    match m_SymbolSorter w with
    | Some s => (Ok s, w)
    | None => (Undefined, w)
    end.

Definition the_PDB : M PDBFile :=
  fun w =>
    match m_PDB w with
    | Some p => (Ok p, w)
    | None => (Undefined, w)
    end.

Definition settings : M Settings := fun w => (Ok (m_Settings w), w).

(** [m_SymbolSorter->Visit(Symbol)]. *)
Definition SymbolSorter_Visit (Symbol : SymPtr) : M unit :=
  s <- the_sorter ;;
  w <- get ;;
  modify (with_SymbolSorter (Some (Sorter_Visit Symbol (memory w) s))).

(** [m_SymbolVisitor->Run(Symbol)]. *)
Definition SymbolVisitor_Run (Symbol : SymPtr) : M unit :=
  s <- settings ;;
  modify (emit (RunVisitor Symbol)) ;;;
  modify (with_memory (Visitor_Run s Symbol)).

(** ** PrintUsage *)

Definition usage : list string :=
  [ "Extracts types and structures from PDB (Program database)." +:+ endl;
    "Version v" +:+ PDBEX_VERSION_STRING +:+ endl;
    endl;
    "pdbex <symbol> <path> [-o <filename>] [-t <filename>] [-e <type>]" +:+ endl;
    "                     [-u <prefix>] [-s prefix] [-r prefix] [-g suffix]" +:+ endl;
    "                     [-p] [-x] [-m] [-b] [-d] [-i] [-l]" +:+ endl;
    endl;
    "<symbol>             Symbol name to extract or '*' if all symbol should" +:+ endl;
    "                     be extracted." +:+ endl;
    "<path>               Path to the PDB file." +:+ endl;
    " -o filename         Specifies the output file.                       (stdout)" +:+ endl;
    " -t filename         Specifies the output test file.                  (off)" +:+ endl;
    " -e [n,i,a]          Specifies expansion of nested structures/unions. (i)" +:+ endl;
    "                       n = none            Only top-most type is printed." +:+ endl;
    "                       i = inline unnamed  Unnamed types are nested." +:+ endl;
    "                       a = inline all      All types are nested." +:+ endl;
    " -u prefix           Unnamed union prefix  (in combination with -d)." +:+ endl;
    " -s prefix           Unnamed struct prefix (in combination with -d)." +:+ endl;
    " -r prefix           Prefix for all symbols." +:+ endl;
    " -g suffix           Suffix for all symbols." +:+ endl;
    endl;
    "Following options can be explicitly turned of by leading '-'." +:+ endl;
    "Example: -p-" +:+ endl;
    " -p                  Create padding members.                          (T)" +:+ endl;
    " -x                  Show offsets.                                    (T)" +:+ endl;
    " -m                  Create Microsoft typedefs.                       (T)" +:+ endl;
    " -b                  Allow bitfields in union.                        (F)" +:+ endl;
    " -d                  Allow unnamed data types.                        (T)" +:+ endl;
    " -i                  Use types from stdint.h instead of native types. (F)" +:+ endl;
    " -j                  Print definitions of referenced types.           (T)" +:+ endl;
    " -k                  Print header.                                    (T)" +:+ endl;
    " -n                  Print declarations.                              (T)" +:+ endl;
    " -l                  Print definitions.                               (T)" +:+ endl;
    endl ].

Fixpoint write_all (to : ostream) (texts : list string) : M unit :=
  match texts with
  | [] => ret tt
  | t :: ts => write to t ;;; write_all to ts
  end.

Definition PrintUsage : M unit := write_all cout usage.

(** ** ParseParameters *)

(** [s[i]] for a C string: past the last character stands the
    terminating NUL. *)
Definition char_at (s : string) (i : nat) : ascii :=
  default Ascii.zero (String.get i s).

(** The test that guards the loop body: the condition under which the
    source throws before it looks at the option letter. *)
Definition rejected_shape (CurrentArgument : string) : bool :=
  let CurrentArgumentLength := String.length CurrentArgument in
  (negb (CurrentArgumentLength =? 2) && negb (CurrentArgumentLength =? 3))
  || ((CurrentArgumentLength =? 2)
      && negb (Ascii.eqb (char_at CurrentArgument 0) "-"))
  || ((CurrentArgumentLength =? 3)
      && negb (Ascii.eqb (char_at CurrentArgument 0) "-")
      && negb (Ascii.eqb (char_at CurrentArgument 2) "-")).

(** An option that takes a value: it throws without one, and otherwise
    steps over it ([++ArgumentPointer]). *)
Definition with_value (NextArgument : option string) (f : string -> M unit) : M bool :=
  match NextArgument with
  | None => throw MESSAGE_INVALID_PARAMETERS
  | Some v => f v ;;; ret true
  end.

Definition assign (f : Settings -> Settings) : M bool :=
  modify (with_Settings f) ;;; ret false.

(** The inner [switch (NextArgument[0])] of [-e]. *)
Definition expansion_of (NextArgument : string) : MemberStructExpansionType.t :=
  match char_at NextArgument 0 with
  | "n"%char => MemberStructExpansionType.None
  | "i"%char => MemberStructExpansionType.InlineUnnamed
  | "a"%char => MemberStructExpansionType.InlineAll
  | _ => MemberStructExpansionType.InlineUnnamed
  end.

(** The [case] labels of the [switch] on the option letter. *)
Definition option_letters : list ascii :=
  [ "o"; "t"; "e"; "u"; "s"; "r"; "g";
    "p"; "x"; "m"; "b"; "d"; "i"; "j"; "k"; "n"; "l" ]%char.

(** One turn of the [while] loop on [CurrentArgument], with
    [NextArgument] the following element of [argv] (null after the last
    one).  The result says whether the turn stepped over [NextArgument]. *)
Definition ParseOption (CurrentArgument : string) (NextArgument : option string) : M bool :=
  if rejected_shape CurrentArgument then throw MESSAGE_INVALID_PARAMETERS
  else
    let OffSwitch :=
      (String.length CurrentArgument =? 3)
      && Ascii.eqb (char_at CurrentArgument 2) "-" in
    match char_at CurrentArgument 1 with
    | "o"%char =>
        with_value NextArgument (fun v =>
          modify (with_Settings (set_OutputFilename (Some v))) ;;;
          f <- new_ofstream v ;;
          modify (with_Settings (map_Reconstructor (set_OutputFile f))))
    | "t"%char =>
        with_value NextArgument (fun v =>
          modify (with_Settings (set_TestFilename (Some v))) ;;;
          f <- new_ofstream v ;;
          modify (with_Settings (map_Reconstructor (set_TestFile (Some f)))))
    | "e"%char =>
        with_value NextArgument (fun v =>
          modify (with_Settings
                    (map_Reconstructor (set_MemberStructExpansion (expansion_of v)))))
    | "u"%char =>
        with_value NextArgument (fun v =>
          modify (with_Settings (map_Reconstructor (set_AnonymousUnionPrefix v))))
    | "s"%char =>
        with_value NextArgument (fun v =>
          modify (with_Settings (map_Reconstructor (set_AnonymousStructPrefix v))))
    | "r"%char =>
        with_value NextArgument (fun v =>
          modify (with_Settings (map_Reconstructor (set_SymbolPrefix v))))
    | "g"%char =>
        with_value NextArgument (fun v =>
          modify (with_Settings (map_Reconstructor (set_SymbolSuffix v))))
    | "p"%char => assign (map_Reconstructor (set_CreatePaddingMembers (negb OffSwitch)))
    | "x"%char => assign (map_Reconstructor (set_ShowOffsets (negb OffSwitch)))
    | "m"%char => assign (map_Reconstructor (set_MicrosoftTypedefs (negb OffSwitch)))
    | "b"%char => assign (map_Reconstructor (set_AllowBitFieldsInUnion (negb OffSwitch)))
    | "d"%char => assign (map_Reconstructor (set_AllowAnonymousDataTypes (negb OffSwitch)))
    | "i"%char => assign (set_UseStdInt (negb OffSwitch))
    | "j"%char => assign (set_PrintReferencedTypes (negb OffSwitch))
    | "k"%char => assign (set_PrintHeader (negb OffSwitch))
    | "n"%char => assign (set_PrintDeclarations (negb OffSwitch))
    | "l"%char => assign (set_PrintDefinitions (negb OffSwitch))
    | _ => throw MESSAGE_INVALID_PARAMETERS
    end.

(** The [while (++ArgumentPointer < argc)] loop over the arguments that
    follow the path. *)
Fixpoint ParseOptions (args : list string) : M unit :=
  match args with
  | [] => ret tt
  | CurrentArgument :: rest =>
      stepped <- ParseOption CurrentArgument (head rest) ;;
      if (stepped : bool)
      then match rest with
           | [] => ret tt
           | _ :: rest' => ParseOptions rest'
           end
      else ParseOptions rest
  end.

Definition is_help (a : string) : bool :=
  String.eqb a "-h" || String.eqb a "--help".

(** [argv] holds [argc] strings and ends with a null pointer.  Without a
    program name the first read is out of bounds; with a single argument
    that asks for no help the path is built from the null pointer. *)
Definition ParseParameters (argv : list string) : M unit :=
  match argv with
  | [] => undefined
  | [_] => PrintUsage ;;; exit EXIT_SUCCESS
  | [_; a1] =>
      if is_help a1 then PrintUsage ;;; exit EXIT_SUCCESS
      else modify (with_Settings (set_SymbolName a1)) ;;; undefined
  | _ :: a1 :: a2 :: args =>
      modify (with_Settings (set_SymbolName a1)) ;;;
      modify (with_Settings (set_PdbPath a2)) ;;;
      ParseOptions args ;;;
      modify (with_SymbolSorter (Some Sorter_make))
  end.

(** ** Opening the file, headers and footers *)

Definition OpenPDBFile : M unit :=
  s <- settings ;;
  match PDB_Open (PdbPath s) with
  | None => throw MESSAGE_FILE_NOT_FOUND
  | Some p => modify (with_PDB p)
  end.

(** [sprintf_s] into a buffer of 16 KiB: text that does not fit ends the
    process in the runtime's handler, which is outside what is modelled. *)
Definition sprintf_s (text : string) : M string :=
  if String.length text <? 16 * 1024 then ret text else undefined.

(** [%s] given a null pointer prints [(null)] with the runtime the
    sources are written for. *)
Definition TEST_FILE_HEADER (name : option string) : string :=
  "#include <stdio.h>" +:+ endl +:+
  "#include <stddef.h>" +:+ endl +:+
  "#include <stdint.h>" +:+ endl +:+
  endl +:+
  "#include " +:+ dquote +:+ default "(null)" name +:+ dquote +:+ endl +:+
  endl +:+
  "int main()" +:+ endl +:+
  "{" +:+ endl.

Definition TEST_FILE_FOOTER : string :=
  endl +:+ tab +:+ "return 0;" +:+ endl +:+ "}" +:+ endl +:+ endl.

Definition HEADER_FILE_HEADER (path arch : string) : string :=
  "/*" +:+ endl +:+
  " * PDB file: " +:+ path +:+ endl +:+
  " * Image architecture: " +:+ arch +:+ endl +:+
  " *" +:+ endl +:+
  " * Dumped by pdbex tool v" +:+ PDBEX_VERSION_STRING +:+ ", by wbenny" +:+ endl +:+
  " */" +:+ endl +:+ endl.

Definition PrintTestHeader : M unit :=
  s <- settings ;;
  match TestFile (PdbHeaderReconstructorSettings s) with
  | None => ret tt
  | Some f =>
      text <- sprintf_s (TEST_FILE_HEADER (OutputFilename s)) ;;
      write f text
  end.

Definition PrintTestFooter : M unit :=
  s <- settings ;;
  match TestFile (PdbHeaderReconstructorSettings s) with
  | None => ret tt
  | Some f => write f TEST_FILE_FOOTER
  end.

(** The loop of [GetArchitecture]: visit, and at the first symbol after
    which the sorter knows the architecture, keep it, clear the sorter
    and leave the loop. *)
Fixpoint GetArchitecture_loop (es : list (N * SymPtr)) : M unit :=
  match es with
  | [] => ret tt
  | e :: es' =>
      SymbolSorter_Visit e.2 ;;;
      s <- the_sorter ;;
      if decide (Sorter_GetImageArchitecture s = ArchNone)
      then GetArchitecture_loop es'
      else
        modify (with_Architecture (Sorter_GetImageArchitecture s)) ;;;
        modify (with_SymbolSorter (Some (Sorter_Clear s)))
  end.

Definition GetArchitecture : M unit :=
  p <- the_PDB ;;
  GetArchitecture_loop (GetSymbolMap p).

Definition ArchictureStrings (a : ImageArchitecture) : string :=
  match a with
  | ArchNone => "None"
  | ArchX86 => "x86"
  | ArchX64 => "x64"
  end.

Definition PrintPDBHeader : M unit :=
  s <- settings ;;
  if PrintHeader s
  then
    GetArchitecture ;;;
    w <- get ;;
    text <- sprintf_s (HEADER_FILE_HEADER (PdbPath s)
                         (ArchictureStrings (m_Architecture w))) ;;
    write (OutputFile (PdbHeaderReconstructorSettings s)) text
  else ret tt.

(** ** Declarations and definitions *)

(** The condition of the [if] in the loop of [PrintPDBDeclarations]. *)
Definition is_named_udt (sym : SYMBOL) : bool :=
  bool_decide (Tag sym = SymTagUDT) && negb (IsUnnamedSymbol sym).

(** The line the loop writes for [e]: kind, a space, the corrected name,
    a semicolon, the end of the line. *)
Definition declaration_line (r : PDBHeaderReconstructor_Settings) (sym : SYMBOL)
    : option string :=
  match UserData_Kind sym with
  | Some Kind =>
      Some (GetUdtKindString Kind +:+ " " +:+ GetCorrectedSymbolName r sym +:+ ";" +:+ endl)
  | None => None
  end.

Fixpoint PrintPDBDeclarations_loop (es : list SymPtr) : M unit :=
  match es with
  | [] => ret tt
  | e :: es' =>
      sym <- deref e ;;
      s <- settings ;;
      (if is_named_udt sym
       then match declaration_line (PdbHeaderReconstructorSettings s) sym with
            | Some line => write (OutputFile (PdbHeaderReconstructorSettings s)) line
            | None => undefined
            end
       else ret tt) ;;;
      PrintPDBDeclarations_loop es'
  end.

Definition PrintPDBDeclarations : M unit :=
  s <- settings ;;
  if PrintDeclarations s
  then
    sorter <- the_sorter ;;
    PrintPDBDeclarations_loop (Sorter_GetSortedSymbols sorter) ;;;
    write (OutputFile (PdbHeaderReconstructorSettings s)) endl
  else ret tt.

(** The value of [Expand] for [e].  The conjunction is evaluated from the
    left, so the symbol is read only under [InlineUnnamed]. *)
Definition Expand (e : SymPtr) : M bool :=
  s <- settings ;;
  if decide (MemberStructExpansion (PdbHeaderReconstructorSettings s)
             = MemberStructExpansionType.InlineUnnamed)
  then
    sym <- deref e ;;
    ret (negb ((bool_decide (Tag sym = SymTagEnum) || bool_decide (Tag sym = SymTagUDT))
               && IsUnnamedSymbol sym))
  else ret true.

Fixpoint PrintPDBDefinitions_loop (es : list SymPtr) : M unit :=
  match es with
  | [] => ret tt
  | e :: es' =>
      expand <- Expand e ;;
      (if (expand : bool) then SymbolVisitor_Run e else ret tt) ;;;
      PrintPDBDefinitions_loop es'
  end.

Definition PrintPDBDefinitions : M unit :=
  s <- settings ;;
  if PrintDefinitions s
  then
    sorter <- the_sorter ;;
    PrintPDBDefinitions_loop (Sorter_GetSortedSymbols sorter)
  else ret tt.

Fixpoint visit_all (es : list (N * SymPtr)) : M unit :=
  match es with
  | [] => ret tt
  | e :: es' => SymbolSorter_Visit e.2 ;;; visit_all es'
  end.

Definition DumpAllSymbols : M unit :=
  PrintPDBHeader ;;;
  p <- the_PDB ;;
  visit_all (GetSymbolMap p) ;;;
  PrintPDBDeclarations ;;;
  PrintPDBDefinitions.

Definition DumpOneSymbol : M unit :=
  p <- the_PDB ;;
  s <- settings ;;
  match GetSymbolByName p (SymbolName s) with
  | None => throw MESSAGE_SYMBOL_NOT_FOUND
  | Some Symbol =>
      PrintPDBHeader ;;;
      if PrintReferencedTypes s
         && negb (bool_decide (MemberStructExpansion (PdbHeaderReconstructorSettings s)
                               = MemberStructExpansionType.InlineAll))
      then SymbolSorter_Visit Symbol ;;; PrintPDBDefinitions
      else SymbolVisitor_Run Symbol
  end.

Definition CloseOpenedFiles : M unit :=
  s <- settings ;;
  match TestFilename s with
  | Some _ => delete (TestFile (PdbHeaderReconstructorSettings s))
  | None => ret tt
  end ;;;
  match OutputFilename s with
  | Some _ => delete (Some (OutputFile (PdbHeaderReconstructorSettings s)))
  | None => ret tt
  end.

(** ** Run *)

(** The body of the [try] block. *)
Definition Run_try (argv : list string) : M unit :=
  ParseParameters argv ;;;
  OpenPDBFile ;;;
  PrintTestHeader ;;;
  s <- settings ;;
  (if String.eqb (SymbolName s) "*" then DumpAllSymbols else DumpOneSymbol) ;;;
  PrintTestFooter.

(** [Run]: a [PDBDumperException] is caught, its message goes to the
    error stream on a line of its own and the result is [EXIT_FAILURE];
    the files are closed either way.  [exit] and undefined behaviour are
    not caught. *)
Definition Run (argv : list string) : M Z :=
  fun w =>
    match Run_try argv w with
    | (Ok _, w') => (CloseOpenedFiles ;;; ret ERROR_SUCCESS) w'
    | (Throw what, w') =>
        (write cerr (what +:+ endl) ;;; CloseOpenedFiles ;;; ret EXIT_FAILURE) w'
    | (Exit status, w') => (Exit status, w')
    | (Undefined, w') => (Undefined, w')
    end.

(** The state in which [Run] finds a newly made [PDBExtractor] with the
    settings [s]: no file open, the three [unique_ptr] members null, no
    stream made, nothing printed. *)
Definition start (s : Settings) : World :=
  {| m_Settings := s; m_PDB := None; m_SymbolSorter := None;
     m_Architecture := ArchNone; streams := ∅; next_stream := 0;
     memory := ∅; trace := [] |}.

(** The two file names and the two stream pointers go together: a name
    that is set comes with a stream made by [new].  [ParseParameters]
    keeps it so, and [CloseOpenedFiles] relies on it. *)
Definition files_consistent (w : World) : bool :=
  let s := m_Settings w in
  match OutputFilename s with
  | Some _ =>
      match OutputFile (PdbHeaderReconstructorSettings s) with
      | ofstream _ => true
      | _ => false
      end
  | None => true
  end
  && match TestFilename s with
     | Some _ =>
         match TestFile (PdbHeaderReconstructorSettings s) with
         | Some (ofstream _) => true
         | _ => false
         end
     | None => true
     end.

(** ** Reading a trace *)

(** The text a run has sent to one stream, in order. *)
Definition written (to : ostream) (t : list event) : list string :=
  omap (fun e => match e with
                 | Write o text => if decide (o = to) then Some text else None
                 | RunVisitor _ => None
                 end) t.

(** The symbols whose definition the run has asked the visitor for. *)
Definition defined (t : list event) : list SymPtr :=
  omap (fun e => match e with
                 | RunVisitor p => Some p
                 | Write _ _ => None
                 end) t.

Definition is_write (e : event) : bool :=
  match e with
  | Write _ _ => true
  | RunVisitor _ => false
  end.

(** [w] after the events [es]. *)
Definition emits (es : list event) (w : World) : World :=
  {| m_Settings := m_Settings w; m_PDB := m_PDB w;
     m_SymbolSorter := m_SymbolSorter w; m_Architecture := m_Architecture w;
     streams := streams w; next_stream := next_stream w;
     memory := memory w; trace := trace w ++ es |}.

(** Every pointer of [es] points to a symbol. *)
Definition all_mapped (mem : gmap positive SYMBOL) (es : list SymPtr) : bool :=
  forallb (fun e => match mem !! e with Some _ => true | None => false end) es.

(** The forward declaration [PrintPDBDeclarations] writes for [e], if it
    writes one. *)
Definition declaration_of (w : World) (e : SymPtr) : option string :=
  match memory w !! e with
  | Some sym =>
      if is_named_udt sym
      then declaration_line (PdbHeaderReconstructorSettings (m_Settings w)) sym
      else None
  | None => None
  end.

(** The definitions [defs] come in the order of the sorter of [w]: they
    are taken from its sorted symbols, left to right. *)
Definition in_sorted_order (w : World) (defs : list SymPtr) : Prop :=
  defs = []
  \/ exists sorter, m_SymbolSorter w = Some sorter
                    /\ defs `sublist_of` Sorter_GetSortedSymbols sorter.

(** From [w] to [w'] text was written and no definition was asked for. *)
Definition only_writes (w w' : World) : Prop :=
  exists ws, trace w' = trace w ++ ws /\ forallb is_write ws = true.

(** Writes, then definitions in the order of the sorter. *)
Definition writes_then_definitions (w w' : World) : Prop :=
  exists ws defs,
    trace w' = trace w ++ ws ++ map RunVisitor defs
    /\ forallb is_write ws = true
    /\ in_sorted_order w' defs.

(** Every live stream is one of the two the settings point to. *)
Definition no_stray_stream (w : World) : Prop :=
  forall h name,
    streams w !! h = Some name ->
    (OutputFilename (m_Settings w) <> None
     /\ OutputFile (PdbHeaderReconstructorSettings (m_Settings w)) = ofstream h)
    \/ (TestFilename (m_Settings w) <> None
        /\ TestFile (PdbHeaderReconstructorSettings (m_Settings w)) = Some (ofstream h)).

(** What [PrintTestHeader] writes. *)
Definition test_header_events (w : World) : list event :=
  match TestFile (PdbHeaderReconstructorSettings (m_Settings w)) with
  | Some f => [Write f (TEST_FILE_HEADER (OutputFilename (m_Settings w)))]
  | None => []
  end.

End Driver.

End Extractor.

(* ===================================================================== *)
(** * Sample data *)
(* ===================================================================== *)

Module Examples.

(** A small symbol memory: [int], [int[0]], [int[8]], a pointer to a
    function, the function, a named struct, an enum and an unnamed
    union. *)
Definition sample_memory : gmap positive SYMBOL :=
  list_to_map
    [ (1%positive, {| Size := 4; Name := Some "int"; u := BaseType 6 |});
      (2%positive, {| Size := 0; Name := None; u := Array 1 0 |});
      (3%positive, {| Size := 32; Name := None; u := Array 1 8 |});
      (4%positive, {| Size := 8; Name := None; u := Pointer 5 |});
      (5%positive, {| Size := 0; Name := None; u := Function 1 [1%positive] |});
      (6%positive, {| Size := 12; Name := Some "_POINT";
                      u := UserData UdtStruct
                             [ {| FieldName := "Data"; FieldType := 2; Offset := 0;
                                  Bits := 0; BitPosition := 0 |} ] |});
      (7%positive, {| Size := 4; Name := Some "_COLOR"; u := Enum [("Red", 0%N)] |});
      (8%positive, {| Size := 4; Name := Some "<unnamed-tag>";
                      u := UserData UdtUnion [] |}) ].

(** A spelling of the basic types, enough to run the printer. *)
Definition sample_GetBasicTypeString (s : SYMBOL) (UseStdInt : bool) : string :=
  match u s with
  | BaseType 6 =>
      if UseStdInt
      then (if (Size s =? 8)%N then "int64_t" else "int32_t")
      else (if (Size s =? 8)%N then "__int64" else "int")
  | _ => "<unknown>"
  end.

(** A sorter to run the driver with: the symbols a symbol depends on go
    first, each symbol once; a pointer of four or eight bytes tells the
    architecture. *)
Definition sample_Sorter : Type := list SymPtr * Extractor.ImageArchitecture.

Definition sample_place (p : SymPtr) (st : sample_Sorter) : sample_Sorter :=
  if bool_decide (p ∈ st.1) then st else (st.1 ++ [p], st.2).

Definition sample_pointer_width (sym : SYMBOL) (st : sample_Sorter) : sample_Sorter :=
  match st.2 with
  | Extractor.ArchNone =>
      (st.1, if (Size sym =? 4)%N then Extractor.ArchX86
             else if (Size sym =? 8)%N then Extractor.ArchX64
             else Extractor.ArchNone)
  | _ => st
  end.

Fixpoint sample_Visit_go (fuel : nat) (mem : gmap positive SYMBOL) (p : SymPtr)
    (st : sample_Sorter) : sample_Sorter :=
  match fuel with
  | O => st
  | S fuel' =>
      if bool_decide (p ∈ st.1) then st
      else
        match mem !! p with
        | None => st
        | Some sym =>
            sample_place p
              match u sym with
              | Pointer q => sample_pointer_width sym (sample_Visit_go fuel' mem q st)
              | Array q _ => sample_Visit_go fuel' mem q st
              | Typedef q => sample_Visit_go fuel' mem q st
              | UserData _ fields =>
                  foldl (fun acc f => sample_Visit_go fuel' mem (FieldType f) acc) st fields
              | _ => st
              end
        end
  end.

Definition sample_Visit (p : SymPtr) (mem : gmap positive SYMBOL)
    (st : sample_Sorter) : sample_Sorter :=
  sample_Visit_go 16 mem p st.

Definition sample_Clear (st : sample_Sorter) : sample_Sorter := ([], st.2).

Definition sample_PDB : Extractor.PDBFile :=
  {| Extractor.GetSymbolMap := [(1%N, 6%positive); (2%N, 7%positive); (3%N, 8%positive)];
     Extractor.GetSymbolByName := fun name =>
       if String.eqb name "_POINT" then Some 6%positive
       else if String.eqb name "_COLOR" then Some 7%positive
       else None;
     Extractor.Symbols := sample_memory |}.

Definition sample_Open (path : string) : option Extractor.PDBFile :=
  if String.eqb path "sample.pdb" then Some sample_PDB else None.

Definition sample_IsUnnamedSymbol (sym : SYMBOL) : bool :=
  match Name sym with
  | None => true
  | Some n => String.prefix "<unnamed" n
  end.

Definition sample_GetUdtKindString (k : UdtKind) : string :=
  match k with
  | UdtStruct => "struct"
  | UdtClass => "class"
  | UdtUnion => "union"
  end.

Definition sample_GetCorrectedSymbolName
    (r : Extractor.PDBHeaderReconstructor_Settings) (sym : SYMBOL) : string :=
  Extractor.SymbolPrefix r +:+ default "" (Name sym) +:+ Extractor.SymbolSuffix r.

(** What the visitor leaves behind in the memory: for a user-defined
    type, the printer's correction of each member that is a zero-length
    array. *)
Definition sample_Visitor_Run (s : Extractor.Settings) (p : SymPtr)
    (mem : gmap positive SYMBOL) : gmap positive SYMBOL :=
  match mem !! p with
  | Some {| u := UserData _ fields |} =>
      foldl (fun m f =>
               match FieldDefinition.VisitArrayTypeEnd (FieldType f)
                       (FieldDefinition.fresh (Extractor.UserDataFieldDefinitionSettings s), m) with
               | Some (_, m') => m'
               | None => m
               end) mem fields
  | _ => mem
  end.

Definition sample : Extractor.Collaborators :=
  {| Extractor.Sorter := sample_Sorter;
     Extractor.Sorter_make := ([], Extractor.ArchNone);
     Extractor.Sorter_Visit := sample_Visit;
     Extractor.Sorter_GetSortedSymbols := fst;
     Extractor.Sorter_GetImageArchitecture := snd;
     Extractor.Sorter_Clear := sample_Clear;
     Extractor.PDB_Open := sample_Open;
     Extractor.IsUnnamedSymbol := sample_IsUnnamedSymbol;
     Extractor.GetUdtKindString := sample_GetUdtKindString;
     Extractor.GetCorrectedSymbolName := sample_GetCorrectedSymbolName;
     Extractor.Visitor_Run := sample_Visitor_Run;
     Extractor.PDBEX_VERSION_STRING := "0.18" |}.

(** A newly made extractor with the default settings. *)
Definition sample_start : @Extractor.World sample :=
  Extractor.start (Extractor.DefaultSettings "" "" "" "").

(** [Run] with the sample collaborators, from the default settings. *)
Definition sample_Run (argv : list string) : Extractor.outcome Z * @Extractor.World sample :=
  Extractor.Run argv sample_start.

(** The state in which a dump starts: the arguments parsed, the file
    open. *)
Definition sample_opened (argv : list string) : @Extractor.World sample :=
  (Extractor.bind (Extractor.ParseParameters argv)
     (fun _ => Extractor.OpenPDBFile) sample_start).2.

(** The state in which the all-symbols dump prints the declarations: the
    header printed, every symbol of the map visited by the sorter. *)
Definition sample_sorted (argv : list string) : @Extractor.World sample :=
  (Extractor.bind Extractor.PrintPDBHeader
     (fun _ => Extractor.bind Extractor.the_PDB
                 (fun p => Extractor.visit_all (Extractor.GetSymbolMap p)))
     (sample_opened argv)).2.

End Examples.

(* ===================================================================== *)
(** * Further notions used to state what the code keeps *)
(* ===================================================================== *)

Module More.

Import FieldDefinition.

(** The callbacks other than [SetMemberName]. *)
Definition is_visit (c : Callback) : bool :=
  match c with
  | CallSetMemberName _ => false
  | _ => true
  end.

(** [VisitArrayTypeEnd] is among the calls [cs] with the symbol [p]. *)
Definition array_end_called (p : SymPtr) (cs : list Callback) : bool :=
  existsb (fun c => match c with
                    | CallVisitArrayTypeEnd q => bool_decide (q = p)
                    | _ => false
                    end) cs.

(** The sample memory with a second array of eight elements. *)
Definition sample_memory_two_arrays : gmap positive SYMBOL :=
  <[9%positive := {| Size := 64; Name := None; u := Array 4 8 |}]> Examples.sample_memory.

Import Extractor.

(** The option letters that take a value, and those that are switches. *)
Definition value_letters : list ascii := [ "o"; "t"; "e"; "u"; "s"; "r"; "g" ]%char.

Definition switch_letters : list ascii :=
  [ "p"; "x"; "m"; "b"; "d"; "i"; "j"; "k"; "n"; "l" ]%char.

(** The three messages the driver throws. *)
Definition messages : list string :=
  [ MESSAGE_INVALID_PARAMETERS; MESSAGE_FILE_NOT_FOUND; MESSAGE_SYMBOL_NOT_FOUND ].

Section Driver.

Context `{Collaborators}.

(** The allocation counter is above every live stream. *)
Definition streams_fresh (w : World) : Prop :=
  forall h, is_Some (streams w !! h) -> h < next_stream w.

(** What [ParseParameters] leaves alone, and how it moves the streams:
    nothing is printed, the symbols, the file, the sorter and the
    architecture stay, and the allocation counter does not go down. *)
Definition parse_keeps (w w' : World) : Prop :=
  trace w' = trace w
  /\ memory w' = memory w
  /\ m_PDB w' = m_PDB w
  /\ m_Architecture w' = m_Architecture w
  /\ next_stream w <= next_stream w'
  /\ (streams_fresh w -> streams_fresh w' /\ streams w ⊆ streams w').

(** The sorter after [Visit] on each symbol of [es], in order. *)
Definition visits (es : list (N * SymPtr)) (mem : gmap positive SYMBOL) (s : Sorter)
    : Sorter :=
  foldl (fun s e => Sorter_Visit e.2 mem s) s es.

(** The state after [m_SymbolVisitor->Run] on each symbol of [es], in
    order. *)
Definition runs (es : list SymPtr) (w : World) : World :=
  foldl (fun w e => with_memory (Visitor_Run (m_Settings w) e) (emit (RunVisitor e) w))
    w es.

(** The [try] block of [Run] after [ParseParameters]. *)
Definition Run_after_parse : M unit :=
  bind OpenPDBFile (fun _ =>
  bind PrintTestHeader (fun _ =>
  bind settings (fun s =>
  bind (if String.eqb (SymbolName s) "*" then DumpAllSymbols else DumpOneSymbol) (fun _ =>
  PrintTestFooter)))).

(** From [w] to [w'] the settings are the same and no stream was made or
    ended. *)
Definition same_settings_and_streams (w w' : World) : Prop :=
  m_Settings w' = m_Settings w
  /\ streams w' = streams w
  /\ next_stream w' = next_stream w.

(** What the header leaves alone: the settings, the opened file, the
    symbols and the streams (it may print, and [GetArchitecture] may
    change the sorter and the architecture). *)
Definition header_keeps (w w' : World) : Prop :=
  m_Settings w' = m_Settings w
  /\ m_PDB w' = m_PDB w
  /\ memory w' = memory w
  /\ streams w' = streams w
  /\ next_stream w' = next_stream w.

(** The symbol memory after the visitor has run on each symbol of [es],
    in order, with the settings [s]. *)
Definition corrected (s : Settings) (es : list SymPtr) (mem : gmap positive SYMBOL)
    : gmap positive SYMBOL :=
  foldl (fun m e => Visitor_Run s e m) mem es.

(** The condition under which the loop of [PrintPDBDefinitions] leaves a
    symbol to be printed where it is used: an enum or a user-defined
    type that is unnamed. *)
Definition is_inlined (sym : SYMBOL) : bool :=
  (bool_decide (Tag sym = SymTagEnum) || bool_decide (Tag sym = SymTagUDT))
  && IsUnnamedSymbol sym.

(** The value of [Expand] for [e] in [w], for a symbol that is there. *)
Definition expanded (w : World) (e : SymPtr) : bool :=
  if decide (MemberStructExpansion (PdbHeaderReconstructorSettings (m_Settings w))
             = MemberStructExpansionType.InlineUnnamed)
  then match memory w !! e with
       | Some sym => negb (is_inlined sym)
       | None => true
       end
  else true.

(** The events of [PrintPDBDeclarations] in [w] for the sorted symbols
    [es]: a line for each symbol that has a declaration, then an empty
    line; nothing with the declarations switched off. *)
Definition declarations (w : World) (es : list SymPtr) : list event :=
  let out := OutputFile (PdbHeaderReconstructorSettings (m_Settings w)) in
  if PrintDeclarations (m_Settings w)
  then map (Write out) (omap (declaration_of w) es) ++ [Write out endl]
  else [].

(** The symbols of [es] that [PrintPDBDefinitions] has defined in [w]:
    those for which [Expand] holds, in the order of [es]; none with the
    definitions switched off. *)
Definition definitions (w : World) (es : list SymPtr) : list SymPtr :=
  if PrintDefinitions (m_Settings w) then List.filter (expanded w) es else [].

(** The only thing the visitor does to the symbols is the correction of
    the printer: the size of a zero-length array becomes 1. *)
Definition visitor_only_corrects (s : Settings) : Prop :=
  forall e mem, fixed_from mem (Visitor_Run s e mem).

(** The state after a dump that began in [w]: [w1] is the state the
    header left, [sorter] the sorter after its visits, [decls] the
    declarations written and [defs] the symbols defined, in order. *)
Definition dumped (w w1 : World) (sorter : Sorter) (decls : list event)
    (defs : list SymPtr) : World :=
  with_memory (fun _ => corrected (m_Settings w) defs (memory w))
    (emits (decls ++ map RunVisitor defs) (with_SymbolSorter (Some sorter) w1)).

(** [m] throws nothing. *)
Definition never_throws {A} (m : M A) : Prop :=
  forall w what w', m w <> (Throw what, w').

(** When [m] throws, it throws one of the three messages, and before any
    definition was asked for. *)
Definition throws_early {A} (m : M A) : Prop :=
  forall w what w', m w = (Throw what, w') -> In what messages /\ only_writes w w'.

End Driver.

End More.

(* ===================================================================== *)
(** * The visitor, the header reconstructor and the sorter *)
(* ===================================================================== *)

(** PDBSymbolVisitor.h, PDBHeaderReconstructor.h and PDBSymbolSorter.h are
    not among the sources.  What the driver calls in them is modelled
    here from the specification: the walk of the symbol visitor (4.3),
    the layout of the header reconstructor (4.5) and the traversal of
    the symbol sorter (4.4).  The printer they drive is the one of the
    sources. *)
Module Reconstruction.

Import FieldDefinition.

(** Modelled from the spec: the spellings that 4.5 leaves to the output
    ("named deterministically", the optional rendering features of
    step 7).  Each takes what the specification lets the text depend
    on: a padding field its number, offset and size; the line of a
    member the member's descriptor and the text of the printer; the
    head and the foot of a definition whether it is nested, its kind
    and its name; a reference the tag, the kind and the name. *)
Record Dialect := {
  padding_field : N -> N -> N -> string;
  member_field : Extractor.PDBHeaderReconstructor_Settings ->
                 SYMBOL_UDT_FIELD -> string -> string;
  aggregate_begin : Extractor.PDBHeaderReconstructor_Settings ->
                    bool -> UdtKind -> option string -> string;
  aggregate_end : Extractor.PDBHeaderReconstructor_Settings ->
                  bool -> UdtKind -> option string -> string;
  enum_definition : Extractor.PDBHeaderReconstructor_Settings ->
                    bool -> option string -> list (string * N) -> string;
  type_reference : SymTag -> option UdtKind -> string -> string
}.

(** Modelled from the spec: the two counters of 4.5, the one that names
    the padding fields (step 2) and the one that tells the synthetic
    names apart (step 5). *)
Record Counters := {
  padding_number   : N;
  anonymous_number : N
}.

(** Modelled from the spec: the counters of the header reconstructor
    (4.5) at the start of a reconstruction, and their increments. *)
Definition no_counters : Counters := {| padding_number := 0; anonymous_number := 0 |}.

Definition next_padding (c : Counters) : Counters :=
  {| padding_number := padding_number c + 1; anonymous_number := anonymous_number c |}.

Definition next_anonymous (c : Counters) : Counters :=
  {| padding_number := padding_number c; anonymous_number := anonymous_number c + 1 |}.

(** Modelled from the spec: what the header reconstructor (4.5) works
    on, the symbols and its counters. *)
Definition RState : Type := Memory * Counters.

(** Modelled from the spec: step 1 of 4.5, the members by ascending
    offset, ties in their original order. *)
Fixpoint insert_member (f : SYMBOL_UDT_FIELD) (ms : list SYMBOL_UDT_FIELD)
    : list SYMBOL_UDT_FIELD :=
  match ms with
  | [] => [f]
  | g :: ms' =>
      if (Offset f <? Offset g)%N then f :: g :: ms' else g :: insert_member f ms'
  end.

Definition sort_members (Fields : list SYMBOL_UDT_FIELD) : list SYMBOL_UDT_FIELD :=
  foldl (fun sorted f => insert_member f sorted) [] Fields.

(** Modelled from the spec: the symbol a type chain resolves to (4.3):
    the walk goes through the pointers and the arrays down to the base
    or aggregate type. *)
Fixpoint chain_base (fuel : nat) (mem : Memory) (Symbol : SymPtr) : option SymPtr :=
  match fuel with
  | O => None
  | S fuel' =>
      match mem !! Symbol with
      | None => None
      | Some sym =>
          match u sym with
          | Pointer Type_ => chain_base fuel' mem Type_
          | Array ElementType _ => chain_base fuel' mem ElementType
          | _ => Some Symbol
          end
      end
  end.

(** Modelled from the spec: step 2 of 4.5, bitfields that share a byte
    range: [f] and the member after it carry a bit length and stand at
    the same offset, so the member after it belongs to the storage unit
    of [f]. *)
Definition same_unit (f : SYMBOL_UDT_FIELD) (rest : list SYMBOL_UDT_FIELD) : bool :=
  negb (Bits f =? 0)%N
  && match rest with
     | g :: _ => negb (Bits g =? 0)%N && (Offset g =? Offset f)%N
     | [] => false
     end.

Section Reconstructor.

(** [PDB::GetBasicTypeString] and [PDB::IsUnnamedSymbol] belong to the
    reader of the symbols (PDB.h). *)
Variable GetBasicTypeString : SYMBOL -> bool -> string.
Variable IsUnnamedSymbol : SYMBOL -> bool.
Variable dialect : Dialect.

(** The settings of the run. *)
Variable s : Extractor.Settings.

Definition reconstructor_settings : Extractor.PDBHeaderReconstructor_Settings :=
  Extractor.PdbHeaderReconstructorSettings s.

(** Modelled from the spec: step 4 of 4.5, whether a nested aggregate or
    enum is printed where it is used. *)
Definition inlined (sym : SYMBOL) : bool :=
  match Extractor.MemberStructExpansion reconstructor_settings with
  | Extractor.MemberStructExpansionType.None => false
  | Extractor.MemberStructExpansionType.InlineUnnamed => IsUnnamedSymbol sym
  | Extractor.MemberStructExpansionType.InlineAll => true
  end.

(** Modelled from the spec: steps 5 and 6 of 4.5, the name under which a
    type is declared on its own or referred to: an unnamed one gets a
    prefix (the union's for a union, the struct's otherwise) and the
    counter; a named one the global prefix and suffix. *)
Definition type_name (sym : SYMBOL) (c : Counters) : string * Counters :=
  if IsUnnamedSymbol sym
  then ((match UserData_Kind sym with
         | Some UdtUnion => Extractor.AnonymousUnionPrefix reconstructor_settings
         | _ => Extractor.AnonymousStructPrefix reconstructor_settings
         end) +:+ to_string (anonymous_number c),
        next_anonymous c)
  else (Extractor.SymbolPrefix reconstructor_settings
          +:+ default "" (Name sym)
          +:+ Extractor.SymbolSuffix reconstructor_settings,
        c).

(** Modelled from the spec: the name in the head of a definition of the
    header reconstructor (4.5, steps 4 to 6): a type defined on its own
    has the name of [type_name]; one printed where it is used has its
    own name, if it has one. *)
Definition definition_name (top : bool) (sym : SYMBOL) (c : Counters)
    : option string * Counters :=
  if top
  then (Some (type_name sym c).1, (type_name sym c).2)
  else (if IsUnnamedSymbol sym then None else Name sym, c).

(** Modelled from the spec: step 2 of 4.5, the padding from the cursor
    up to an offset that lies beyond it (and step 3, up to the declared
    size). *)
Definition padding (cursor to : N) (c : Counters) : list string * Counters :=
  if (cursor <? to)%N
  then if Extractor.CreatePaddingMembers reconstructor_settings
       then ([padding_field dialect (padding_number c) cursor (to - cursor)],
             next_padding c)
       else ([], c)
  else ([], c).

(** Modelled from the spec: the failure of 4.5, a union with bitfields
    while bitfields in unions are not allowed. *)
Definition union_bitfield_violation (Kind : UdtKind) (Fields : list SYMBOL_UDT_FIELD)
    : bool :=
  bool_decide (Kind = UdtUnion)
  && negb (Extractor.AllowBitFieldsInUnion reconstructor_settings)
  && existsb (fun f => negb (Bits f =? 0)%N) Fields.

(** Modelled from the spec: the symbol visitor on one symbol (4.3).  It
    makes the calls of the type chain on a fresh printer (and [naming],
    the call that sets the name of a member); if the chain resolves to
    a user-defined type or an enum it has the header reconstructor
    print the definition there ([expand]) or refers to the type by
    name, by the expansion policy; the outermost symbol is always
    expanded.  The result is the text of the type, the text of the
    printer, and the size of the symbol as it is after the visit. *)
Definition visit
    (expand : bool -> SymPtr -> RState -> option (list string * RState))
    (fuel : nat) (top : bool) (Symbol : SymPtr) (naming : list Callback)
    (st : RState) : option ((list string * string * N) * RState) :=
  let '(mem, c) := st in
  match chain_calls fuel mem Symbol with
  | None => None
  | Some cs =>
      match calls GetBasicTypeString (cs ++ naming)
              (fresh (Extractor.UserDataFieldDefinitionSettings s), mem) with
      | None => None
      | Some (d, mem1) =>
          match chain_base fuel mem1 Symbol with
          | None => None
          | Some base =>
              match mem1 !! base with
              | None => None
              | Some bsym =>
                  match
                    match u bsym with
                    | UserData _ _ | Enum _ =>
                        if top || inlined bsym
                        then expand top base (mem1, c)
                        else Some ([type_reference dialect (Tag bsym) (UserData_Kind bsym)
                                      (type_name bsym c).1],
                                   (mem1, (type_name bsym c).2))
                    | Typedef _ =>
                        Some ([type_reference dialect SymTagTypedef None
                                 (default "" (Name bsym))],
                              (mem1, c))
                    | _ => Some ([], (mem1, c))
                    end
                  with
                  | None => None
                  | Some (type_text, (mem2, c2)) =>
                      match mem2 !! Symbol with
                      | None => None
                      | Some sym =>
                          Some ((type_text, GetPrintableDefinition d, Size sym),
                                (mem2, c2))
                      end
                  end
              end
          end
      end
  end.

(** Modelled from the spec: step 2 of 4.5, the walk over the sorted
    members with the cursor.  Before a member that lies beyond the
    cursor comes a padding field, and the cursor moves to the member;
    the member is printed through the visitor; the cursor then moves on
    by the size of the member, unless the next member belongs to the
    same storage unit. *)
Fixpoint walk
    (visit_member : SYMBOL_UDT_FIELD -> RState ->
                    option ((list string * string * N) * RState))
    (members : list SYMBOL_UDT_FIELD) (cursor : N) (st : RState)
    : option ((list string * N) * RState) :=
  match members with
  | [] => Some (([], cursor), st)
  | f :: rest =>
      let '(mem, c) := st in
      let pad := padding cursor (Offset f) c in
      match visit_member f (mem, pad.2) with
      | None => None
      | Some ((type_text, declarator, size), st1) =>
          let cursor1 := N.max cursor (Offset f) in
          let cursor2 := if same_unit f rest then cursor1 else (cursor1 + size)%N in
          match walk visit_member rest cursor2 st1 with
          | None => None
          | Some ((body, cursor3), st2) =>
              Some ((pad.1 ++ type_text
                       ++ [member_field dialect reconstructor_settings f declarator]
                       ++ body,
                     cursor3),
                    st2)
          end
      end
  end.

(** Modelled from the spec: the header reconstructor on one symbol
    (4.5): the members sorted, the walk, the padding up to the declared
    size; an enum has its definition; anything else has none.  There is
    no text when the union breaks the bitfield rule (the fatal error of
    4.5), when a symbol is missing, or when [fuel] does not reach the
    end of the nesting. *)
Fixpoint definition (fuel : nat) (top : bool) (Symbol : SymPtr) (st : RState)
    : option (list string * RState) :=
  match fuel with
  | O => None
  | S fuel' =>
      let '(mem, c) := st in
      match mem !! Symbol with
      | None => None
      | Some sym =>
          let name := definition_name top sym c in
          match u sym with
          | UserData Kind Fields =>
              if union_bitfield_violation Kind Fields then None
              else
                match walk (fun f => visit (definition fuel') fuel' false (FieldType f)
                                       [CallSetMemberName (Some (FieldName f))])
                        (sort_members Fields) 0 (mem, name.2) with
                | None => None
                | Some ((body, cursor), (mem1, c1)) =>
                    let trailing := padding cursor (Size sym) c1 in
                    Some ([aggregate_begin dialect reconstructor_settings
                             (negb top) Kind name.1]
                            ++ body ++ trailing.1
                            ++ [aggregate_end dialect reconstructor_settings
                                  (negb top) Kind name.1],
                          (mem1, trailing.2))
                end
          | Enum Values =>
              Some ([enum_definition dialect reconstructor_settings
                       (negb top) name.1 Values],
                    (mem, name.2))
          | _ => None
          end
      end
  end.

(** Modelled from the spec: [PDBSymbolVisitor::Run] on a symbol of the
    sorted sequence: the visit of the symbol as the outermost one, with
    new counters; the text is the text of the type followed by the text
    of the printer. *)
Definition Visitor_text (fuel : nat) (Symbol : SymPtr) (mem : Memory)
    : option (list string * Memory) :=
  match visit (definition fuel) fuel true Symbol [] (mem, no_counters) with
  | None => None
  | Some ((type_text, declarator, _), (mem', _)) =>
      Some (type_text ++ [declarator], mem')
  end.

End Reconstructor.

(** ** The sorter *)

(** Modelled from the spec: the sorted symbol set of 4.4 with the
    visited set and the architecture seen so far. *)
Record SortedSymbolSet := {
  visited      : list SymPtr;
  sorted       : list SymPtr;
  architecture : Extractor.ImageArchitecture
}.

(** Modelled from the spec: the set of a new symbol sorter (4.4), a
    symbol entered, a symbol placed. *)
Definition empty_set : SortedSymbolSet :=
  {| visited := []; sorted := []; architecture := Extractor.ArchNone |}.

Definition mark (p : SymPtr) (st : SortedSymbolSet) : SortedSymbolSet :=
  {| visited := p :: visited st; sorted := sorted st; architecture := architecture st |}.

Definition place (p : SymPtr) (st : SortedSymbolSet) : SortedSymbolSet :=
  {| visited := visited st; sorted := sorted st ++ [p]; architecture := architecture st |}.

(** Modelled from the spec: the pointer-size signal of the symbol sorter
    (4.4): the first pointer of four or of eight bytes tells the
    architecture. *)
Definition pointer_width (sym : SYMBOL) (st : SortedSymbolSet) : SortedSymbolSet :=
  match architecture st with
  | Extractor.ArchNone =>
      {| visited := visited st; sorted := sorted st;
         architecture := if (Size sym =? 4)%N then Extractor.ArchX86
                         else if (Size sym =? 8)%N then Extractor.ArchX64
                         else Extractor.ArchNone |}
  | _ => st
  end.

(** Modelled from the spec: the traversal of 4.4, depth first, a symbol
    placed after the symbols it refers to; a symbol already visited is
    not entered again; base types, enums and the like are leaves. *)
Fixpoint sort_from (fuel : nat) (mem : Memory) (p : SymPtr) (st : SortedSymbolSet)
    : SortedSymbolSet :=
  match fuel with
  | O => st
  | S fuel' =>
      if bool_decide (p ∈ visited st) then st
      else
        match mem !! p with
        | None => st
        | Some sym =>
            place p
              match u sym with
              | Pointer q => pointer_width sym (sort_from fuel' mem q (mark p st))
              | Array q _ => sort_from fuel' mem q (mark p st)
              | Typedef q => sort_from fuel' mem q (mark p st)
              | UserData _ Fields =>
                  foldl (fun acc f => sort_from fuel' mem (FieldType f) acc)
                    (mark p st) Fields
              | _ => mark p st
              end
        end
  end.

(** Modelled from the spec: [clear()] of the symbol sorter (4.4): the
    set is emptied for the dump; the architecture that was seen
    stays. *)
Definition clear (st : SortedSymbolSet) : SortedSymbolSet :=
  {| visited := []; sorted := []; architecture := architecture st |}.

(** ** The driver with these components *)

Section Modelled.

Variable GetBasicTypeString : SYMBOL -> bool -> string.
Variable dialect : Dialect.

(** The depth the traversals are given. *)
Variable fuel : nat.

(** The collaborators that stay as they are: the reader of the symbols
    and the spellings of the declarations. *)
Variable base : Extractor.Collaborators.

(** Modelled from the spec: the collaborators of the driver with the
    symbol sorter (4.4) and the symbol visitor (4.3, with the header
    reconstructor of 4.5) of the specification in the place of
    PDBSymbolSorter.h, PDBSymbolVisitor.h and PDBHeaderReconstructor.h.
    [Visitor_Run] is what the visit does to the symbols; a visit that
    has no text leaves them alone. *)
Definition modelled : Extractor.Collaborators :=
  {| Extractor.Sorter := SortedSymbolSet;
     Extractor.Sorter_make := empty_set;
     Extractor.Sorter_Visit := fun p mem st => sort_from fuel mem p st;
     Extractor.Sorter_GetSortedSymbols := sorted;
     Extractor.Sorter_GetImageArchitecture := architecture;
     Extractor.Sorter_Clear := clear;
     Extractor.PDB_Open := @Extractor.PDB_Open base;
     Extractor.IsUnnamedSymbol := @Extractor.IsUnnamedSymbol base;
     Extractor.GetUdtKindString := @Extractor.GetUdtKindString base;
     Extractor.GetCorrectedSymbolName := @Extractor.GetCorrectedSymbolName base;
     Extractor.Visitor_Run := fun s e mem =>
       match Visitor_text GetBasicTypeString (@Extractor.IsUnnamedSymbol base)
               dialect s fuel e mem with
       | Some (_, mem') => mem'
       | None => mem
       end;
     Extractor.PDBEX_VERSION_STRING := @Extractor.PDBEX_VERSION_STRING base |}.

(** Modelled from the spec: the output text of a run, from its events
    and the symbols it began with: what the driver has written, and for
    each run of the symbol visitor (4.3) the text of that visit, on the
    symbols as the visits before it have left them.  There is none when
    a visit has none. *)
Fixpoint output_text (s : Extractor.Settings) (events : list Extractor.event)
    (mem : Memory) : option (list string) :=
  match events with
  | [] => Some []
  | Extractor.Write _ text :: rest =>
      match output_text s rest mem with
      | Some texts => Some (text :: texts)
      | None => None
      end
  | Extractor.RunVisitor e :: rest =>
      match Visitor_text GetBasicTypeString (@Extractor.IsUnnamedSymbol base)
              dialect s fuel e mem with
      | None => None
      | Some (text, mem') =>
          match output_text s rest mem' with
          | Some texts => Some (text ++ texts)
          | None => None
          end
      end
  end.

End Modelled.

(** ** Running again on corrected symbols *)

(** The symbol at [p] has its correction, if it needs one: a
    zero-length array there has the size 1. *)
Definition settled (m : Memory) (p : SymPtr) : Prop :=
  forall sym, m !! p = Some sym -> Array_ElementCount sym = Some 0%N -> Size sym = 1%N.

(** A step of the reconstruction can be run again: it only corrects,
    and on symbols that hold its corrections already it gives the same
    result and leaves them alone. *)
Definition replays {A} (f : RState -> option (A * RState)) : Prop :=
  forall m c a m1 c1,
    f (m, c) = Some (a, (m1, c1)) ->
    fixed_from m m1
    /\ forall m', fixed_from m m' -> fixed_from m1 m' -> f (m', c) = Some (a, (m', c1)).

(** Two results of one step, on symbols and on the same symbols with
    more of them corrected, agree: both are missing, or they have the
    same value and the same counters, and the symbols of the second
    are those of the first with more of them corrected. *)
Definition agree {A} (x y : option (A * RState)) : Prop :=
  match x, y with
  | Some (a, (m1, c1)), Some (a', (m1', c1')) => a = a' /\ c1 = c1' /\ fixed_from m1 m1'
  | None, None => True
  | _, _ => False
  end.

(** A step of the reconstruction does not look at what is corrected. *)
Definition corrects_alike {A} (f : RState -> option (A * RState)) : Prop :=
  forall m m' c, fixed_from m m' -> agree (f (m, c)) (f (m', c)).

Section Again.

Context `{Extractor.Collaborators}.

(** The sorter does not look at the size of an array. *)
Definition sorter_ignores_corrections : Prop :=
  forall p m m' st, fixed_from m m' ->
    Extractor.Sorter_Visit p m' st = Extractor.Sorter_Visit p m st.

(** The visitor only corrects, and leaves alone the symbols that hold
    its corrections already. *)
Definition visitor_runs_again : Prop :=
  forall s e m,
    fixed_from m (Extractor.Visitor_Run s e m)
    /\ forall M, fixed_from m M -> fixed_from (Extractor.Visitor_Run s e m) M ->
                 Extractor.Visitor_Run s e M = M.

(** The same for a piece of the driver.  What it does to the symbols is
    what the visits among its events do, in order; it only corrects the
    symbols, and on symbols [M] that hold its corrections already it
    ends the same way, with the same events, and leaves [M] alone. *)
Definition runs_again {A} (f : Extractor.M A) : Prop :=
  forall w r w1,
    f w = (r, w1) ->
    (exists events,
       Extractor.trace w1 = Extractor.trace w ++ events
       /\ Extractor.m_Settings w1 = Extractor.m_Settings w
       /\ Extractor.memory w1
          = More.corrected (Extractor.m_Settings w) (Extractor.defined events)
              (Extractor.memory w))
    /\ fixed_from (Extractor.memory w) (Extractor.memory w1)
    /\ forall M, fixed_from (Extractor.memory w) M ->
                 fixed_from (Extractor.memory w1) M ->
                 f (Extractor.with_memory (fun _ => M) w)
                 = (r, Extractor.with_memory (fun _ => M) w1).

End Again.

(** A dialect to run the reconstruction with. *)
Definition sample_dialect : Dialect :=
  {| padding_field := fun n offset size =>
       "char Padding_" +:+ to_string n +:+ "[" +:+ to_string size +:+ "];";
     member_field := fun r f declarator =>
       (if Extractor.ShowOffsets r
        then "/* " +:+ to_string (Offset f) +:+ " */ "
        else "") +:+ declarator +:+ ";";
     aggregate_begin := fun r nested Kind name =>
       Examples.sample_GetUdtKindString Kind +:+ " " +:+ default "" name +:+ " {";
     aggregate_end := fun r nested Kind name => "}";
     enum_definition := fun r nested name Values => "enum " +:+ default "" name +:+ " { };";
     type_reference := fun tag Kind name =>
       match Kind with
       | Some k => Examples.sample_GetUdtKindString k +:+ " " +:+ name
       | None => name
       end |}.

(** The sample collaborators with the sorter and the visitor of the
    specification. *)
Definition sample_modelled : Extractor.Collaborators :=
  modelled Examples.sample_GetBasicTypeString sample_dialect 16 Examples.sample.

(** The state in which a dump starts with them: the arguments parsed,
    the file open. *)
Definition sample_modelled_opened (argv : list string) : @Extractor.World sample_modelled :=
  (Extractor.bind (Extractor.ParseParameters argv)
     (fun _ => Extractor.OpenPDBFile)
     (Extractor.start (Extractor.DefaultSettings "" "" "" ""))).2.

End Reconstruction.

(* ===================================================================== *)
(** * Properties of the field-declaration printer *)
(* ===================================================================== *)

Module FieldDefinition_Facts.

Import FieldDefinition.

Lemma append_assoc (a b c : string) : (a +:+ b) +:+ c = a +:+ b +:+ c.
Proof.
  induction a as [|x a IH]; [reflexivity|].
  change (String x ((a +:+ b) +:+ c) = String x (a +:+ b +:+ c)).
  now rewrite IH.
Qed.

(** The digits [to_string] prints read back as the number. *)
Lemma to_string_reads_back (n : N) :
  N.of_uint <$> NilZero.uint_of_string (to_string n) = Some n.
Proof.
  unfold to_string.
  destruct (NilZero.usu_gen (N.to_uint n)) as [E | E]; rewrite E; simpl.
  - now rewrite DecimalN.Unsigned.of_to.
  - destruct n as [|p]; [reflexivity|].
    exfalso. simpl in E.
    pose proof (NilZero.usu (Pos.to_uint p)) as U.
    assert (Pos.to_uint p <> Decimal.Nil) as Hn.
    { intros Hnil. pose proof (DecimalPos.Unsigned.of_to p) as Q.
      rewrite Hnil in Q. discriminate Q. }
    rewrite (U Hn) in E. injection E as E.
    pose proof (DecimalPos.Unsigned.of_to p) as Q. rewrite E in Q. discriminate Q.
Qed.

(** ** Single callbacks *)

(** C1.  For an array symbol, [VisitArrayTypeEnd] succeeds and leaves the
    member name, the comment and every other symbol alone.  With a zero
    element count it appends the pointer marker to the prefix, keeps the
    suffix, and stores the symbol back with size 1 (payload and name
    kept); with a non-zero count it appends the count in brackets to the
    suffix, keeps the prefix, and leaves the whole memory, the size
    included, as it was. *)
Theorem VisitArrayTypeEnd_zero_or_count
    (Symbol : SymPtr) (d : UserDataFieldDefinition) (mem : gmap positive SYMBOL)
    (sym : SYMBOL) (ElementType : SymPtr) (ElementCount : N) :
  mem !! Symbol = Some sym ->
  u sym = Array ElementType ElementCount ->
  exists d' mem',
    VisitArrayTypeEnd Symbol (d, mem) = Some (d', mem')
    /\ m_MemberName d' = m_MemberName d
    /\ m_Comment d' = m_Comment d
    /\ (forall q, q <> Symbol -> mem' !! q = mem !! q)
    /\ (ElementCount = 0%N ->
          m_TypePrefix d' = m_TypePrefix d +:+ "*"
          /\ m_TypeSuffix d' = m_TypeSuffix d
          /\ mem' !! Symbol =
               Some {| Size := 1; Name := Name sym; u := Array ElementType 0 |})
    /\ (ElementCount <> 0%N ->
          m_TypePrefix d' = m_TypePrefix d
          /\ m_TypeSuffix d' = m_TypeSuffix d +:+ "[" +:+ to_string ElementCount +:+ "]"
          /\ mem' = mem).
Proof.
  intros Hp Hu. unfold VisitArrayTypeEnd, Array_ElementCount.
  rewrite Hp, Hu.
  destruct (N.eqb_spec ElementCount 0) as [-> | Hne].
  - eexists _, _. split; [reflexivity|].
    cbn [with_TypePrefix m_TypePrefix m_TypeSuffix m_MemberName m_Comment].
    split; [reflexivity|]. split; [reflexivity|].
    split; [intros q Hq; now rewrite lookup_insert_ne|].
    split; [|intros Hne; now elim Hne].
    intros _. split; [reflexivity|]. split; [reflexivity|].
    rewrite lookup_insert_eq. unfold set_Size. now rewrite Hu.
  - eexists _, _. split; [reflexivity|].
    cbn [with_TypeSuffix m_TypePrefix m_TypeSuffix m_MemberName m_Comment].
    split; [reflexivity|]. split; [reflexivity|].
    split; [reflexivity|].
    split; [intros H0; now elim Hne|].
    intros _. split; [reflexivity|]. split; [|reflexivity].
    now rewrite append_assoc.
Qed.

(** C5.  The rendered text is the prefix, one space, the member name, the
    suffix and the comment, in this order. *)
Theorem GetPrintableDefinition_concat (d : UserDataFieldDefinition) :
  GetPrintableDefinition d =
    m_TypePrefix d +:+ " " +:+ m_MemberName d +:+ m_TypeSuffix d +:+ m_Comment d.
Proof.
  unfold GetPrintableDefinition. now rewrite !append_assoc.
Qed.

Section WithBasicTypes.

Variable GetBasicTypeString : SYMBOL -> bool -> string.

(** ** What the callbacks keep *)

(** No callback but [VisitFunctionTypeEnd] writes the comment, and that
    one always writes the same text. *)
Lemma call_comment c d mem d' mem' :
  call GetBasicTypeString c (d, mem) = Some (d', mem') ->
  m_Comment d' = m_Comment d \/ m_Comment d' = " /* function */".
Proof.
  destruct c; simpl;
    unfold VisitBaseType, VisitArrayTypeEnd;
    repeat case_match; intros [= <- <-]; simpl; auto; try discriminate.
Qed.

Lemma calls_comment_function cs : forall d mem d' mem',
  m_Comment d = " /* function */" ->
  calls GetBasicTypeString cs (d, mem) = Some (d', mem') ->
  m_Comment d' = " /* function */".
Proof.
  induction cs as [|c cs IH]; intros d mem d' mem' Hd; simpl.
  - now intros [= <- <-].
  - destruct (call GetBasicTypeString c (d, mem)) as [[d1 mem1]|] eqn:E; [|discriminate].
    intros H. apply (IH d1 mem1 d' mem'); [|exact H].
    destruct (call_comment _ _ _ _ _ E) as [-> | ->]; auto.
Qed.

(** C2.  [VisitFunctionTypeEnd] never fails and does not look at its
    symbol or at the memory: it appends the fixed primitive to the prefix
    and sets the comment.  Whatever callbacks follow, the rendered text
    ends with that comment. *)
Theorem VisitFunctionTypeEnd_placeholder
    (Symbol : SymPtr) (d : UserDataFieldDefinition) (mem : gmap positive SYMBOL) :
  let d1 := {| m_TypePrefix := m_TypePrefix d +:+ "void";
               m_MemberName := m_MemberName d;
               m_TypeSuffix := m_TypeSuffix d;
               m_Comment := " /* function */";
               m_Settings := m_Settings d |} in
  VisitFunctionTypeEnd Symbol (d, mem) = Some (d1, mem)
  /\ (exists body, GetPrintableDefinition d1 = body +:+ " /* function */")
  /\ (forall cs d2 mem2,
        calls GetBasicTypeString cs (d1, mem) = Some (d2, mem2) ->
        exists body, GetPrintableDefinition d2 = body +:+ " /* function */").
Proof.
  intros d1. split; [reflexivity|].
  assert (forall d2, m_Comment d2 = " /* function */" ->
            exists body, GetPrintableDefinition d2 = body +:+ " /* function */") as Hend.
  { intros d2 H2. unfold GetPrintableDefinition. rewrite H2. eauto. }
  split.
  - now apply Hend.
  - intros cs d2 mem2 H. apply Hend.
    now apply (calls_comment_function cs d1 mem d2 mem2).
Qed.

(** ** Running the printer again on the memory it has corrected *)

Lemma set_Size_twice n s : set_Size n (set_Size n s) = set_Size n s.
Proof. reflexivity. Qed.

Lemma fixed_from_refl m : fixed_from m m.
Proof. intros p. now left. Qed.

Lemma fixed_from_trans m1 m2 m3 :
  fixed_from m1 m2 -> fixed_from m2 m3 -> fixed_from m1 m3.
Proof.
  intros H12 H23 p.
  destruct (H23 p) as [E23 | (s2 & E2 & C2 & E3)].
  - rewrite E23. apply H12.
  - destruct (H12 p) as [E12 | (s1 & E1 & C1 & E2')].
    + right. exists s2. rewrite <- E12. auto.
    + right. exists s1. rewrite E2 in E2'. injection E2' as ->.
      rewrite E3. auto.
Qed.

Lemma fixed_from_tag m m' p s :
  fixed_from m m' -> m !! p = Some s ->
  exists s', m' !! p = Some s' /\ u s' = u s.
Proof.
  intros F E. destruct (F p) as [E' | (s0 & E0 & _ & E')].
  - exists s. now rewrite E', E.
  - rewrite E in E0. injection E0 as <-. exists (set_Size 1 s). auto.
Qed.

Lemma call_fixes c d m d' m' :
  call GetBasicTypeString c (d, m) = Some (d', m') -> fixed_from m m'.
Proof.
  destruct c as [p|p|p|p|n]; simpl; unfold VisitBaseType, VisitArrayTypeEnd;
    try (repeat case_match; intros [= <- <-]; apply fixed_from_refl).
  destruct (m !! p) as [s|] eqn:E; [|discriminate].
  destruct (Array_ElementCount s) as [n|] eqn:C; [|discriminate].
  destruct (N.eqb_spec n 0) as [-> | Hn]; intros [= <- <-]; [|apply fixed_from_refl].
  intros q. destruct (decide (q = p)) as [-> | Hq].
  - right. exists s. now rewrite lookup_insert_eq.
  - left. now rewrite lookup_insert_ne.
Qed.

Lemma call_tagged_fixed m m' c :
  fixed_from m m' -> call_tagged m c = true -> call_tagged m' c = true.
Proof.
  intros F. destruct c as [p|p|p|p|n]; simpl; auto;
    destruct (m !! p) as [s|] eqn:E; try discriminate;
    destruct (fixed_from_tag _ _ _ _ F E) as (s' & -> & Hu);
    unfold Tag; now rewrite Hu.
Qed.

Lemma calls_tagged_fixed m m' cs :
  fixed_from m m' -> calls_tagged m cs = true -> calls_tagged m' cs = true.
Proof.
  intros F. unfold calls_tagged. rewrite !forallb_forall.
  intros H c Hc. eapply call_tagged_fixed; eauto.
Qed.

(** A callback that gets the symbol its tag promises returns. *)
Lemma call_defined c d m :
  call_tagged m c = true -> exists st, call GetBasicTypeString c (d, m) = Some st.
Proof.
  destruct c as [p|p|p|p|n]; simpl; unfold VisitBaseType, VisitArrayTypeEnd; eauto.
  - destruct (m !! p); [eauto | discriminate].
  - destruct (m !! p) as [s|]; [|discriminate].
    unfold Tag, Array_ElementCount.
    destruct (u s); rewrite ?bool_decide_eq_true; try discriminate.
    intros _. case_match; eauto.
Qed.

Lemma calls_defined cs : forall d m,
  calls_tagged m cs = true -> exists st, calls GetBasicTypeString cs (d, m) = Some st.
Proof.
  induction cs as [|c cs IH]; intros d m; simpl; [eauto|].
  rewrite andb_true_iff. intros [Hc Hcs].
  destruct (call_defined c d m Hc) as ([d1 m1] & E). rewrite E.
  apply IH. eapply calls_tagged_fixed; [|exact Hcs].
  eapply call_fixes; eauto.
Qed.

Lemma calls_fixes cs : forall d m d' m',
  calls GetBasicTypeString cs (d, m) = Some (d', m') -> fixed_from m m'.
Proof.
  induction cs as [|c cs IH]; intros d m d' m'; simpl.
  - intros [= <- <-]. apply fixed_from_refl.
  - destruct (call GetBasicTypeString c (d, m)) as [[d1 m1]|] eqn:E; [|discriminate].
    intros H. eapply fixed_from_trans; [eapply call_fixes; eauto | eapply IH; eauto].
Qed.

(** One callback, run on a memory that already holds every correction of
    the first run: the same printer state comes out and the memory stays
    as it is. *)
Lemma call_again c d m d1 m1 m' :
  call_tagged m c = true ->
  call GetBasicTypeString c (d, m) = Some (d1, m1) ->
  fixed_from m m' -> fixed_from m1 m' ->
  call GetBasicTypeString c (d, m') = Some (d1, m').
Proof.
  intros T E F F1.
  destruct c as [p|p|p|p|n]; simpl in *;
    unfold VisitBaseType, VisitPointerTypeEnd, VisitArrayTypeEnd,
           VisitFunctionTypeEnd, SetMemberName in *;
    try (injection E as <- <-; reflexivity).
  - destruct (m !! p) as [s|] eqn:Ep; [|discriminate].
    injection E as <- <-.
    destruct (F p) as [E' | (s0 & E0 & C0 & _)].
    + now rewrite E', Ep.
    + exfalso. rewrite Ep in E0. injection E0 as <-.
      apply bool_decide_eq_true in T. revert T C0.
      unfold Tag, Array_ElementCount. destruct (u s); discriminate.
  - destruct (m !! p) as [s|] eqn:Ep; [|discriminate].
    destruct (Array_ElementCount s) as [n|] eqn:C; [|discriminate].
    destruct (N.eqb_spec n 0) as [-> | Hn]; injection E as <- <-.
    + assert (m' !! p = Some (set_Size 1 s)) as Ep'.
      { destruct (F1 p) as [E' | (s0 & E0 & _ & E')].
        - now rewrite E', lookup_insert_eq.
        - rewrite lookup_insert_eq in E0. injection E0 as <-. exact E'. }
      rewrite Ep'. change (Array_ElementCount (set_Size 1 s)) with (Array_ElementCount s).
      rewrite C. simpl. rewrite set_Size_twice.
      now rewrite (insert_id _ _ _ Ep').
    + destruct (fixed_from_tag _ _ _ _ F Ep) as (s' & Ep' & Hu).
      rewrite Ep'. unfold Array_ElementCount in *. rewrite Hu, C.
      destruct (N.eqb_spec n 0); [contradiction | reflexivity].
Qed.

Lemma calls_again cs : forall d m d1 m1 m',
  calls_tagged m cs = true ->
  calls GetBasicTypeString cs (d, m) = Some (d1, m1) ->
  fixed_from m m' -> fixed_from m1 m' ->
  calls GetBasicTypeString cs (d, m') = Some (d1, m').
Proof.
  induction cs as [|c cs IH]; intros d m d1 m1 m'; simpl.
  - now intros _ [= <- <-] _ _.
  - rewrite andb_true_iff. intros [Tc Tcs].
    destruct (call GetBasicTypeString c (d, m)) as [[d2 m2]|] eqn:E; [|discriminate].
    intros H F F1.
    assert (fixed_from m m2) as F2 by (eapply call_fixes; eauto).
    assert (fixed_from m2 m') as F2'.
    { eapply fixed_from_trans; [eapply calls_fixes; eauto | exact F1]. }
    rewrite (call_again c d m d2 m2 m' Tc E F F2').
    apply (IH d2 m2 d1 m1 m'); auto.
    now apply (calls_tagged_fixed m m2).
Qed.

(** Reconstructing a member (a fresh printer, the calls of the visitor,
    the rendered text) returns a text and a corrected memory; doing it
    again on that corrected memory returns the same text and changes
    nothing more. *)
Theorem reconstruct_twice
    (s : Settings) (cs : list Callback) (mem : gmap positive SYMBOL) :
  calls_tagged mem cs = true ->
  exists text mem1,
    reconstruct GetBasicTypeString s cs mem = Some (text, mem1)
    /\ reconstruct GetBasicTypeString s cs mem1 = Some (text, mem1).
Proof.
  intros T. unfold reconstruct.
  destruct (calls_defined cs (fresh s) mem T) as ([d1 mem1] & E).
  exists (GetPrintableDefinition d1), mem1. rewrite E. split; [reflexivity|].
  assert (fixed_from mem mem1) as F by (eapply calls_fixes; eauto).
  now rewrite (calls_again cs (fresh s) mem d1 mem1 mem1 T E F (fixed_from_refl _)).
Qed.

(** ** The same along a type chain *)

Lemma calls_tagged_app mem cs1 cs2 :
  calls_tagged mem (cs1 ++ cs2) = calls_tagged mem cs1 && calls_tagged mem cs2.
Proof. apply forallb_app. Qed.

(** The calls along a chain respect the tags. *)
Lemma chain_calls_tagged fuel : forall mem p cs,
  chain_calls fuel mem p = Some cs -> calls_tagged mem cs = true.
Proof.
  induction fuel as [|fuel IH]; intros mem p cs; simpl; [discriminate|].
  destruct (mem !! p) as [sym|] eqn:Ep; [|discriminate].
  destruct (u sym) as [b|q|q n|r a|v|k f|q|] eqn:Hu;
    try (intros [= <-]; reflexivity).
  - intros [= <-]. simpl. rewrite Ep. unfold Tag. now rewrite Hu.
  - destruct (chain_calls fuel mem q) as [cs'|] eqn:E; [|discriminate].
    intros [= <-]. rewrite calls_tagged_app, (IH _ _ _ E). reflexivity.
  - destruct (chain_calls fuel mem q) as [cs'|] eqn:E; [|discriminate].
    intros [= <-]. rewrite calls_tagged_app, (IH _ _ _ E). simpl.
    rewrite Ep. unfold Tag. now rewrite Hu.
Qed.

(** The corrections do not change the chain. *)
Lemma chain_calls_fixed fuel : forall mem mem' p,
  fixed_from mem mem' -> chain_calls fuel mem' p = chain_calls fuel mem p.
Proof.
  induction fuel as [|fuel IH]; intros mem mem' p F; simpl; [reflexivity|].
  destruct (mem !! p) as [sym|] eqn:Ep.
  - destruct (fixed_from_tag _ _ _ _ F Ep) as (sym' & -> & ->).
    destruct (u sym); try reflexivity; now rewrite (IH _ _ _ F).
  - destruct (F p) as [-> | (s0 & E0 & _)]; [now rewrite Ep | congruence].
Qed.

(** The member whose type chain starts at [p], reconstructed twice: the
    visitor makes the same calls on the corrected memory, and the text is
    the same. *)
Corollary reconstruct_chain_twice
    (s : Settings) (fuel : nat) (mem : gmap positive SYMBOL) (p : SymPtr)
    (MemberName : option string) (cs : list Callback) :
  chain_calls fuel mem p = Some cs ->
  exists text mem1,
    reconstruct GetBasicTypeString s (cs ++ [CallSetMemberName MemberName]) mem
      = Some (text, mem1)
    /\ chain_calls fuel mem1 p = Some cs
    /\ reconstruct GetBasicTypeString s (cs ++ [CallSetMemberName MemberName]) mem1
       = Some (text, mem1).
Proof.
  intros E.
  assert (calls_tagged mem (cs ++ [CallSetMemberName MemberName]) = true) as T.
  { rewrite calls_tagged_app, (chain_calls_tagged _ _ _ _ E). reflexivity. }
  destruct (calls_defined _ (fresh s) mem T) as ([d1 mem1] & Ec).
  assert (fixed_from mem mem1) as F by (eapply calls_fixes; eauto).
  exists (GetPrintableDefinition d1), mem1. unfold reconstruct. rewrite Ec.
  split; [reflexivity|]. split; [now rewrite (chain_calls_fixed _ _ _ _ F)|].
  now rewrite (calls_again _ _ _ _ _ _ T Ec F (fixed_from_refl _)).
Qed.

End WithBasicTypes.

(** A zero-length array member, reconstructed twice. *)
Lemma reconstruct_twice_witness :
  calls_tagged Examples.sample_memory
    [CallVisitBaseType 1; CallVisitArrayTypeEnd 2; CallSetMemberName (Some "Data")] = true
  /\ exists text mem1,
       reconstruct Examples.sample_GetBasicTypeString DefaultSettings
         [CallVisitBaseType 1; CallVisitArrayTypeEnd 2; CallSetMemberName (Some "Data")]
         Examples.sample_memory = Some (text, mem1)
       /\ reconstruct Examples.sample_GetBasicTypeString DefaultSettings
            [CallVisitBaseType 1; CallVisitArrayTypeEnd 2; CallSetMemberName (Some "Data")]
            mem1 = Some (text, mem1).
Proof.
  split; [reflexivity|].
  apply (reconstruct_twice Examples.sample_GetBasicTypeString). reflexivity.
Defined.

Lemma VisitArrayTypeEnd_zero_or_count_witness :
  Examples.sample_memory !! 2%positive
    = Some {| Size := 0; Name := None; u := Array 1 0 |}
  /\ exists d' mem',
       VisitArrayTypeEnd 2 (fresh DefaultSettings, Examples.sample_memory) = Some (d', mem')
       /\ m_MemberName d' = ""
       /\ m_Comment d' = ""
       /\ (forall q, q <> 2%positive -> mem' !! q = Examples.sample_memory !! q)
       /\ (0%N = 0%N ->
             m_TypePrefix d' = "" +:+ "*"
             /\ m_TypeSuffix d' = ""
             /\ mem' !! 2%positive =
                  Some {| Size := 1; Name := None; u := Array 1 0 |})
       /\ (0%N <> 0%N ->
             m_TypePrefix d' = ""
             /\ m_TypeSuffix d' = "" +:+ "[" +:+ to_string 0 +:+ "]"
             /\ mem' = Examples.sample_memory).
Proof.
  split; [reflexivity|].
  apply (VisitArrayTypeEnd_zero_or_count 2 (fresh DefaultSettings)
           Examples.sample_memory
           {| Size := 0; Name := None; u := Array 1 0 |} 1 0);
    reflexivity.
Defined.

(** The chain of the pointer to a function in the sample memory. *)
Example chain_of_function_pointer :
  chain_calls 8 Examples.sample_memory 4
    = Some [CallVisitFunctionTypeEnd 5; CallVisitPointerTypeEnd 4].
Proof. reflexivity. Qed.

(** The printer on three members of the sample memory. *)
Example render_array :
  fst <$> reconstruct Examples.sample_GetBasicTypeString DefaultSettings
    [CallVisitBaseType 1; CallVisitArrayTypeEnd 3; CallSetMemberName (Some "Data")]
    Examples.sample_memory = Some "int Data[8]".
Proof. reflexivity. Qed.

Example render_zero_array :
  fst <$> reconstruct Examples.sample_GetBasicTypeString DefaultSettings
    [CallVisitBaseType 1; CallVisitArrayTypeEnd 2; CallSetMemberName (Some "Data")]
    Examples.sample_memory = Some "int* Data".
Proof. reflexivity. Qed.

Example render_function_pointer :
  fst <$> reconstruct Examples.sample_GetBasicTypeString DefaultSettings
    [CallVisitFunctionTypeEnd 5; CallVisitPointerTypeEnd 4; CallSetMemberName (Some "Callback")]
    Examples.sample_memory = Some "void* Callback /* function */".
Proof. reflexivity. Qed.

End FieldDefinition_Facts.

(* ===================================================================== *)
(** * Properties of the driver *)
(* ===================================================================== *)

Module Extractor_Facts.

Import Extractor.

Section Facts.

Context `{Collaborators}.

(** ** The monad *)

Lemma bind_Ok {A B} (m : M A) (k : A -> M B) w a w' :
  m w = (Ok a, w') -> bind m k w = k a w'.
Proof. unfold bind. now intros ->. Qed.

Lemma bind_Throw {A B} (m : M A) (k : A -> M B) w what w' :
  m w = (Throw what, w') -> bind m k w = (Throw what, w').
Proof. unfold bind. now intros ->. Qed.

(** A relation between the state before and the state after that is
    reflexive and transitive holds across [bind] as soon as it holds
    across both parts. *)
Lemma bind_rel (R : World -> World -> Prop) {A B} (m : M A) (k : A -> M B) :
  (forall w1 w2 w3, R w1 w2 -> R w2 w3 -> R w1 w3) ->
  (forall w, R w (m w).2) ->
  (forall a w, R w (k a w).2) ->
  forall w, R w (bind m k w).2.
Proof.
  intros Htrans Hm Hk w. unfold bind. specialize (Hm w).
  destruct (m w) as [[a|what|status|] w1]; simpl in *; auto.
  eapply Htrans; [exact Hm | apply Hk].
Qed.

(** ** ParseParameters: the shape test *)

Lemma rejected_shape_iff (a : string) :
  rejected_shape a = true <->
    (String.length a <> 2 /\ String.length a <> 3)
    \/ (String.length a = 2 /\ char_at a 0 <> "-"%char)
    \/ (String.length a = 3 /\ char_at a 0 <> "-"%char /\ char_at a 2 <> "-"%char).
Proof.
  unfold rejected_shape.
  rewrite !orb_true_iff, !andb_true_iff, !negb_true_iff.
  rewrite !Nat.eqb_neq, !Nat.eqb_eq.
  assert (forall c d, Ascii.eqb c d = false <-> c <> d) as Hc.
  { intros c d. destruct (Ascii.eqb_spec c d); split; congruence. }
  rewrite !Hc. tauto.
Qed.

Lemma ParseOption_rejected a next w :
  rejected_shape a = true ->
  ParseOption a next w = (Throw MESSAGE_INVALID_PARAMETERS, w).
Proof. unfold ParseOption. now intros ->. Qed.

(** The [default] label: a letter that is no option throws. *)
Lemma ParseOption_unknown_letter a next w :
  ~ In (char_at a 1) option_letters ->
  ParseOption a next w = (Throw MESSAGE_INVALID_PARAMETERS, w).
Proof.
  unfold ParseOption. destruct (rejected_shape a); [reflexivity|].
  destruct (char_at a 1) as [[] [] [] [] [] [] [] []];
    try reflexivity; intros Hn; exfalso; apply Hn; simpl; tauto.
Qed.

(** ** ParseParameters: one turn of the loop *)

(** A turn that does not step over the next argument did not look at it,
    and a turn that steps over it had one. *)
Lemma ParseOption_next a next w w' :
  ParseOption a next w = (Ok false, w') ->
  forall next', ParseOption a next' w = (Ok false, w').
Proof.
  unfold ParseOption. destruct (rejected_shape a); [discriminate|].
  destruct (char_at a 1) as [[] [] [] [] [] [] [] []];
    try discriminate; try (intros E next'; exact E);
    destruct next; discriminate.
Qed.

Lemma ParseOption_stepped a next w w' :
  ParseOption a next w = (Ok true, w') -> is_Some next.
Proof.
  destruct next; [eauto|].
  unfold ParseOption. destruct (rejected_shape a); [discriminate|].
  destruct (char_at a 1) as [[] [] [] [] [] [] [] []]; discriminate.
Qed.

(** ** ParseParameters: the loop *)

Lemma ParseOptions_cons a rest w :
  ParseOptions (a :: rest) w =
    match ParseOption a (head rest) w with
    | (Ok true, w') => ParseOptions (tail rest) w'
    | (Ok false, w') => ParseOptions rest w'
    | (Throw what, w') => (Throw what, w')
    | (Exit status, w') => (Exit status, w')
    | (Undefined, w') => (Undefined, w')
    end.
Proof.
  simpl. unfold bind.
  destruct (ParseOption a (head rest) w) as [[[]|what|status|] w']; try reflexivity.
  destruct rest; reflexivity.
Qed.

(** Options that parse on their own parse the same way in front of more
    arguments, and the loop goes on with those. *)
Lemma ParseOptions_app_fuel (n : nat) : forall pre more w w',
  length pre <= n ->
  ParseOptions pre w = (Ok tt, w') ->
  ParseOptions (pre ++ more) w = ParseOptions more w'.
Proof.
  induction n as [|n IH]; intros pre more w w' Hlen.
  - destruct pre; [|simpl in Hlen; lia]. now intros [= <-].
  - destruct pre as [|a rest]; [now intros [= <-]|].
    simpl in Hlen. rewrite <- app_comm_cons, !ParseOptions_cons.
    destruct (ParseOption a (head rest) w) as [[[]|what|status|] w1] eqn:E;
      try discriminate.
    + destruct (ParseOption_stepped _ _ _ _ E) as [v Hv].
      destruct rest as [|v' rest']; [discriminate|]. simpl in *.
      rewrite E. apply IH. lia.
    + rewrite (ParseOption_next _ _ _ _ E). apply IH. lia.
Qed.

Lemma ParseOptions_app pre more w w' :
  ParseOptions pre w = (Ok tt, w') ->
  ParseOptions (pre ++ more) w = ParseOptions more w'.
Proof. now apply (ParseOptions_app_fuel (length pre)). Qed.

(** ** ParseParameters: the streams stay consistent *)

Lemma ParseOption_consistent a next w r w' :
  files_consistent w = true ->
  ParseOption a next w = (r, w') ->
  files_consistent w' = true.
Proof.
  intros Hw. unfold ParseOption.
  destruct (rejected_shape a); [now intros [= _ <-]|].
  destruct (char_at a 1) as [[] [] [] [] [] [] [] []];
    try (now intros [= _ <-]);
    destruct next; try (now intros [= _ <-]);
    intros [= _ <-]; revert Hw; unfold files_consistent; simpl;
    rewrite ?andb_true_iff; try tauto;
    repeat case_match; intuition congruence.
Qed.

Lemma ParseOptions_consistent_fuel (n : nat) : forall args w r w',
  length args <= n ->
  files_consistent w = true ->
  ParseOptions args w = (r, w') ->
  files_consistent w' = true.
Proof.
  induction n as [|n IH]; intros args w r w' Hlen Hw.
  - destruct args; [|simpl in Hlen; lia]. now intros [= _ <-].
  - destruct args as [|a rest]; [now intros [= _ <-]|].
    simpl in Hlen. rewrite ParseOptions_cons.
    destruct (ParseOption a (head rest) w) as [r1 w1] eqn:E.
    pose proof (ParseOption_consistent _ _ _ _ _ Hw E) as Hw1.
    destruct r1 as [[]|what|status|]; try (now intros [= _ <-]).
    + apply IH; [|exact Hw1]. destruct rest; simpl in *; lia.
    + apply IH; [lia | exact Hw1].
Qed.

Lemma ParseOptions_consistent args w r w' :
  files_consistent w = true ->
  ParseOptions args w = (r, w') ->
  files_consistent w' = true.
Proof. now apply (ParseOptions_consistent_fuel (length args)). Qed.

(** With consistent streams [CloseOpenedFiles] returns; it prints
    nothing and ends the two streams the settings point to. *)
Lemma CloseOpenedFiles_consistent w :
  files_consistent w = true ->
  exists w', CloseOpenedFiles w = (Ok tt, w')
             /\ trace w' = trace w
             /\ m_Settings w' = m_Settings w
             /\ m_PDB w' = m_PDB w
             /\ streams w' ⊆ streams w
             /\ (forall h, TestFilename (m_Settings w) <> None ->
                    TestFile (PdbHeaderReconstructorSettings (m_Settings w)) = Some (ofstream h) ->
                    streams w' !! h = None)
             /\ (forall h, OutputFilename (m_Settings w) <> None ->
                    OutputFile (PdbHeaderReconstructorSettings (m_Settings w)) = ofstream h ->
                    streams w' !! h = None).
Proof.
  unfold files_consistent, CloseOpenedFiles, bind, settings. simpl.
  rewrite andb_true_iff.
  destruct (TestFilename (m_Settings w)) as [t|] eqn:Et;
    destruct (OutputFilename (m_Settings w)) as [o|] eqn:Eo;
    destruct (OutputFile (PdbHeaderReconstructorSettings (m_Settings w))) as [| |ho] eqn:EO;
    destruct (TestFile (PdbHeaderReconstructorSettings (m_Settings w))) as [[| |ht]|] eqn:ET;
    intros [H1 H2]; try discriminate; simpl;
    rewrite ?Et, ?Eo, ?EO, ?ET; simpl;
    eexists; (split; [reflexivity|]); simpl;
    repeat split; try reflexivity; try congruence;
    try (intros h _ [= <-]); try (intros h Hn; now elim Hn);
    rewrite ?lookup_delete_eq; try reflexivity;
    try apply delete_subseteq.
  - etrans; apply delete_subseteq.
  - destruct (decide (ho = ht)) as [-> | Hne].
    + apply lookup_delete_eq.
    + rewrite lookup_delete_ne by congruence. apply lookup_delete_eq.
Qed.

(** ** ParseParameters: the value of [-e] *)

Lemma expansion_of_other (v : string) :
  char_at v 0 <> "n"%char -> char_at v 0 <> "i"%char -> char_at v 0 <> "a"%char ->
  expansion_of v = MemberStructExpansionType.InlineUnnamed.
Proof.
  unfold expansion_of.
  destruct (char_at v 0) as [[] [] [] [] [] [] [] []]; try reflexivity; congruence.
Qed.


(** ** ParseParameters: arguments of the wrong shape *)

(** C9, as amended.  After options that parse (each with the value it
    takes), an argument that the loop reads as an option and that has
    neither two nor three characters, or two without a leading dash, or
    three with neither a leading nor a trailing dash, makes the loop throw
    the invalid-parameters exception; the [try] block of [Run] ends there,
    and [Run] prints the message on the error stream and returns
    [EXIT_FAILURE] without having opened the file. *)
Theorem ParseOptions_rejects_wrong_shape
    (prog sym path : string) (pre : list string) (a : string) (post : list string)
    (w w' : World) :
  files_consistent w = true ->
  ParseOptions pre (with_Settings (set_PdbPath path) (with_Settings (set_SymbolName sym) w))
    = (Ok tt, w') ->
  (String.length a <> 2 /\ String.length a <> 3)
  \/ (String.length a = 2 /\ char_at a 0 <> "-"%char)
  \/ (String.length a = 3 /\ char_at a 0 <> "-"%char /\ char_at a 2 <> "-"%char) ->
  let argv := prog :: sym :: path :: pre ++ a :: post in
  ParseParameters argv w = (Throw MESSAGE_INVALID_PARAMETERS, w')
  /\ Run_try argv w = (Throw MESSAGE_INVALID_PARAMETERS, w')
  /\ exists w'', Run argv w = (Ok EXIT_FAILURE, w'')
                 /\ trace w'' = trace w' ++ [Write cerr ("Invalid parameters" +:+ endl)]
                 /\ m_PDB w'' = m_PDB w'.
Proof.
  intros Hw Hpre Hshape argv.
  apply rejected_shape_iff in Hshape.
  assert (ParseParameters argv w = (Throw MESSAGE_INVALID_PARAMETERS, w')) as E.
  { unfold argv, ParseParameters.
    do 2 (erewrite bind_Ok; [|reflexivity]).
    apply bind_Throw.
    rewrite (ParseOptions_app _ _ _ _ Hpre), ParseOptions_cons.
    now rewrite ParseOption_rejected. }
  assert (Run_try argv w = (Throw MESSAGE_INVALID_PARAMETERS, w')) as Et.
  { unfold Run_try. now apply bind_Throw. }
  split; [exact E|]. split; [exact Et|].
  assert (files_consistent w' = true) as Hw'.
  { eapply ParseOptions_consistent; [|exact Hpre]. exact Hw. }
  unfold Run. rewrite Et.
  destruct (CloseOpenedFiles_consistent (emit (Write cerr (MESSAGE_INVALID_PARAMETERS +:+ endl)) w'))
    as (w'' & Ec & Ht & _ & Hp & _); [exact Hw'|].
  exists w''. split.
  - unfold bind at 1. unfold write, modify.
    unfold bind. now rewrite Ec.
  - split; [exact Ht | exact Hp].
Qed.

(** ** Events *)

Lemma emit_emits e w : emit e w = emits [e] w.
Proof. reflexivity. Qed.

Lemma emits_nil w : emits [] w = w.
Proof. destruct w. unfold emits. simpl. now rewrite app_nil_r. Qed.

Lemma emits_emits es1 es2 w : emits es2 (emits es1 w) = emits (es1 ++ es2) w.
Proof. unfold emits. simpl. now rewrite app_assoc. Qed.

Lemma declaration_of_emits es w e : declaration_of (emits es w) e = declaration_of w e.
Proof. reflexivity. Qed.

(** ** PrintPDBDeclarations *)

Lemma PrintPDBDeclarations_loop_spec (es : list SymPtr) : forall w,
  all_mapped (memory w) es = true ->
  PrintPDBDeclarations_loop es w =
    (Ok tt,
     emits (map (Write (OutputFile (PdbHeaderReconstructorSettings (m_Settings w))))
              (omap (declaration_of w) es)) w).
Proof.
  induction es as [|e es IH]; intros w; simpl.
  - intros _. now rewrite emits_nil.
  - rewrite andb_true_iff. intros [He Hes].
    unfold bind at 1. unfold deref, declaration_of.
    destruct (memory w !! e) as [sym|] eqn:Ee; [|discriminate].
    unfold bind at 1. unfold settings.
    unfold bind at 1.
    destruct (is_named_udt sym) eqn:Hn.
    + assert (exists line,
                declaration_line (PdbHeaderReconstructorSettings (m_Settings w)) sym
                = Some line) as [line El].
      { revert Hn. unfold is_named_udt, declaration_line, UserData_Kind, Tag.
        destruct (u sym); simpl; try discriminate. eauto. }
      rewrite El. unfold write, modify. rewrite emit_emits.
      rewrite IH by exact Hes. simpl.
      rewrite emits_emits. reflexivity.
    + unfold ret. rewrite IH by exact Hes. reflexivity.
Qed.

(** C8.  With declarations switched on and every sorted symbol present,
    [PrintPDBDeclarations] returns and adds to the output, in the order of
    the sorted symbols, one line per symbol that has a declaration, then
    an empty line; nothing else changes.  A symbol has a declaration --
    its kind, a space, its corrected name, a semicolon -- exactly when
    it is a user-defined type that is not unnamed; an enum has none, and
    an unnamed symbol has none. *)
Theorem PrintPDBDeclarations_named_udt_only (w : World) (sorter : Sorter) :
  PrintDeclarations (m_Settings w) = true ->
  m_SymbolSorter w = Some sorter ->
  all_mapped (memory w) (Sorter_GetSortedSymbols sorter) = true ->
  let r := PdbHeaderReconstructorSettings (m_Settings w) in
  PrintPDBDeclarations w =
    (Ok tt,
     emits (map (Write (OutputFile r))
              (omap (declaration_of w) (Sorter_GetSortedSymbols sorter))
            ++ [Write (OutputFile r) endl]) w)
  /\ forall e sym,
       memory w !! e = Some sym ->
       (Tag sym = SymTagUDT /\ IsUnnamedSymbol sym = false ->
          exists Kind,
            UserData_Kind sym = Some Kind
            /\ declaration_of w e =
                 Some (GetUdtKindString Kind +:+ " "
                       +:+ GetCorrectedSymbolName r sym +:+ ";" +:+ endl))
       /\ (declaration_of w e <> None ->
             Tag sym = SymTagUDT /\ IsUnnamedSymbol sym = false)
       /\ (Tag sym = SymTagEnum -> declaration_of w e = None)
       /\ (IsUnnamedSymbol sym = true -> declaration_of w e = None).
Proof.
  intros Hd Hs Hm r. split.
  - unfold PrintPDBDeclarations, bind, settings. rewrite Hd.
    unfold the_sorter. rewrite Hs.
    rewrite (PrintPDBDeclarations_loop_spec _ w Hm).
    unfold write, modify. rewrite emit_emits, emits_emits. reflexivity.
  - intros e sym He. unfold declaration_of. rewrite He.
    unfold is_named_udt, declaration_line, UserData_Kind, Tag.
    destruct (u sym) eqn:Hu; destruct (IsUnnamedSymbol sym) eqn:Hn; simpl;
      (split; [|split; [|split]]);
      try (intros [H1 H2]; discriminate);
      try (intros Hne; now elim Hne);
      try (intros H1; discriminate);
      try (intros _; reflexivity).
    + intros _. eexists. split; reflexivity.
    + intros _. split; reflexivity.
Qed.

(** ** What only writes *)

Lemma only_writes_refl w : only_writes w w.
Proof. exists []. now rewrite app_nil_r. Qed.

Lemma only_writes_trans w1 w2 w3 :
  only_writes w1 w2 -> only_writes w2 w3 -> only_writes w1 w3.
Proof.
  intros (ws1 & E1 & F1) (ws2 & E2 & F2). exists (ws1 ++ ws2).
  rewrite E2, E1, app_assoc, forallb_app, F1, F2. auto.
Qed.

Lemma only_writes_same_trace w w' : trace w' = trace w -> only_writes w w'.
Proof. intros E. exists []. now rewrite app_nil_r. Qed.

Lemma only_writes_bind {A B} (m : M A) (k : A -> M B) :
  (forall w, only_writes w (m w).2) ->
  (forall a w, only_writes w (k a w).2) ->
  forall w, only_writes w (bind m k w).2.
Proof. apply bind_rel. exact only_writes_trans. Qed.

Lemma only_writes_ret {A} (a : A) w : only_writes w (ret a w).2.
Proof. apply only_writes_refl. Qed.

Lemma only_writes_throw {A} what w : only_writes w (@throw _ A what w).2.
Proof. apply only_writes_refl. Qed.

Lemma only_writes_undefined {A} w : only_writes w (@undefined _ A w).2.
Proof. apply only_writes_refl. Qed.

Lemma only_writes_get w : only_writes w (get w).2.
Proof. apply only_writes_refl. Qed.

Lemma only_writes_settings w : only_writes w (settings w).2.
Proof. apply only_writes_refl. Qed.

Lemma only_writes_the_sorter w : only_writes w (the_sorter w).2.
Proof. unfold the_sorter. destruct (m_SymbolSorter w); apply only_writes_refl. Qed.

Lemma only_writes_the_PDB w : only_writes w (the_PDB w).2.
Proof. unfold the_PDB. destruct (m_PDB w); apply only_writes_refl. Qed.

Lemma only_writes_deref p w : only_writes w (deref p w).2.
Proof. unfold deref. destruct (memory w !! p); apply only_writes_refl. Qed.

Lemma only_writes_modify f w :
  (forall w, trace (f w) = trace w) -> only_writes w (modify f w).2.
Proof. intros Hf. apply only_writes_same_trace, Hf. Qed.

Lemma only_writes_write to text w : only_writes w (write to text w).2.
Proof. exists [Write to text]. split; reflexivity. Qed.

Lemma only_writes_sprintf_s text w : only_writes w (sprintf_s text w).2.
Proof. unfold sprintf_s. case_match; apply only_writes_refl. Qed.

Create HintDb writes.

#[local] Hint Resolve only_writes_ret only_writes_throw only_writes_undefined
  only_writes_get only_writes_settings only_writes_the_sorter only_writes_the_PDB
  only_writes_deref only_writes_write only_writes_sprintf_s only_writes_refl : writes.

(** Splits a sequence into its parts, as long as they are sequences. *)
Ltac writes_step :=
  first
    [ apply only_writes_bind; intros
    | apply only_writes_modify; intros; reflexivity
    | solve [auto with writes] ].

Lemma only_writes_SymbolSorter_Visit p w : only_writes w (SymbolSorter_Visit p w).2.
Proof. unfold SymbolSorter_Visit. repeat writes_step. Qed.

#[local] Hint Resolve only_writes_SymbolSorter_Visit : writes.

Lemma only_writes_GetArchitecture_loop es : forall w,
  only_writes w (GetArchitecture_loop es w).2.
Proof.
  induction es as [|e es IH]; simpl; [auto with writes|].
  repeat writes_step. case_match; [apply IH|]. repeat writes_step.
Qed.

Lemma only_writes_visit_all es : forall w, only_writes w (visit_all es w).2.
Proof.
  induction es as [|e es IH]; simpl; [auto with writes|].
  repeat writes_step.
Qed.

Lemma only_writes_PrintPDBHeader w : only_writes w (PrintPDBHeader w).2.
Proof.
  unfold PrintPDBHeader. writes_step; [auto with writes|].
  case_match; [|auto with writes].
  writes_step.
  - unfold GetArchitecture. writes_step; [auto with writes|].
    apply only_writes_GetArchitecture_loop.
  - repeat writes_step.
Qed.

Lemma only_writes_PrintPDBDeclarations_loop es : forall w,
  only_writes w (PrintPDBDeclarations_loop es w).2.
Proof.
  induction es as [|e es IH]; simpl; [auto with writes|].
  repeat writes_step.
  repeat case_match; auto with writes.
Qed.

Lemma only_writes_PrintPDBDeclarations w : only_writes w (PrintPDBDeclarations w).2.
Proof.
  unfold PrintPDBDeclarations. writes_step; [auto with writes|].
  case_match; [|auto with writes].
  repeat writes_step. apply only_writes_PrintPDBDeclarations_loop.
Qed.

#[local] Hint Resolve only_writes_PrintPDBHeader only_writes_visit_all
  only_writes_PrintPDBDeclarations : writes.

(** ** PrintPDBDefinitions *)

Lemma SymbolVisitor_Run_spec e w :
  SymbolVisitor_Run e w =
    (Ok tt, with_memory (Visitor_Run (m_Settings w) e) (emit (RunVisitor e) w)).
Proof. reflexivity. Qed.

Lemma Expand_world e w : (Expand e w).2 = w.
Proof.
  unfold Expand, bind, settings, deref, ret.
  case_match; [|reflexivity]. now destruct (memory w !! e).
Qed.

(** The loop asks for definitions only, of symbols taken from its list
    from left to right, and leaves the sorter alone. *)
Lemma PrintPDBDefinitions_loop_shape es : forall w r w',
  PrintPDBDefinitions_loop es w = (r, w') ->
  exists defs,
    trace w' = trace w ++ map RunVisitor defs
    /\ defs `sublist_of` es
    /\ m_SymbolSorter w' = m_SymbolSorter w.
Proof.
  induction es as [|e es IH]; intros w r w'; simpl.
  - intros [= _ <-]. exists []. simpl. now rewrite app_nil_r.
  - unfold bind at 1. pose proof (Expand_world e w) as Hw.
    destruct (Expand e w) as [[[]|what|status|] w1]; simpl in Hw; subst w1;
      try (intros [= _ <-]; exists []; simpl; rewrite app_nil_r; repeat split; auto;
           apply sublist_nil_l).
    + rewrite (bind_Ok _ _ _ _ _ (SymbolVisitor_Run_spec e w)).
      intros E. destruct (IH _ _ _ E) as (defs & Et & Hs & Hm).
      exists (e :: defs). split; [|split].
      * rewrite Et. simpl. now rewrite <- app_assoc.
      * now apply sublist_skip.
      * now rewrite Hm.
    + rewrite (bind_Ok _ _ _ _ _ (eq_refl : ret tt w = (Ok tt, w))).
      intros E. destruct (IH _ _ _ E) as (defs & Et & Hs & Hm).
      exists defs. repeat split; auto. now apply sublist_cons.
Qed.

Lemma PrintPDBDefinitions_shape w r w' :
  PrintPDBDefinitions w = (r, w') ->
  exists defs,
    trace w' = trace w ++ map RunVisitor defs
    /\ in_sorted_order w' defs.
Proof.
  assert (exists defs : list SymPtr,
            trace w = trace w ++ map RunVisitor defs
            /\ in_sorted_order w defs) as Hnone.
  { exists []. simpl. rewrite app_nil_r. split; [reflexivity | now left]. }
  unfold PrintPDBDefinitions, bind, settings, the_sorter.
  destruct (PrintDefinitions (m_Settings w)); [|now intros [= _ <-]].
  destruct (m_SymbolSorter w) as [sorter|] eqn:Es; [|now intros [= _ <-]].
  intros E.
  destruct (PrintPDBDefinitions_loop_shape _ _ _ _ E) as (defs & Et & Hs & Hm).
  exists defs. split; [exact Et|]. right. exists sorter. rewrite Hm. auto.
Qed.

(** ** The two dumps *)

Lemma writes_then_definitions_writes w w' :
  only_writes w w' -> writes_then_definitions w w'.
Proof.
  intros (ws & Et & Hws). exists ws, []. simpl. rewrite app_nil_r.
  repeat split; auto. now left.
Qed.

Lemma writes_then_definitions_after w w1 w' :
  only_writes w w1 -> writes_then_definitions w1 w' -> writes_then_definitions w w'.
Proof.
  intros (ws1 & Et1 & Hws1) (ws & defs & Et & Hws & Ho).
  exists (ws1 ++ ws), defs. rewrite Et, Et1, forallb_app, Hws1, Hws, <- !app_assoc.
  auto.
Qed.

Lemma writes_then_definitions_bind {A B} (m : M A) (k : A -> M B) :
  (forall w, only_writes w (m w).2) ->
  (forall a w r w', k a w = (r, w') -> writes_then_definitions w w') ->
  forall w r w', bind m k w = (r, w') -> writes_then_definitions w w'.
Proof.
  intros Hm Hk w r w'. unfold bind. specialize (Hm w).
  destruct (m w) as [[a|what|status|] w1]; simpl in Hm;
    try (intros [= _ <-]; now apply writes_then_definitions_writes).
  intros E. eapply writes_then_definitions_after; [exact Hm | eapply Hk, E].
Qed.

Lemma DumpAllSymbols_shape w r w' :
  DumpAllSymbols w = (r, w') -> writes_then_definitions w w'.
Proof.
  revert w r w'. unfold DumpAllSymbols.
  apply writes_then_definitions_bind; [auto with writes|]. intros _.
  apply writes_then_definitions_bind; [auto with writes|]. intros p.
  apply writes_then_definitions_bind; [auto with writes|]. intros _.
  apply writes_then_definitions_bind; [auto with writes|]. intros _.
  intros w r w' E.
  destruct (PrintPDBDefinitions_shape _ _ _ E) as (defs & Et & Ho).
  exists [], defs. auto.
Qed.

Lemma SymbolSorter_Visit_trace p w r w' :
  SymbolSorter_Visit p w = (r, w') -> trace w' = trace w.
Proof.
  unfold SymbolSorter_Visit, bind, the_sorter, get, modify.
  destruct (m_SymbolSorter w); now intros [= _ <-].
Qed.

Lemma DumpOneSymbol_shape w r w' :
  DumpOneSymbol w = (r, w') ->
  exists ws defs,
    trace w' = trace w ++ ws ++ map RunVisitor defs
    /\ forallb is_write ws = true
    /\ (ws = [] \/ trace (PrintPDBHeader w).2 = trace w ++ ws)
    /\ (in_sorted_order w' defs
        \/ exists p Symbol,
             m_PDB w = Some p
             /\ GetSymbolByName p (SymbolName (m_Settings w)) = Some Symbol
             /\ defs = [Symbol]).
Proof.
  assert (forall ws, trace w' = trace w ++ ws ->
            forallb is_write ws = true ->
            (ws = [] \/ trace (PrintPDBHeader w).2 = trace w ++ ws) ->
            exists ws0 defs : list _,
              trace w' = trace w ++ ws0 ++ map RunVisitor defs
              /\ forallb is_write ws0 = true
              /\ (ws0 = [] \/ trace (PrintPDBHeader w).2 = trace w ++ ws0)
              /\ (in_sorted_order w' defs
                  \/ exists p Symbol,
                       m_PDB w = Some p
                       /\ GetSymbolByName p (SymbolName (m_Settings w)) = Some Symbol
                       /\ defs = [Symbol])) as Hnone.
  { intros ws Et Hws Hh. exists ws, []. simpl. rewrite app_nil_r.
    repeat split; auto. left. now left. }
  unfold DumpOneSymbol. unfold bind at 1. unfold the_PDB.
  destruct (m_PDB w) as [p|] eqn:Ep.
  2:{ intros [= _ Hw']. apply (Hnone []); auto. now rewrite <- Hw', app_nil_r. }
  unfold bind at 1. unfold settings.
  destruct (GetSymbolByName p (SymbolName (m_Settings w))) as [Symbol|] eqn:El.
  2:{ intros [= _ Hw']. apply (Hnone []); auto. now rewrite <- Hw', app_nil_r. }
  unfold bind at 1.
  pose proof (only_writes_PrintPDBHeader w) as (ws & Et & Hws).
  destruct (PrintPDBHeader w) as [[[]|what|status|] w1]; simpl in Et;
    try (intros [= _ Hw']; apply (Hnone ws); auto; now rewrite <- Hw').
  destruct (PrintReferencedTypes (m_Settings w)
            && negb (bool_decide
                       (MemberStructExpansion (PdbHeaderReconstructorSettings (m_Settings w))
                        = MemberStructExpansionType.InlineAll))).
  - unfold bind at 1.
    destruct (SymbolSorter_Visit Symbol w1) as [r2 w2] eqn:E2.
    pose proof (SymbolSorter_Visit_trace _ _ _ _ E2) as Et2.
    destruct r2 as [[]|what|status|];
      try (intros [= _ Hw']; apply (Hnone ws); auto; now rewrite <- Hw', Et2).
    intros E3. destruct (PrintPDBDefinitions_shape _ _ _ E3) as (defs & Ed & Ho).
    exists ws, defs. rewrite Ed, Et2, Et, <- app_assoc. auto.
  - rewrite SymbolVisitor_Run_spec. intros [= _ Hw']. rewrite <- Hw'. simpl.
    exists ws, [Symbol]. rewrite Et, <- app_assoc. repeat split; auto.
    right. eauto.
Qed.

(** ** The one-symbol dump without referenced types *)

Lemma defined_app t1 t2 : defined (t1 ++ t2) = defined t1 ++ defined t2.
Proof. unfold defined. apply omap_app. Qed.

Lemma defined_writes ws : forallb is_write ws = true -> defined ws = [].
Proof.
  induction ws as [|[to text|e] ws IH]; simpl; auto; discriminate.
Qed.

Lemma only_writes_defined w w' : only_writes w w' -> defined (trace w') = defined (trace w).
Proof.
  intros (ws & -> & Hws). now rewrite defined_app, (defined_writes _ Hws), app_nil_r.
Qed.

(** [GetArchitecture] is the only part of the header that touches the
    sorter. *)
Lemma PrintPDBHeader_off w :
  PrintHeader (m_Settings w) = false -> PrintPDBHeader w = (Ok tt, w).
Proof. unfold PrintPDBHeader, bind, settings. now intros ->. Qed.

(** C7.  In the one-symbol mode, for a symbol the file has, with the
    expansion [InlineAll] or with the referenced types switched off, the
    dump is the header followed by one run of the visitor, on the
    requested symbol: the sorter is left as the header left it (and
    untouched when the header is off as well); when the header returns,
    the dump asks for the definition of the requested symbol and for no
    other, and when it does not, for none at all. *)
Theorem DumpOneSymbol_only_requested (w : World) (p : PDBFile) (Symbol : SymPtr) :
  m_PDB w = Some p ->
  GetSymbolByName p (SymbolName (m_Settings w)) = Some Symbol ->
  MemberStructExpansion (PdbHeaderReconstructorSettings (m_Settings w))
    = MemberStructExpansionType.InlineAll
  \/ PrintReferencedTypes (m_Settings w) = false ->
  DumpOneSymbol w = bind PrintPDBHeader (fun _ => SymbolVisitor_Run Symbol) w
  /\ m_SymbolSorter (DumpOneSymbol w).2 = m_SymbolSorter (PrintPDBHeader w).2
  /\ (PrintHeader (m_Settings w) = false ->
        m_SymbolSorter (DumpOneSymbol w).2 = m_SymbolSorter w)
  /\ (forall w1,
        PrintPDBHeader w = (Ok tt, w1) ->
        DumpOneSymbol w =
          (Ok tt, with_memory (Visitor_Run (m_Settings w1) Symbol)
                    (emit (RunVisitor Symbol) w1))
        /\ defined (trace (DumpOneSymbol w).2) = defined (trace w) ++ [Symbol])
  /\ (defined (trace (DumpOneSymbol w).2) = defined (trace w) ++ [Symbol]
      \/ defined (trace (DumpOneSymbol w).2) = defined (trace w)).
Proof.
  intros Ep El Hmode.
  assert (DumpOneSymbol w = bind PrintPDBHeader (fun _ => SymbolVisitor_Run Symbol) w)
    as E.
  { unfold DumpOneSymbol. unfold bind at 1. unfold the_PDB. rewrite Ep.
    unfold bind at 1. unfold settings. rewrite El.
    destruct Hmode as [-> | ->]; [|reflexivity].
    now rewrite andb_false_r. }
  assert (m_SymbolSorter (DumpOneSymbol w).2 = m_SymbolSorter (PrintPDBHeader w).2) as Es.
  { rewrite E. unfold bind.
    destruct (PrintPDBHeader w) as [[[]|what|status|] w1]; reflexivity. }
  assert (forall w1, PrintPDBHeader w = (Ok tt, w1) ->
            DumpOneSymbol w =
              (Ok tt, with_memory (Visitor_Run (m_Settings w1) Symbol)
                        (emit (RunVisitor Symbol) w1))
            /\ defined (trace (DumpOneSymbol w).2) = defined (trace w) ++ [Symbol])
    as Hok.
  { intros w1 Eh. rewrite E, (bind_Ok _ _ _ _ _ Eh), SymbolVisitor_Run_spec.
    split; [reflexivity|]. simpl. rewrite defined_app. simpl.
    f_equal. apply only_writes_defined.
    pose proof (only_writes_PrintPDBHeader w) as Hw. now rewrite Eh in Hw. }
  split; [exact E|]. split; [exact Es|]. split; [|split; [exact Hok|]].
  - intros Hoff. now rewrite Es, PrintPDBHeader_off.
  - pose proof (only_writes_PrintPDBHeader w) as Hw.
    destruct (PrintPDBHeader w) as [[[]|what|status|] w1] eqn:Eh.
    + left. now apply (Hok w1).
    + right. rewrite E. unfold bind. rewrite Eh. now apply only_writes_defined.
    + right. rewrite E. unfold bind. rewrite Eh. now apply only_writes_defined.
    + right. rewrite E. unfold bind. rewrite Eh. now apply only_writes_defined.
Qed.

(** ** The run for a symbol the file does not have *)

Lemma ParseParameters_consistent argv w w1 :
  files_consistent w = true ->
  ParseParameters argv w = (Ok tt, w1) ->
  files_consistent w1 = true.
Proof.
  intros Hw. unfold ParseParameters.
  destruct argv as [|a0 [|a1 [|a2 args]]].
  - discriminate.
  - unfold bind, exit. destruct (PrintUsage w) as [[[]|?|?|] ?]; discriminate.
  - destruct (is_help a1); unfold bind, exit, undefined, modify.
    + destruct (PrintUsage w) as [[[]|?|?|] ?]; discriminate.
    + discriminate.
  - do 2 (erewrite bind_Ok; [|reflexivity]).
    unfold bind at 1.
    destruct (ParseOptions args _) as [[[]|?|?|] w2] eqn:E; try discriminate.
    intros [= <-].
    eapply ParseOptions_consistent in E; [exact E | exact Hw].
Qed.

(** The run for a name the file does not have, whatever the options: the
    [try] block ends in [DumpOneSymbol] before the header; one line goes
    to the error stream; no definition is asked for and nothing is written
    to the output; the result is [EXIT_FAILURE]; the two streams the
    settings point to are ended. *)
Lemma Run_symbol_not_found (argv : list string) (w w1 : World) (p : PDBFile) :
  files_consistent w = true ->
  ParseParameters argv w = (Ok tt, w1) ->
  PDB_Open (PdbPath (m_Settings w1)) = Some p ->
  SymbolName (m_Settings w1) <> "*" ->
  GetSymbolByName p (SymbolName (m_Settings w1)) = None ->
  String.length (TEST_FILE_HEADER (OutputFilename (m_Settings w1))) < 16 * 1024 ->
  exists w',
    Run argv w = (Ok EXIT_FAILURE, w')
    /\ trace w' = trace w1 ++ test_header_events w1
                   ++ [Write cerr ("Symbol not found" +:+ endl)]
    /\ defined (trace w') = defined (trace w1)
    /\ streams w' ⊆ streams w1
    /\ (forall h, TestFile (PdbHeaderReconstructorSettings (m_Settings w1))
                   = Some (ofstream h) ->
                 TestFilename (m_Settings w1) <> None -> streams w' !! h = None)
    /\ (forall h, OutputFile (PdbHeaderReconstructorSettings (m_Settings w1))
                   = ofstream h ->
                 OutputFilename (m_Settings w1) <> None -> streams w' !! h = None).
Proof.
  intros Hw Ep Eo Hstar El Hlen.
  pose proof (ParseParameters_consistent _ _ _ Hw Ep) as Hw1.
  set (w2 := with_PDB p w1).
  set (w3 := emits (test_header_events w1) w2).
  assert (Run_try argv w = (Throw MESSAGE_SYMBOL_NOT_FOUND, w3)) as Et.
  { unfold Run_try. rewrite (bind_Ok _ _ _ _ _ Ep).
    assert (OpenPDBFile w1 = (Ok tt, w2)) as Eopen.
    { unfold OpenPDBFile, bind, settings. now rewrite Eo. }
    rewrite (bind_Ok _ _ _ _ _ Eopen).
    assert (PrintTestHeader w2 = (Ok tt, w3)) as Ehead.
    { unfold PrintTestHeader, bind, settings, w3, test_header_events. simpl.
      destruct (TestFile (PdbHeaderReconstructorSettings (m_Settings w1))) as [f|].
      - unfold sprintf_s. apply Nat.ltb_lt in Hlen. rewrite Hlen.
        unfold ret, write, modify. now rewrite emit_emits.
      - now rewrite emits_nil. }
    rewrite (bind_Ok _ _ _ _ _ Ehead).
    unfold bind at 1. unfold settings. simpl.
    apply String.eqb_neq in Hstar. rewrite Hstar.
    apply bind_Throw.
    unfold DumpOneSymbol, bind, the_PDB, settings. simpl. now rewrite El. }
  unfold Run. rewrite Et.
  destruct (CloseOpenedFiles_consistent
              (emit (Write cerr (MESSAGE_SYMBOL_NOT_FOUND +:+ endl)) w3))
    as (w' & Ec & Ht & Hs & _ & Hsub & Htest & Hout); [exact Hw1|].
  exists w'. split.
  { unfold bind at 1. unfold write, modify. unfold bind. now rewrite Ec. }
  split.
  { rewrite Ht. simpl. now rewrite <- app_assoc. }
  split.
  { rewrite Ht. simpl. rewrite !defined_app. simpl. rewrite app_nil_r.
    unfold test_header_events.
    destruct (TestFile _); simpl; now rewrite app_nil_r. }
  split; [exact Hsub|].
  split.
  - intros h Hf Hn. apply (Htest h Hn Hf).
  - intros h Hf Hn. apply (Hout h Hn Hf).
Qed.

(** When the options have not made a stream and dropped it, the run for
    a name the file does not have ends every stream. *)
Corollary Run_symbol_not_found_closes_all (argv : list string) (w w1 : World) (p : PDBFile) :
  files_consistent w = true ->
  ParseParameters argv w = (Ok tt, w1) ->
  PDB_Open (PdbPath (m_Settings w1)) = Some p ->
  SymbolName (m_Settings w1) <> "*" ->
  GetSymbolByName p (SymbolName (m_Settings w1)) = None ->
  String.length (TEST_FILE_HEADER (OutputFilename (m_Settings w1))) < 16 * 1024 ->
  no_stray_stream w1 ->
  exists w', Run argv w = (Ok EXIT_FAILURE, w') /\ streams w' = ∅.
Proof.
  intros Hw Ep Eo Hstar El Hlen Hstray.
  destruct (Run_symbol_not_found argv w w1 p Hw Ep Eo Hstar El Hlen)
    as (w' & E & _ & _ & Hsub & Htest & Hout).
  exists w'. split; [exact E|].
  apply map_empty. intros h.
  destruct (streams w' !! h) as [name|] eqn:Eh; [|reflexivity].
  pose proof (lookup_weaken _ _ _ _ Eh Hsub) as Eh1.
  destruct (Hstray h name Eh1) as [[Hn Hf] | [Hn Hf]].
  - rewrite (Hout h Hf Hn) in Eh. discriminate.
  - rewrite (Htest h Hf Hn) in Eh. discriminate.
Qed.

End Facts.

(** C9 as it was stated fails on the value of an option: it follows the
    path, it is no switch of two or three characters, and it is taken
    without an exception. *)
Lemma option_value_is_accepted :
  (String.length "out.h" <> 2 /\ String.length "out.h" <> 3)
  /\ (@ParseOptions Examples.sample ["-o"; "out.h"]
        (start (DefaultSettings "" "" "" ""))).1 = Ok tt
  /\ (Examples.sample_Run ["pdbex"; "_POINT"; "sample.pdb"; "-o"; "out.h"]).1
     = Ok ERROR_SUCCESS.
Proof. repeat split; try reflexivity; simpl; lia. Qed.

(** Three characters with one of the two dashes in place pass the shape
    test as well: the letter in the middle is taken as the option. *)
Lemma one_dash_of_two_is_accepted :
  rejected_shape "xp-" = false
  /\ rejected_shape "-px" = false
  /\ (Examples.sample_Run ["pdbex"; "_POINT"; "sample.pdb"; "xp-"]).1 = Ok ERROR_SUCCESS
  /\ CreatePaddingMembers
       (PdbHeaderReconstructorSettings
          (m_Settings (Examples.sample_Run ["pdbex"; "_POINT"; "sample.pdb"; "xp-"]).2))
     = false.
Proof. repeat split; reflexivity. Qed.

(** C4 at a command line that names the output file twice and asks for
    a symbol the file does not have: the run returns [EXIT_FAILURE] with
    one line on the error stream and no other event, the stream made for
    the second name is ended, and the stream made for the first name is
    still there when the run returns. *)
Theorem Run_symbol_not_found_keeps_first_stream :
  let r := Examples.sample_Run
             ["pdbex"; "NoSuchType"; "sample.pdb"; "-o"; "a.h"; "-o"; "b.h"] in
  r.1 = Ok EXIT_FAILURE
  /\ trace r.2 = [Write cerr ("Symbol not found" +:+ endl)]
  /\ OutputFile (PdbHeaderReconstructorSettings (m_Settings r.2)) = ofstream 1
  /\ streams r.2 !! 1 = None
  /\ streams r.2 !! 0 = Some "a.h".
Proof. vm_compute. repeat split; reflexivity. Qed.

(** The same request with each file named once: nothing is left. *)
Example Run_symbol_not_found_closes_both :
  let r := Examples.sample_Run
             ["pdbex"; "NoSuchType"; "sample.pdb"; "-o"; "a.h"; "-t"; "a.c"] in
  r.1 = Ok EXIT_FAILURE
  /\ written cerr (trace r.2) = ["Symbol not found" +:+ endl]
  /\ defined (trace r.2) = []
  /\ written (ofstream 0) (trace r.2) = []
  /\ streams r.2 = ∅.
Proof. vm_compute. repeat split; reflexivity. Qed.

Lemma Run_symbol_not_found_example :
  exists w',
    Examples.sample_Run ["pdbex"; "NoSuchType"; "sample.pdb"; "-o"; "a.h"; "-t"; "a.c"]
      = (Ok EXIT_FAILURE, w')
    /\ defined (trace w') = [].
Proof.
  destruct (@Run_symbol_not_found Examples.sample
              ["pdbex"; "NoSuchType"; "sample.pdb"; "-o"; "a.h"; "-t"; "a.c"]
              Examples.sample_start
              (@ParseParameters Examples.sample
                 ["pdbex"; "NoSuchType"; "sample.pdb"; "-o"; "a.h"; "-t"; "a.c"]
                 Examples.sample_start).2
              Examples.sample_PDB)
    as (w' & E & _ & Hd & _); try reflexivity.
  - discriminate.
  - vm_compute. lia.
  - exists w'. split; [exact E | exact Hd].
Qed.

(** The three runs of the sample file. *)
Example Run_all_symbols :
  let r := Examples.sample_Run ["pdbex"; "*"; "sample.pdb"; "-k-"] in
  r.1 = Ok ERROR_SUCCESS
  /\ written cout (trace r.2) = ["struct _POINT;" +:+ endl; endl]
  /\ defined (trace r.2) = [1; 2; 6; 7]%positive
  /\ memory r.2 !! 2%positive = Some {| Size := 1; Name := None; u := Array 1 0 |}.
Proof. vm_compute. repeat split; reflexivity. Qed.

Example Run_one_symbol :
  let r := Examples.sample_Run ["pdbex"; "_POINT"; "sample.pdb"; "-k-"] in
  r.1 = Ok ERROR_SUCCESS
  /\ written cout (trace r.2) = []
  /\ defined (trace r.2) = [1; 2; 6]%positive.
Proof. vm_compute. repeat split; reflexivity. Qed.

Example Run_one_symbol_inline_all :
  let r := Examples.sample_Run ["pdbex"; "_POINT"; "sample.pdb"; "-k-"; "-e"; "a"] in
  r.1 = Ok ERROR_SUCCESS
  /\ trace r.2 = [RunVisitor 6]
  /\ m_SymbolSorter r.2 = Some ([], ArchNone).
Proof. vm_compute. repeat split; reflexivity. Qed.

Lemma PrintPDBDeclarations_named_udt_only_witness :
  let w := Examples.sample_sorted ["pdbex"; "*"; "sample.pdb"] in
  m_SymbolSorter w = Some ([1; 2; 6; 7; 8]%positive, ArchNone)
  /\ PrintPDBDeclarations w =
       (Ok tt, emits [Write cout ("struct _POINT;" +:+ endl); Write cout endl] w).
Proof.
  split; [reflexivity|].
  apply (@PrintPDBDeclarations_named_udt_only Examples.sample
           (Examples.sample_sorted ["pdbex"; "*"; "sample.pdb"])
           ([1; 2; 6; 7; 8]%positive, ArchNone));
    reflexivity.
Defined.

Lemma DumpOneSymbol_only_requested_witness :
  let w := Examples.sample_opened ["pdbex"; "_POINT"; "sample.pdb"; "-e"; "a"] in
  m_PDB w = Some Examples.sample_PDB
  /\ MemberStructExpansion (PdbHeaderReconstructorSettings (m_Settings w))
     = MemberStructExpansionType.InlineAll
  /\ DumpOneSymbol w = bind PrintPDBHeader (fun _ => SymbolVisitor_Run 6) w.
Proof.
  intros w. split; [reflexivity|]. split; [reflexivity|].
  exact (proj1 (@DumpOneSymbol_only_requested Examples.sample w Examples.sample_PDB 6
                  eq_refl eq_refl (or_introl eq_refl))).
Defined.

Lemma ParseOptions_rejects_wrong_shape_witness :
  files_consistent (@start Examples.sample (DefaultSettings "" "" "" "")) = true
  /\ exists w',
       @ParseOptions Examples.sample ["-p-"; "-o"; "out.h"]
         (with_Settings (set_PdbPath "sample.pdb")
            (with_Settings (set_SymbolName "_POINT")
               (start (DefaultSettings "" "" "" "")))) = (Ok tt, w')
       /\ @ParseParameters Examples.sample
            ("pdbex" :: "_POINT" :: "sample.pdb" :: ["-p-"; "-o"; "out.h"] ++ "padding" :: ["-x"])
            (start (DefaultSettings "" "" "" ""))
          = (Throw MESSAGE_INVALID_PARAMETERS, w').
Proof.
  split; [reflexivity|].
  eexists. split; [reflexivity|].
  apply (@ParseOptions_rejects_wrong_shape Examples.sample
           "pdbex" "_POINT" "sample.pdb" ["-p-"; "-o"; "out.h"] "padding" ["-x"]).
  - reflexivity.
  - reflexivity.
  - left. simpl. lia.
Defined.


End Extractor_Facts.

(* ===================================================================== *)
(** * More on the field-declaration printer *)
(* ===================================================================== *)

Module FieldDefinition_More.

Import FieldDefinition More.

Lemma append_empty_r (a : string) : a +:+ "" = a.
Proof.
  induction a as [|x a IH]; [reflexivity|].
  change (String x (a +:+ "") = String x a). now rewrite IH.
Qed.

Lemma length_append (a b : string) :
  String.length (a +:+ b) = String.length a + String.length b.
Proof.
  induction a as [|x a IH]; [reflexivity|].
  change (S (String.length (a +:+ b)) = S (String.length a + String.length b)).
  now rewrite IH.
Qed.

Lemma append_cancel_l (a b c : string) : a +:+ b = a +:+ c -> b = c.
Proof.
  induction a as [|x a IH]; [easy|].
  change (String x (a +:+ b) = String x (a +:+ c) -> b = c).
  intros [= E]. auto.
Qed.

Lemma append_cancel_r (t : string) : forall a b, a +:+ t = b +:+ t -> a = b.
Proof.
  induction a as [|x a IH]; intros [|y b].
  - reflexivity.
  - intros E. apply (f_equal String.length) in E.
    rewrite !length_append in E. simpl in E. lia.
  - intros E. apply (f_equal String.length) in E.
    rewrite !length_append in E. simpl in E. lia.
  - change (String x (a +:+ t) = String y (b +:+ t) -> String x a = String y b).
    intros [= -> E]. f_equal. auto.
Qed.

Lemma to_string_inj (n m : N) : to_string n = to_string m -> n = m.
Proof.
  intros E.
  pose proof (FieldDefinition_Facts.to_string_reads_back n) as Hn.
  pose proof (FieldDefinition_Facts.to_string_reads_back m) as Hm.
  rewrite E in Hn. rewrite Hn in Hm. now injection Hm.
Qed.

(** X4.  The suffix tells the element count: when [VisitArrayTypeEnd] on
    two arrays with non-zero counts, from the same printer state, leaves
    the same suffix, the two counts are equal. *)
Theorem array_suffix_tells_count
    (p1 p2 : SymPtr) (d d1 d2 : UserDataFieldDefinition)
    (mem mem1 mem2 : gmap positive SYMBOL) (s1 s2 : SYMBOL) (e1 e2 : SymPtr) (n1 n2 : N) :
  mem !! p1 = Some s1 -> u s1 = Array e1 n1 -> n1 <> 0%N ->
  mem !! p2 = Some s2 -> u s2 = Array e2 n2 -> n2 <> 0%N ->
  VisitArrayTypeEnd p1 (d, mem) = Some (d1, mem1) ->
  VisitArrayTypeEnd p2 (d, mem) = Some (d2, mem2) ->
  m_TypeSuffix d1 = m_TypeSuffix d2 ->
  n1 = n2.
Proof.
  intros E1 U1 Z1 E2 U2 Z2. unfold VisitArrayTypeEnd, Array_ElementCount.
  rewrite E1, E2, U1, U2.
  destruct (N.eqb_spec n1 0) as [|_]; [contradiction|].
  destruct (N.eqb_spec n2 0) as [|_]; [contradiction|].
  intros [= <- _] [= <- _]. cbn [with_TypeSuffix m_TypeSuffix].
  intros E. apply append_cancel_l, append_cancel_r, append_cancel_l in E.
  now apply to_string_inj.
Qed.

Section WithBasicTypes.

Variable GetBasicTypeString : SYMBOL -> bool -> string.

Lemma calls_app cs1 : forall cs2 st,
  calls GetBasicTypeString (cs1 ++ cs2) st =
    match calls GetBasicTypeString cs1 st with
    | Some st1 => calls GetBasicTypeString cs2 st1
    | None => None
    end.
Proof.
  induction cs1 as [|c cs1 IH]; intros cs2 st; simpl; [reflexivity|].
  destruct (call GetBasicTypeString c st); [apply IH | reflexivity].
Qed.

(** ** The callbacks only append *)

Lemma call_only_appends c d mem d' mem' :
  call GetBasicTypeString c (d, mem) = Some (d', mem') ->
  exists more_prefix more_suffix,
    m_TypePrefix d' = m_TypePrefix d +:+ more_prefix
    /\ m_TypeSuffix d' = m_TypeSuffix d +:+ more_suffix
    /\ m_Settings d' = m_Settings d.
Proof.
  destruct c as [p|p|p|p|n]; simpl;
    unfold VisitBaseType, VisitPointerTypeEnd, VisitArrayTypeEnd,
           VisitFunctionTypeEnd, SetMemberName.
  - destruct (mem !! p) as [s|]; [|discriminate]. intros [= <- <-].
    exists (GetBasicTypeString s (UseStdInt (m_Settings d))), "".
    cbn. now rewrite append_empty_r.
  - intros [= <- <-]. exists "*", "". cbn. now rewrite append_empty_r.
  - destruct (mem !! p) as [s|]; [|discriminate].
    destruct (Array_ElementCount s) as [n|]; [|discriminate].
    destruct (n =? 0)%N; intros [= <- <-].
    + exists "*", "". cbn. now rewrite append_empty_r.
    + exists "", (("[" +:+ to_string n) +:+ "]"). cbn. now rewrite append_empty_r.
  - intros [= <- <-]. exists "void", "". cbn. now rewrite append_empty_r.
  - intros [= <- <-]. exists "", "". cbn. now rewrite !append_empty_r.
Qed.

(** X1.  Whatever the calls, the printer only appends: the prefix and the
    suffix it ends with start with the prefix and the suffix it began
    with, and the settings are the same. *)
Theorem calls_only_append (cs : list Callback) :
  forall (d : UserDataFieldDefinition) (mem : gmap positive SYMBOL)
         (d' : UserDataFieldDefinition) (mem' : gmap positive SYMBOL),
  calls GetBasicTypeString cs (d, mem) = Some (d', mem') ->
  exists more_prefix more_suffix,
    m_TypePrefix d' = m_TypePrefix d +:+ more_prefix
    /\ m_TypeSuffix d' = m_TypeSuffix d +:+ more_suffix
    /\ m_Settings d' = m_Settings d.
Proof.
  induction cs as [|c cs IH]; intros d mem d' mem'; simpl.
  - intros [= <- <-]. exists "", "". now rewrite !append_empty_r.
  - destruct (call GetBasicTypeString c (d, mem)) as [[d1 mem1]|] eqn:E; [|discriminate].
    intros H. destruct (call_only_appends _ _ _ _ _ E) as (p1 & s1 & Hp1 & Hs1 & Hg1).
    destruct (IH _ _ _ _ H) as (p2 & s2 & Hp2 & Hs2 & Hg2).
    exists (p1 +:+ p2), (s1 +:+ s2).
    rewrite Hp2, Hs2, Hg2, Hp1, Hs1, Hg1, !FieldDefinition_Facts.append_assoc.
    auto.
Qed.

(** ** What the calls do to the memory *)

Lemma call_memory c d mem d' mem' :
  call GetBasicTypeString c (d, mem) = Some (d', mem') ->
  forall p,
    (array_end_called p [c] = false -> mem' !! p = mem !! p)
    /\ (array_end_called p [c] = true ->
          exists s n, mem !! p = Some s
                      /\ Array_ElementCount s = Some n
                      /\ mem' !! p = Some (if (n =? 0)%N then set_Size 1 s else s)).
Proof.
  destruct c as [q|q|q|q|n]; simpl;
    unfold VisitBaseType, VisitPointerTypeEnd, VisitFunctionTypeEnd, SetMemberName.
  1: destruct (mem !! q); [|discriminate].
  1, 2, 4, 5: intros [= <- <-] p; split; [reflexivity | discriminate].
  unfold VisitArrayTypeEnd.
  destruct (mem !! q) as [s|] eqn:Eq; [|discriminate].
  destruct (Array_ElementCount s) as [n|] eqn:En; [|discriminate].
  intros H p. rewrite orb_false_r.
  destruct (decide (q = p)) as [-> | Hne].
  - rewrite bool_decide_eq_true_2 by reflexivity.
    split; [discriminate|]. intros _. exists s, n.
    destruct (n =? 0)%N; injection H as <- <-;
      rewrite ?lookup_insert_eq; auto.
  - rewrite bool_decide_eq_false_2 by exact Hne.
    split; [|discriminate]. intros _.
    destruct (n =? 0)%N; injection H as <- <-;
      rewrite ?lookup_insert_ne by exact Hne; reflexivity.
Qed.

(** X2.  What a sequence of calls does to the symbols: a symbol that
    [VisitArrayTypeEnd] was not called with is as it was; a symbol it was
    called with is an array, and is as it was except that a zero element
    count has made its size 1. *)
Theorem calls_memory (cs : list Callback) :
  forall (d : UserDataFieldDefinition) (mem : gmap positive SYMBOL)
         (d' : UserDataFieldDefinition) (mem' : gmap positive SYMBOL),
  calls GetBasicTypeString cs (d, mem) = Some (d', mem') ->
  forall p,
    (array_end_called p cs = false -> mem' !! p = mem !! p)
    /\ (array_end_called p cs = true ->
          exists s n, mem !! p = Some s
                      /\ Array_ElementCount s = Some n
                      /\ mem' !! p = Some (if (n =? 0)%N then set_Size 1 s else s)).
Proof.
  induction cs as [|c cs IH]; intros d mem d' mem'; simpl.
  - intros [= <- <-] p. split; [reflexivity | discriminate].
  - destruct (call GetBasicTypeString c (d, mem)) as [[d1 mem1]|] eqn:E; [|discriminate].
    intros H p.
    destruct (call_memory _ _ _ _ _ E p) as [Hc0 Hc1].
    destruct (IH _ _ _ _ H p) as [Hr0 Hr1].
    simpl in Hc0, Hc1. rewrite orb_false_r in Hc0, Hc1.
    split.
    + rewrite orb_false_iff. intros [H1 H2]. rewrite (Hr0 H2). now apply Hc0.
    + intros Hcalled.
      destruct (array_end_called p cs) eqn:Hrest.
      * destruct (Hr1 eq_refl) as (s1 & n & E1 & C1 & E').
        destruct (FieldDefinition_Facts.call_fixes _ _ _ _ _ _ E p)
          as [Esame | (s & Es & Cs & Es1)].
        -- exists s1, n. rewrite <- Esame. auto.
        -- rewrite Es1 in E1. injection E1 as <-.
           change (Array_ElementCount (set_Size 1 s)) with (Array_ElementCount s) in C1.
           rewrite Cs in C1. injection C1 as <-.
           exists s, 0%N. simpl in *. auto.
      * rewrite orb_false_r in Hcalled.
        destruct (Hc1 Hcalled) as (s & n & Es & Cs & Es1).
        exists s, n. rewrite (Hr0 eq_refl). auto.
Qed.

(** ** Where the member name is set *)

(** A visit does not look at the member name and does not touch it. *)
Lemma call_with_MemberName c name d mem :
  is_visit c = true ->
  call GetBasicTypeString c (with_MemberName name d, mem)
  = match call GetBasicTypeString c (d, mem) with
    | Some (d1, mem1) => Some (with_MemberName name d1, mem1)
    | None => None
    end.
Proof.
  destruct c as [p|p|p|p|m]; simpl; try discriminate; intros _;
    unfold VisitBaseType, VisitPointerTypeEnd, VisitArrayTypeEnd, VisitFunctionTypeEnd;
    repeat case_match; simplify_eq; reflexivity.
Qed.

Lemma calls_with_MemberName cs name : forall d mem,
  forallb is_visit cs = true ->
  calls GetBasicTypeString cs (with_MemberName name d, mem)
  = match calls GetBasicTypeString cs (d, mem) with
    | Some (d1, mem1) => Some (with_MemberName name d1, mem1)
    | None => None
    end.
Proof.
  induction cs as [|c cs IH]; intros d mem; [reflexivity|].
  cbn [forallb calls]. rewrite andb_true_iff. intros [Hc Hcs].
  rewrite (call_with_MemberName c name d mem Hc).
  destruct (call GetBasicTypeString c (d, mem)) as [[d1 mem1]|]; [|reflexivity].
  now apply IH.
Qed.

Lemma SetMemberName_last n cs : forall st,
  forallb is_visit cs = true ->
  calls GetBasicTypeString (CallSetMemberName n :: cs) st
  = calls GetBasicTypeString (cs ++ [CallSetMemberName n]) st.
Proof.
  intros [d mem] Hcs. rewrite calls_app.
  change (calls GetBasicTypeString (CallSetMemberName n :: cs) (d, mem))
    with (calls GetBasicTypeString cs (with_MemberName (default "" n) d, mem)).
  rewrite (calls_with_MemberName cs _ d mem Hcs).
  destruct (calls GetBasicTypeString cs (d, mem)) as [[d1 mem1]|]; reflexivity.
Qed.

(** X3.  It does not matter at which point of the chain the member name
    is set: setting it between the visits gives the same printer and the
    same memory as setting it after them. *)
Theorem member_name_anywhere
    (cs1 cs2 : list Callback) (n : option string) (st : State) :
  forallb is_visit cs2 = true ->
  calls GetBasicTypeString (cs1 ++ CallSetMemberName n :: cs2) st
  = calls GetBasicTypeString (cs1 ++ cs2 ++ [CallSetMemberName n]) st.
Proof.
  intros Hcs2. rewrite !calls_app.
  destruct (calls GetBasicTypeString cs1 st) as [st1|]; [|reflexivity].
  now apply SetMemberName_last.
Qed.

End WithBasicTypes.

Lemma calls_only_append_witness :
  exists more_prefix more_suffix,
    "int*" = "" +:+ more_prefix /\ "[8]" = "" +:+ more_suffix
    /\ DefaultSettings = DefaultSettings.
Proof.
  exact (calls_only_append Examples.sample_GetBasicTypeString
           [CallVisitBaseType 1; CallVisitPointerTypeEnd 4; CallVisitArrayTypeEnd 3]
           (fresh DefaultSettings) Examples.sample_memory
           {| m_TypePrefix := "int*"; m_MemberName := ""; m_TypeSuffix := "[8]";
              m_Comment := ""; m_Settings := DefaultSettings |}
           Examples.sample_memory eq_refl).
Defined.

Lemma calls_memory_witness :
  (array_end_called 2 [CallVisitBaseType 1; CallVisitArrayTypeEnd 2] = false ->
     <[2%positive := {| Size := 1; Name := None; u := Array 1 0 |}]>
       Examples.sample_memory !! 2%positive
     = Examples.sample_memory !! 2%positive)
  /\ (array_end_called 2 [CallVisitBaseType 1; CallVisitArrayTypeEnd 2] = true ->
        exists s n, Examples.sample_memory !! 2%positive = Some s
                    /\ Array_ElementCount s = Some n
                    /\ <[2%positive := {| Size := 1; Name := None; u := Array 1 0 |}]>
                         Examples.sample_memory !! 2%positive
                       = Some (if (n =? 0)%N then set_Size 1 s else s)).
Proof.
  exact (calls_memory Examples.sample_GetBasicTypeString
           [CallVisitBaseType 1; CallVisitArrayTypeEnd 2]
           (fresh DefaultSettings) Examples.sample_memory
           {| m_TypePrefix := "int*"; m_MemberName := ""; m_TypeSuffix := "";
              m_Comment := ""; m_Settings := DefaultSettings |}
           (<[2%positive := {| Size := 1; Name := None; u := Array 1 0 |}]>
              Examples.sample_memory)
           eq_refl 2%positive).
Defined.

Lemma member_name_anywhere_witness :
  calls Examples.sample_GetBasicTypeString
    ([CallVisitBaseType 1] ++ CallSetMemberName (Some "Data") :: [CallVisitArrayTypeEnd 3])
    (fresh DefaultSettings, Examples.sample_memory)
  = calls Examples.sample_GetBasicTypeString
      ([CallVisitBaseType 1] ++ [CallVisitArrayTypeEnd 3] ++ [CallSetMemberName (Some "Data")])
      (fresh DefaultSettings, Examples.sample_memory).
Proof.
  apply (member_name_anywhere Examples.sample_GetBasicTypeString). reflexivity.
Defined.

Lemma array_suffix_tells_count_witness :
  VisitArrayTypeEnd 3 (fresh DefaultSettings, sample_memory_two_arrays)
    = Some (with_TypeSuffix "[8]" (fresh DefaultSettings), sample_memory_two_arrays)
  /\ VisitArrayTypeEnd 9 (fresh DefaultSettings, sample_memory_two_arrays)
      = Some (with_TypeSuffix "[8]" (fresh DefaultSettings), sample_memory_two_arrays)
  /\ 8%N = 8%N.
Proof.
  split; [reflexivity|]. split; [reflexivity|].
  apply (array_suffix_tells_count 3 9 (fresh DefaultSettings)
           (with_TypeSuffix "[8]" (fresh DefaultSettings))
           (with_TypeSuffix "[8]" (fresh DefaultSettings))
           sample_memory_two_arrays sample_memory_two_arrays sample_memory_two_arrays
           {| Size := 32; Name := None; u := Array 1 8 |}
           {| Size := 64; Name := None; u := Array 4 8 |} 1 4 8 8);
    try reflexivity; discriminate.
Defined.

End FieldDefinition_More.

(* ===================================================================== *)
(** * More on the driver *)
(* ===================================================================== *)

Module Extractor_More.

Import Extractor More Extractor_Facts.

Section Facts.

Context `{Collaborators}.

(** ** Help *)

Lemma write_all_emits to texts : forall w,
  write_all to texts w = (Ok tt, emits (map (Write to) texts) w).
Proof.
  induction texts as [|t texts IH]; intros w; simpl.
  - now rewrite emits_nil.
  - unfold bind, write, modify. rewrite IH, emit_emits, emits_emits. reflexivity.
Qed.

(** A turn of the loop returns or throws the invalid-parameters
    exception with the state as it was. *)
Lemma ParseOption_outcome a next w :
  (exists stepped w', ParseOption a next w = (Ok stepped, w'))
  \/ ParseOption a next w = (Throw MESSAGE_INVALID_PARAMETERS, w).
Proof.
  unfold ParseOption. destruct (rejected_shape a); [now right|].
  destruct (char_at a 1) as [[] [] [] [] [] [] [] []];
    try (now right); destruct next; try (now right); left; eexists _, _; reflexivity.
Qed.

Lemma ParseOptions_outcome_fuel (n : nat) : forall args w,
  length args <= n ->
  (exists w', ParseOptions args w = (Ok tt, w'))
  \/ (exists w', ParseOptions args w = (Throw MESSAGE_INVALID_PARAMETERS, w')).
Proof.
  induction n as [|n IH]; intros args w Hlen.
  - destruct args; [|simpl in Hlen; lia]. left. eexists. reflexivity.
  - destruct args as [|a rest]; [left; eexists; reflexivity|].
    simpl in Hlen. rewrite ParseOptions_cons.
    destruct (ParseOption_outcome a (head rest) w) as [([] & w1 & ->) | ->].
    + apply IH. destruct rest; simpl in *; lia.
    + apply IH. lia.
    + right. eauto.
Qed.

Lemma ParseOptions_outcome args w :
  (exists w', ParseOptions args w = (Ok tt, w'))
  \/ (exists w', ParseOptions args w = (Throw MESSAGE_INVALID_PARAMETERS, w')).
Proof. now apply (ParseOptions_outcome_fuel (length args)). Qed.

(** No option touches the symbol name or the path. *)
Lemma ParseOption_names a next w r w' :
  ParseOption a next w = (r, w') ->
  SymbolName (m_Settings w') = SymbolName (m_Settings w)
  /\ PdbPath (m_Settings w') = PdbPath (m_Settings w).
Proof.
  unfold ParseOption. destruct (rejected_shape a); [now intros [= _ <-]|].
  destruct (char_at a 1) as [[] [] [] [] [] [] [] []];
    try (now intros [= _ <-]);
    destruct next; now intros [= _ <-].
Qed.

Lemma ParseOptions_names_fuel (n : nat) : forall args w r w',
  length args <= n ->
  ParseOptions args w = (r, w') ->
  SymbolName (m_Settings w') = SymbolName (m_Settings w)
  /\ PdbPath (m_Settings w') = PdbPath (m_Settings w).
Proof.
  induction n as [|n IH]; intros args w r w' Hlen.
  - destruct args; [|simpl in Hlen; lia]. now intros [= _ <-].
  - destruct args as [|a rest]; [now intros [= _ <-]|].
    simpl in Hlen. rewrite ParseOptions_cons.
    destruct (ParseOption a (head rest) w) as [r1 w1] eqn:E.
    destruct (ParseOption_names _ _ _ _ _ E) as [Hs Hp].
    destruct r1 as [[]|what|status|]; try (intros [= _ <-]; now split).
    + intros E2. apply IH in E2; [|destruct rest; simpl in *; lia].
      destruct E2 as [-> ->]. now split.
    + intros E2. apply IH in E2; [|lia].
      destruct E2 as [-> ->]. now split.
Qed.

Lemma ParseOptions_names args w r w' :
  ParseOptions args w = (r, w') ->
  SymbolName (m_Settings w') = SymbolName (m_Settings w)
  /\ PdbPath (m_Settings w') = PdbPath (m_Settings w).
Proof. now apply (ParseOptions_names_fuel (length args)). Qed.

(** X5.  Without an argument, or with [-h] or [--help] as the only
    argument, [Run] prints the usage text to the standard output and
    leaves the process with the success status: it does not return, and
    nothing else of the state changes.  With two or more arguments
    nothing is special about [-h]: the first two are taken as the symbol
    name and the path, whatever they are, and the parse returns with
    them in the settings or throws the invalid-parameters exception. *)
Theorem Run_help (prog : string) (w : World) :
  Run [prog] w = (Exit EXIT_SUCCESS, emits (map (Write cout) usage) w)
  /\ Run [prog; "-h"] w = (Exit EXIT_SUCCESS, emits (map (Write cout) usage) w)
  /\ Run [prog; "--help"] w = (Exit EXIT_SUCCESS, emits (map (Write cout) usage) w)
  /\ (forall a1 a2 args,
        (exists w', ParseParameters (prog :: a1 :: a2 :: args) w = (Ok tt, w')
                    /\ SymbolName (m_Settings w') = a1
                    /\ PdbPath (m_Settings w') = a2)
        \/ (exists w', ParseParameters (prog :: a1 :: a2 :: args) w
                       = (Throw MESSAGE_INVALID_PARAMETERS, w'))).
Proof.
  assert (forall argv, ParseParameters argv w = bind PrintUsage (fun _ => exit EXIT_SUCCESS) w ->
            Run argv w = (Exit EXIT_SUCCESS, emits (map (Write cout) usage) w)) as Hhelp.
  { intros argv E. unfold Run, Run_try. unfold bind at 1. rewrite E.
    unfold bind, PrintUsage. now rewrite write_all_emits. }
  split; [now apply Hhelp|]. split; [now apply Hhelp|]. split; [now apply Hhelp|].
  intros a1 a2 args. unfold ParseParameters.
  do 2 (erewrite bind_Ok; [|reflexivity]).
  unfold bind.
  match goal with |- context [ParseOptions args ?w0] =>
    destruct (ParseOptions_outcome args w0) as [(w1 & E) | (w1 & E)];
    rewrite E; pose proof (ParseOptions_names _ _ _ _ E) as [Hs Hp]
  end.
  - left. eexists. split; [reflexivity|]. simpl in *. now split.
  - right. eauto.
Qed.

(** ** Options that take a value *)

Ltac letter_cases Hin :=
  simpl in Hin;
  repeat (destruct Hin as [Hin|Hin]; [symmetry in Hin|]); [..|destruct Hin].

(** X6.  An argument the loop reads as one of the options [o], [t],
    [e], [u], [s], [r], [g] takes the argument that follows as its
    value, whatever that argument looks like (a switch such as [-p], the
    empty string): the turn returns, the loop goes on after the value,
    and the value is stored as it is: as the prefix or suffix, as the
    name of the output or test file together with a stream newly made
    for it, or, for [e], through its first character. *)
Theorem value_option_takes_next (a v : string) (rest : list string) (w : World) :
  rejected_shape a = false ->
  In (char_at a 1) value_letters ->
  exists w1,
    ParseOption a (Some v) w = (Ok true, w1)
    /\ ParseOptions (a :: v :: rest) w = ParseOptions rest w1
    /\ let s := m_Settings w1 in
       let r := PdbHeaderReconstructorSettings s in
       (char_at a 1 = "u"%char -> AnonymousUnionPrefix r = v)
       /\ (char_at a 1 = "s"%char -> AnonymousStructPrefix r = v)
       /\ (char_at a 1 = "r"%char -> SymbolPrefix r = v)
       /\ (char_at a 1 = "g"%char -> SymbolSuffix r = v)
       /\ (char_at a 1 = "e"%char -> MemberStructExpansion r = expansion_of v)
       /\ (char_at a 1 = "o"%char ->
             OutputFilename s = Some v
             /\ OutputFile r = ofstream (next_stream w)
             /\ streams w1 !! next_stream w = Some v)
       /\ (char_at a 1 = "t"%char ->
             TestFilename s = Some v
             /\ TestFile r = Some (ofstream (next_stream w))
             /\ streams w1 !! next_stream w = Some v).
Proof.
  intros Hshape Hin.
  assert (exists w1, ParseOption a (Some v) w = (Ok true, w1)
            /\ let s := m_Settings w1 in
               let r := PdbHeaderReconstructorSettings s in
               (char_at a 1 = "u"%char -> AnonymousUnionPrefix r = v)
               /\ (char_at a 1 = "s"%char -> AnonymousStructPrefix r = v)
               /\ (char_at a 1 = "r"%char -> SymbolPrefix r = v)
               /\ (char_at a 1 = "g"%char -> SymbolSuffix r = v)
               /\ (char_at a 1 = "e"%char -> MemberStructExpansion r = expansion_of v)
               /\ (char_at a 1 = "o"%char ->
                     OutputFilename s = Some v
                     /\ OutputFile r = ofstream (next_stream w)
                     /\ streams w1 !! next_stream w = Some v)
               /\ (char_at a 1 = "t"%char ->
                     TestFilename s = Some v
                     /\ TestFile r = Some (ofstream (next_stream w))
                     /\ streams w1 !! next_stream w = Some v)) as (w1 & E & Hstored).
  { unfold ParseOption. rewrite Hshape.
    letter_cases Hin; rewrite Hin; eexists; (split; [reflexivity|]);
      simpl;
      repeat match goal with
             | |- _ /\ _ => split
             | |- _ -> _ => intros ?
             end;
      try discriminate; try reflexivity; apply lookup_insert_eq. }
  exists w1. split; [exact E|]. split; [|exact Hstored].
  rewrite ParseOptions_cons. simpl. now rewrite E.
Qed.

(** X7.  One of the options [o], [t], [e], [u], [s], [r], [g] as the
    last argument has no value to take:
    after any arguments that parse, the loop throws the
    invalid-parameters exception, and the state is the one those
    arguments left (no stream is made for a missing file name). *)
Theorem value_option_without_value (pre : list string) (a : string) (w w' : World) :
  ParseOptions pre w = (Ok tt, w') ->
  rejected_shape a = false ->
  In (char_at a 1) value_letters ->
  ParseOptions (pre ++ [a]) w = (Throw MESSAGE_INVALID_PARAMETERS, w').
Proof.
  intros Epre Hshape Hin.
  rewrite (ParseOptions_app _ _ _ _ Epre), ParseOptions_cons. simpl.
  unfold ParseOption. rewrite Hshape.
  letter_cases Hin; rewrite Hin; reflexivity.
Qed.

(** X8.  The [default] label of the switch: an argument the loop reads
    as an option and whose second character is none of the seventeen
    option letters throws the invalid-parameters exception, whatever
    follows it, with the state the arguments before it left. *)
Theorem unknown_option_letter (pre : list string) (a : string) (post : list string)
    (w w' : World) :
  ParseOptions pre w = (Ok tt, w') ->
  ~ In (char_at a 1) option_letters ->
  ParseOptions (pre ++ a :: post) w = (Throw MESSAGE_INVALID_PARAMETERS, w').
Proof.
  intros Epre Hletter.
  rewrite (ParseOptions_app _ _ _ _ Epre), ParseOptions_cons.
  now rewrite (ParseOption_unknown_letter _ _ _ Hletter).
Qed.

(** ** Switches *)

(** X9.  A switch takes no value and the last one wins: two arguments
    in a row that the loop reads as the same switch letter (on or off,
    in any of the accepted spellings) parse as the second alone. *)
Theorem last_switch_wins (a b : string) (rest : list string) (w : World) :
  rejected_shape a = false ->
  rejected_shape b = false ->
  char_at b 1 = char_at a 1 ->
  In (char_at a 1) switch_letters ->
  ParseOptions (a :: b :: rest) w = ParseOptions (b :: rest) w.
Proof.
  intros Ha Hb Hab Hin.
  rewrite (ParseOptions_cons a). unfold ParseOption at 1. rewrite Ha.
  letter_cases Hin; rewrite Hin;
    unfold assign, bind, modify, ret; cbv beta iota;
    rewrite !(ParseOptions_cons b); unfold ParseOption; rewrite Hb, Hab, Hin;
    reflexivity.
Qed.

(** ** What parsing leaves alone *)

Lemma parse_keeps_refl w : parse_keeps w w.
Proof. unfold parse_keeps. repeat split; auto. Qed.

Lemma parse_keeps_trans w1 w2 w3 :
  parse_keeps w1 w2 -> parse_keeps w2 w3 -> parse_keeps w1 w3.
Proof.
  intros (Ht1 & Hm1 & Hp1 & Ha1 & Hn1 & Hs1) (Ht2 & Hm2 & Hp2 & Ha2 & Hn2 & Hs2).
  unfold parse_keeps. rewrite Ht2, Hm2, Hp2, Ha2.
  repeat (split; [assumption || lia|]).
  intros Hf. destruct (Hs1 Hf) as [Hf2 Hsub1]. destruct (Hs2 Hf2) as [Hf3 Hsub2].
  split; [exact Hf3|]. etrans; eassumption.
Qed.

Lemma parse_keeps_with_Settings f w : parse_keeps w (with_Settings f w).
Proof. unfold parse_keeps. simpl. repeat split; auto. Qed.

Lemma parse_keeps_new_ofstream v w : parse_keeps w (new_ofstream v w).2.
Proof.
  unfold parse_keeps. simpl. repeat (split; [reflexivity || lia|]).
  intros Hf. split.
  - intros h [name Hh]. unfold streams_fresh in Hf. simpl in *.
    destruct (decide (h = next_stream w)) as [->|Hne]; [lia|].
    rewrite lookup_insert_ne in Hh by congruence.
    specialize (Hf h (ex_intro _ name Hh)). lia.
  - apply insert_subseteq.
    destruct (streams w !! next_stream w) as [name|] eqn:E; [|reflexivity].
    specialize (Hf _ (ex_intro _ name E)). lia.
Qed.

Lemma ParseOption_keeps a next w r w' :
  ParseOption a next w = (r, w') -> parse_keeps w w'.
Proof.
  assert (forall v f g,
            parse_keeps w
              (with_Settings f (new_ofstream v (with_Settings g w)).2)) as Hnew.
  { intros v f g.
    eapply parse_keeps_trans; [|apply parse_keeps_with_Settings].
    eapply parse_keeps_trans; [apply (parse_keeps_with_Settings g)|].
    apply parse_keeps_new_ofstream. }
  unfold ParseOption. destruct (rejected_shape a); [intros [= _ <-]; apply parse_keeps_refl|].
  destruct (char_at a 1) as [[] [] [] [] [] [] [] []];
    try (intros [= _ <-]; apply parse_keeps_refl);
    try (intros [= _ <-]; apply parse_keeps_with_Settings);
    destruct next;
    try (intros [= _ <-]; apply parse_keeps_refl);
    try (intros [= _ <-]; apply parse_keeps_with_Settings);
    intros [= _ <-]; apply Hnew.
Qed.

Lemma ParseOptions_keeps_fuel (n : nat) : forall args w r w',
  length args <= n ->
  ParseOptions args w = (r, w') -> parse_keeps w w'.
Proof.
  induction n as [|n IH]; intros args w r w' Hlen.
  - destruct args; [|simpl in Hlen; lia]. intros [= _ <-]. apply parse_keeps_refl.
  - destruct args as [|a rest]; [intros [= _ <-]; apply parse_keeps_refl|].
    simpl in Hlen. rewrite ParseOptions_cons.
    destruct (ParseOption a (head rest) w) as [r1 w1] eqn:E.
    pose proof (ParseOption_keeps _ _ _ _ _ E) as H1.
    destruct r1 as [[]|what|status|]; try (now intros [= _ <-]).
    + intros E2. apply IH in E2; [|destruct rest; simpl in *; lia].
      eapply parse_keeps_trans; eassumption.
    + intros E2. apply IH in E2; [|lia].
      eapply parse_keeps_trans; eassumption.
Qed.

Lemma ParseOptions_keeps args w r w' :
  ParseOptions args w = (r, w') -> parse_keeps w w'.
Proof. now apply (ParseOptions_keeps_fuel (length args)). Qed.

Lemma ParseParameters_keeps a0 a1 a2 args w r w' :
  ParseParameters (a0 :: a1 :: a2 :: args) w = (r, w') -> parse_keeps w w'.
Proof.
  unfold ParseParameters.
  do 2 (erewrite bind_Ok; [|reflexivity]).
  unfold bind.
  match goal with |- context [ParseOptions args ?w0] =>
    destruct (ParseOptions args w0) as [r1 w1] eqn:E;
    apply ParseOptions_keeps in E
  end.
  assert (parse_keeps w w1) as H1.
  { eapply parse_keeps_trans; [|exact E].
    eapply parse_keeps_trans; apply parse_keeps_with_Settings. }
  destruct r1 as [[]|what|status|]; intros [= _ <-]; [|exact H1..].
  eapply parse_keeps_trans; [exact H1|].
  unfold parse_keeps. simpl. repeat split; auto.
Qed.

(** X10.  Parsing prints nothing and touches neither the symbols, the
    opened file nor the architecture, whether it returns or throws; the
    only streams it changes are the ones it makes: as long as the
    allocation counter is above the live streams, every stream that was
    live before is live afterwards under its name (none is ended or
    replaced), and the counter stays above them.  This holds for the
    option loop and for [ParseParameters] with at least a symbol name
    and a path. *)
Theorem parsing_keeps (args : list string) (w : World) :
  parse_keeps w (ParseOptions args w).2
  /\ forall prog sym path,
       parse_keeps w (ParseParameters (prog :: sym :: path :: args) w).2.
Proof.
  split.
  - destruct (ParseOptions args w) as [r w'] eqn:E. eapply ParseOptions_keeps, E.
  - intros prog sym path.
    destruct (ParseParameters (prog :: sym :: path :: args) w) as [r w'] eqn:E.
    eapply ParseParameters_keeps, E.
Qed.

(** ** The sorter's passes over the symbols *)

Lemma SymbolSorter_Visit_spec e w s :
  m_SymbolSorter w = Some s ->
  SymbolSorter_Visit e w
    = (Ok tt, with_SymbolSorter (Some (Sorter_Visit e (memory w) s)) w).
Proof.
  unfold SymbolSorter_Visit, bind, the_sorter, get, modify. now intros ->.
Qed.

Lemma with_SymbolSorter_same w s :
  m_SymbolSorter w = Some s -> with_SymbolSorter (Some s) w = w.
Proof. destruct w. simpl. now intros ->. Qed.

Lemma visit_all_spec es : forall w s,
  m_SymbolSorter w = Some s ->
  visit_all es w = (Ok tt, with_SymbolSorter (Some (visits es (memory w) s)) w).
Proof.
  induction es as [|e es IH]; intros w s Hs; simpl.
  - unfold ret. now rewrite with_SymbolSorter_same.
  - rewrite (bind_Ok _ _ _ _ _ (SymbolSorter_Visit_spec e.2 w s Hs)).
    now rewrite (IH (with_SymbolSorter (Some (Sorter_Visit e.2 (memory w) s)) w)
                   (Sorter_Visit e.2 (memory w) s) eq_refl).
Qed.

Lemma GetArchitecture_loop_spec es : forall w s,
  m_SymbolSorter w = Some s ->
  let after j := visits (take j es) (memory w) s in
  (exists k,
      k < length es
      /\ (forall j, 1 <= j <= k -> Sorter_GetImageArchitecture (after j) = ArchNone)
      /\ Sorter_GetImageArchitecture (after (S k)) <> ArchNone
      /\ GetArchitecture_loop es w =
           (Ok tt,
            with_SymbolSorter (Some (Sorter_Clear (after (S k))))
              (with_Architecture (Sorter_GetImageArchitecture (after (S k))) w)))
  \/ ((forall j, 1 <= j <= length es ->
         Sorter_GetImageArchitecture (after j) = ArchNone)
      /\ GetArchitecture_loop es w = (Ok tt, with_SymbolSorter (Some (after (length es))) w)).
Proof.
  induction es as [|e es IH]; intros w s Hs after.
  - right. split; [simpl; intros j Hj; lia|].
    simpl. unfold ret, after. simpl. now rewrite with_SymbolSorter_same.
  - set (s1 := Sorter_Visit e.2 (memory w) s).
    assert (GetArchitecture_loop (e :: es) w =
              if decide (Sorter_GetImageArchitecture s1 = ArchNone)
              then GetArchitecture_loop es (with_SymbolSorter (Some s1) w)
              else (Ok tt,
                    with_SymbolSorter (Some (Sorter_Clear s1))
                      (with_Architecture (Sorter_GetImageArchitecture s1) w))) as ->.
    { simpl GetArchitecture_loop.
      rewrite (bind_Ok _ _ _ _ _ (SymbolSorter_Visit_spec e.2 w s Hs)). fold s1.
      unfold bind at 1. unfold the_sorter. simpl m_SymbolSorter. cbv beta iota.
      now destruct (decide _). }
    destruct (decide (Sorter_GetImageArchitecture s1 = ArchNone)) as [Hnone|Hsome].
    + destruct (IH (with_SymbolSorter (Some s1) w) s1 eq_refl)
        as [(k & Hk & Hbefore & Hat & E) | (Hall & E)].
      * left. exists (S k). split; [simpl; lia|]. split; [|split].
        -- intros [|[|j]] Hj; [lia|exact Hnone|]. apply (Hbefore (S j)). lia.
        -- exact Hat.
        -- rewrite E. reflexivity.
      * right. split.
        -- intros [|[|j]] Hj; [lia|exact Hnone|]. apply (Hall (S j)). simpl in Hj. lia.
        -- rewrite E. reflexivity.
    + left. exists 0. split; [simpl; lia|]. split; [intros j Hj; lia|].
      split; [exact Hsome|]. reflexivity.
Qed.

(** X11.  [GetArchitecture] visits the symbols of the map in order and
    stops at the first one after which the sorter knows the
    architecture: it stores that architecture and clears the sorter, so
    that none of the symbols visited for it stays in the sorter.  When
    the sorter knows no architecture after any symbol, the stored
    architecture is left as it was and the sorter keeps every symbol of
    the map. *)
Theorem GetArchitecture_first (w : World) (p : PDBFile) (s : Sorter) :
  m_PDB w = Some p ->
  m_SymbolSorter w = Some s ->
  let after j := visits (take j (GetSymbolMap p)) (memory w) s in
  (exists k,
      k < length (GetSymbolMap p)
      /\ (forall j, 1 <= j <= k -> Sorter_GetImageArchitecture (after j) = ArchNone)
      /\ Sorter_GetImageArchitecture (after (S k)) <> ArchNone
      /\ GetArchitecture w =
           (Ok tt,
            with_SymbolSorter (Some (Sorter_Clear (after (S k))))
              (with_Architecture (Sorter_GetImageArchitecture (after (S k))) w)))
  \/ ((forall j, 1 <= j <= length (GetSymbolMap p) ->
         Sorter_GetImageArchitecture (after j) = ArchNone)
      /\ GetArchitecture w
         = (Ok tt, with_SymbolSorter (Some (visits (GetSymbolMap p) (memory w) s)) w)).
Proof.
  intros Hp Hs after.
  assert (GetArchitecture w = GetArchitecture_loop (GetSymbolMap p) w) as ->.
  { unfold GetArchitecture, bind, the_PDB. now rewrite Hp. }
  destruct (GetArchitecture_loop_spec (GetSymbolMap p) w s Hs)
    as [(k & Hk & Hbefore & Hat & E) | (Hall & E)].
  - left. exists k. auto.
  - right. split; [exact Hall|]. rewrite E. now rewrite firstn_all.
Qed.

(** ** What the header leaves alone *)

Lemma header_keeps_refl w : header_keeps w w.
Proof. unfold header_keeps. auto. Qed.

Lemma header_keeps_trans w1 w2 w3 :
  header_keeps w1 w2 -> header_keeps w2 w3 -> header_keeps w1 w3.
Proof.
  intros (A1 & B1 & C1 & D1 & E1) (A2 & B2 & C2 & D2 & E2).
  unfold header_keeps. rewrite A2, B2, C2, D2, E2. auto.
Qed.

Lemma header_keeps_same w w' : w' = w -> header_keeps w w'.
Proof. intros ->. apply header_keeps_refl. Qed.

Lemma header_keeps_bind {A B} (m : M A) (k : A -> M B) :
  (forall w, header_keeps w (m w).2) ->
  (forall a w, header_keeps w (k a w).2) ->
  forall w, header_keeps w (bind m k w).2.
Proof. apply bind_rel. exact header_keeps_trans. Qed.

Lemma header_keeps_the_sorter w : header_keeps w (the_sorter w).2.
Proof. unfold the_sorter. destruct (m_SymbolSorter w); apply header_keeps_refl. Qed.

Lemma header_keeps_the_PDB w : header_keeps w (the_PDB w).2.
Proof. unfold the_PDB. destruct (m_PDB w); apply header_keeps_refl. Qed.

Lemma header_keeps_sprintf_s text w : header_keeps w (sprintf_s text w).2.
Proof. unfold sprintf_s. case_match; apply header_keeps_refl. Qed.

Lemma header_keeps_modify f w :
  (forall w, header_keeps w (f w)) -> header_keeps w (modify f w).2.
Proof. intros Hf. apply Hf. Qed.

Ltac header_step :=
  first
    [ apply header_keeps_bind; intros
    | apply header_keeps_the_sorter
    | apply header_keeps_the_PDB
    | apply header_keeps_sprintf_s
    | apply header_keeps_modify; intros; unfold header_keeps; simpl; tauto
    | apply header_keeps_refl ].

Lemma header_keeps_SymbolSorter_Visit p w : header_keeps w (SymbolSorter_Visit p w).2.
Proof. unfold SymbolSorter_Visit. repeat header_step. Qed.

Lemma header_keeps_GetArchitecture_loop es : forall w,
  header_keeps w (GetArchitecture_loop es w).2.
Proof.
  induction es as [|e es IH]; simpl; [apply header_keeps_refl|].
  header_step; [apply header_keeps_SymbolSorter_Visit|].
  header_step; [header_step|].
  case_match; [apply IH|]. repeat header_step.
Qed.

Lemma PrintPDBHeader_keeps w : header_keeps w (PrintPDBHeader w).2.
Proof.
  unfold PrintPDBHeader. header_step; [header_step|].
  case_match; [|header_step].
  header_step.
  - unfold GetArchitecture. header_step; [header_step|].
    apply header_keeps_GetArchitecture_loop.
  - header_step; [header_step|]. header_step; [header_step|].
    unfold write. header_step.
Qed.

(** ** The definitions *)

Lemma runs_cons e es w :
  runs (e :: es) w = runs es (with_memory (Visitor_Run (m_Settings w) e) (emit (RunVisitor e) w)).
Proof. reflexivity. Qed.

Lemma runs_world es : forall w,
  runs es w =
    with_memory (fun _ => corrected (m_Settings w) es (memory w))
      (emits (map RunVisitor es) w).
Proof.
  induction es as [|e es IH]; intros w.
  - simpl. rewrite emits_nil. now destruct w.
  - rewrite runs_cons, IH. unfold with_memory, emits, emit. simpl.
    now rewrite <- app_assoc.
Qed.

Lemma defined_runs (es : list SymPtr) : defined (map RunVisitor es) = es.
Proof.
  induction es as [|e es IH]; [reflexivity|].
  change (e :: defined (map RunVisitor es) = e :: es). now rewrite IH.
Qed.

Lemma PrintPDBDefinitions_loop_all es : forall w,
  MemberStructExpansion (PdbHeaderReconstructorSettings (m_Settings w))
    <> MemberStructExpansionType.InlineUnnamed ->
  PrintPDBDefinitions_loop es w = (Ok tt, runs es w).
Proof.
  induction es as [|e es IH]; intros w Hx; [reflexivity|].
  simpl PrintPDBDefinitions_loop.
  assert (Expand e w = (Ok true, w)) as Ee.
  { unfold Expand, bind, settings. now destruct (decide _). }
  rewrite (bind_Ok _ _ _ _ _ Ee).
  rewrite (bind_Ok _ _ _ _ _ (SymbolVisitor_Run_spec e w)).
  rewrite runs_cons. now apply IH.
Qed.

Lemma PrintPDBDefinitions_all_spec w s :
  PrintDefinitions (m_Settings w) = true ->
  MemberStructExpansion (PdbHeaderReconstructorSettings (m_Settings w))
    <> MemberStructExpansionType.InlineUnnamed ->
  m_SymbolSorter w = Some s ->
  PrintPDBDefinitions w = (Ok tt, runs (Sorter_GetSortedSymbols s) w).
Proof.
  intros Hd Hx Hs. unfold PrintPDBDefinitions, bind, settings, the_sorter.
  rewrite Hd, Hs. now apply PrintPDBDefinitions_loop_all.
Qed.

(** X12.  With an expansion other than [InlineUnnamed] (that is, with
    [-e n] or [-e a]), [PrintPDBDefinitions] asks the visitor for the
    definition of every sorted symbol, once each and in the sorter's
    order, without reading any symbol itself; the symbols end as the
    visitor's runs leave them, and nothing else of the state changes.
    With the definitions switched off it does nothing. *)
Theorem PrintPDBDefinitions_all (w : World) (s : Sorter) :
  MemberStructExpansion (PdbHeaderReconstructorSettings (m_Settings w))
    <> MemberStructExpansionType.InlineUnnamed ->
  m_SymbolSorter w = Some s ->
  (PrintDefinitions (m_Settings w) = true ->
     PrintPDBDefinitions w =
       (Ok tt,
        with_memory (fun _ => corrected (m_Settings w) (Sorter_GetSortedSymbols s) (memory w))
          (emits (map RunVisitor (Sorter_GetSortedSymbols s)) w))
     /\ defined (trace (PrintPDBDefinitions w).2)
        = defined (trace w) ++ Sorter_GetSortedSymbols s)
  /\ (PrintDefinitions (m_Settings w) = false -> PrintPDBDefinitions w = (Ok tt, w)).
Proof.
  intros Hx Hs. split.
  - intros Hd. rewrite (PrintPDBDefinitions_all_spec w s Hd Hx Hs), runs_world.
    split; [reflexivity|]. simpl. rewrite defined_app. f_equal. apply defined_runs.
  - intros Hd. unfold PrintPDBDefinitions, bind, settings. now rewrite Hd.
Qed.

Lemma omap_pointwise {A B} (f g : A -> option B) (l : list A) :
  (forall x, f x = g x) -> omap f l = omap g l.
Proof.
  intros Hfg. induction l as [|x l IH]; [reflexivity|].
  rewrite !(omap_app _ [x] l), IH. f_equal.
  change (match f x with Some y => [y] | None => [] end
          = match g x with Some y => [y] | None => [] end).
  now rewrite Hfg.
Qed.

Lemma PrintPDBDeclarations_spec w sorter :
  PrintDeclarations (m_Settings w) = true ->
  m_SymbolSorter w = Some sorter ->
  all_mapped (memory w) (Sorter_GetSortedSymbols sorter) = true ->
  PrintPDBDeclarations w =
    (Ok tt,
     emits (map (Write (OutputFile (PdbHeaderReconstructorSettings (m_Settings w))))
              (omap (declaration_of w) (Sorter_GetSortedSymbols sorter))
            ++ [Write (OutputFile (PdbHeaderReconstructorSettings (m_Settings w))) endl]) w).
Proof.
  intros Hd Hs Hm.
  unfold PrintPDBDeclarations, bind, settings. rewrite Hd.
  unfold the_sorter. rewrite Hs.
  rewrite (PrintPDBDeclarations_loop_spec _ w Hm).
  unfold write, modify. rewrite emit_emits, emits_emits. reflexivity.
Qed.

(** X13.  The all-symbols dump from end to end, with the declarations
    and the definitions on and an expansion other than [InlineUnnamed]:
    after the header, the sorter visits every symbol of the map in map
    order; then one declaration line goes to the output for each sorted
    symbol that is a named user-defined type, then an empty line; then
    the visitor is run on every sorted symbol in order, and the symbols
    end as those runs leave them.  The settings that matter are read
    from the state before the header, which the header does not
    change. *)
Theorem DumpAllSymbols_all (w w1 : World) (p : PDBFile) (s : Sorter) :
  m_PDB w = Some p ->
  PrintDeclarations (m_Settings w) = true ->
  PrintDefinitions (m_Settings w) = true ->
  MemberStructExpansion (PdbHeaderReconstructorSettings (m_Settings w))
    <> MemberStructExpansionType.InlineUnnamed ->
  PrintPDBHeader w = (Ok tt, w1) ->
  m_SymbolSorter w1 = Some s ->
  let s1 := visits (GetSymbolMap p) (memory w) s in
  let out := OutputFile (PdbHeaderReconstructorSettings (m_Settings w)) in
  all_mapped (memory w) (Sorter_GetSortedSymbols s1) = true ->
  DumpAllSymbols w =
    (Ok tt,
     with_memory (fun _ => corrected (m_Settings w) (Sorter_GetSortedSymbols s1) (memory w))
       (emits (map (Write out) (omap (declaration_of w) (Sorter_GetSortedSymbols s1))
               ++ [Write out endl]
               ++ map RunVisitor (Sorter_GetSortedSymbols s1))
          (with_SymbolSorter (Some s1) w1))).
Proof.
  intros Hp Hdecl Hdef Hx Eh Hs s1 out Hmapped.
  rewrite app_assoc, <- emits_emits.
  replace (with_memory _ _) with
    (runs (Sorter_GetSortedSymbols s1)
       (emits (map (Write out) (omap (declaration_of w) (Sorter_GetSortedSymbols s1))
               ++ [Write out endl])
          (with_SymbolSorter (Some s1) w1))).
  2:{ rewrite runs_world. simpl m_Settings. simpl memory.
      pose proof (PrintPDBHeader_keeps w) as Hk. rewrite Eh in Hk.
      destruct Hk as (Hset & _ & Hmem & _). simpl in Hset, Hmem.
      now rewrite Hset, Hmem. }
  pose proof (PrintPDBHeader_keeps w) as Hk. rewrite Eh in Hk.
  destruct Hk as (Hset & Hpdb & Hmem & _). simpl in Hset, Hpdb, Hmem.
  unfold DumpAllSymbols.
  rewrite (bind_Ok _ _ _ _ _ Eh).
  assert (the_PDB w1 = (Ok p, w1)) as Ep.
  { unfold the_PDB. now rewrite Hpdb, Hp. }
  rewrite (bind_Ok _ _ _ _ _ Ep).
  pose proof (visit_all_spec (GetSymbolMap p) w1 s Hs) as Ev.
  rewrite Hmem in Ev. fold s1 in Ev.
  rewrite (bind_Ok _ _ _ _ _ Ev).
  assert (PrintPDBDeclarations (with_SymbolSorter (Some s1) w1) =
            (Ok tt,
             emits (map (Write out) (omap (declaration_of w) (Sorter_GetSortedSymbols s1))
                    ++ [Write out endl]) (with_SymbolSorter (Some s1) w1))) as Ed.
  { rewrite (PrintPDBDeclarations_spec _ s1); simpl; rewrite ?Hset, ?Hmem; auto.
    do 4 f_equal.
    apply omap_pointwise. intros e. unfold declaration_of. simpl. now rewrite Hmem, Hset. }
  rewrite (bind_Ok _ _ _ _ _ Ed).
  apply PrintPDBDefinitions_all_spec; simpl; now rewrite ?Hset.
Qed.

(** X14.  The one-symbol dump with the referenced types on and the
    expansion [None] ([-e n]): after the header the sorter visits the
    requested symbol, and the visitor is then run on every symbol the
    sorter holds, in its order: the requested symbol, the types it
    refers to, and whatever the header left in the sorter.  No
    declaration is written. *)
Theorem DumpOneSymbol_referenced (w w1 : World) (p : PDBFile) (Symbol : SymPtr)
    (s : Sorter) :
  m_PDB w = Some p ->
  GetSymbolByName p (SymbolName (m_Settings w)) = Some Symbol ->
  PrintReferencedTypes (m_Settings w) = true ->
  PrintDefinitions (m_Settings w) = true ->
  MemberStructExpansion (PdbHeaderReconstructorSettings (m_Settings w))
    = MemberStructExpansionType.None ->
  PrintPDBHeader w = (Ok tt, w1) ->
  m_SymbolSorter w1 = Some s ->
  let s1 := Sorter_Visit Symbol (memory w) s in
  DumpOneSymbol w =
    (Ok tt,
     with_memory (fun _ => corrected (m_Settings w) (Sorter_GetSortedSymbols s1) (memory w))
       (emits (map RunVisitor (Sorter_GetSortedSymbols s1))
          (with_SymbolSorter (Some s1) w1))).
Proof.
  intros Hp Hname Hrefs Hdef Hx Eh Hs s1.
  replace (with_memory _ _) with
    (runs (Sorter_GetSortedSymbols s1) (with_SymbolSorter (Some s1) w1)).
  2:{ rewrite runs_world. simpl m_Settings. simpl memory.
      pose proof (PrintPDBHeader_keeps w) as Hk. rewrite Eh in Hk.
      destruct Hk as (Hset & _ & Hmem & _). simpl in Hset, Hmem.
      now rewrite Hset, Hmem. }
  pose proof (PrintPDBHeader_keeps w) as Hk. rewrite Eh in Hk.
  destruct Hk as (Hset & Hpdb & Hmem & _). simpl in Hset, Hpdb, Hmem.
  unfold DumpOneSymbol, bind at 1, the_PDB. rewrite Hp.
  unfold bind at 1. unfold settings. rewrite Hname.
  rewrite (bind_Ok _ _ _ _ _ Eh).
  assert (PrintReferencedTypes (m_Settings w)
          && negb (bool_decide
                     (MemberStructExpansion (PdbHeaderReconstructorSettings (m_Settings w))
                      = MemberStructExpansionType.InlineAll)) = true) as ->.
  { now rewrite Hrefs, Hx. }
  pose proof (SymbolSorter_Visit_spec Symbol w1 s Hs) as Ev.
  rewrite Hmem in Ev. fold s1 in Ev.
  rewrite (bind_Ok _ _ _ _ _ Ev).
  apply PrintPDBDefinitions_all_spec; simpl; rewrite ?Hset; auto.
  rewrite Hx. discriminate.
Qed.

(** ** Where the run throws *)

Lemma never_throws_bind {A B} (m : M A) (k : A -> M B) :
  never_throws m -> (forall a, never_throws (k a)) -> never_throws (bind m k).
Proof.
  intros Hm Hk w what w'. unfold bind.
  destruct (m w) as [[a|what1|status|] w1] eqn:E; try discriminate.
  - apply Hk.
  - elim (Hm _ _ _ E).
Qed.

Ltac never_throws_now :=
  intros ? ? ?;
  unfold ret, modify, get, settings, the_sorter, the_PDB, deref, write, sprintf_s,
    undefined, exit, delete;
  repeat case_match; discriminate.

Lemma never_throws_ret {A} (a : A) : never_throws (ret a).
Proof. never_throws_now. Qed.

Lemma never_throws_modify f : never_throws (modify f).
Proof. never_throws_now. Qed.

Lemma never_throws_get : never_throws get.
Proof. never_throws_now. Qed.

Lemma never_throws_settings : never_throws settings.
Proof. never_throws_now. Qed.

Lemma never_throws_the_sorter : never_throws the_sorter.
Proof. never_throws_now. Qed.

Lemma never_throws_the_PDB : never_throws the_PDB.
Proof. never_throws_now. Qed.

Lemma never_throws_deref p : never_throws (deref p).
Proof. never_throws_now. Qed.

Lemma never_throws_write to text : never_throws (write to text).
Proof. never_throws_now. Qed.

Lemma never_throws_sprintf_s text : never_throws (sprintf_s text).
Proof. never_throws_now. Qed.

Lemma never_throws_undefined {A} : never_throws (@undefined _ A).
Proof. never_throws_now. Qed.

Lemma never_throws_exit {A} status : never_throws (@exit _ A status).
Proof. never_throws_now. Qed.

Lemma never_throws_delete p : never_throws (delete p).
Proof. destruct p as [[| |h]|]; never_throws_now. Qed.

Create HintDb throws.

#[local] Hint Resolve never_throws_ret never_throws_modify never_throws_get
  never_throws_settings never_throws_the_sorter never_throws_the_PDB never_throws_deref
  never_throws_write never_throws_sprintf_s never_throws_undefined never_throws_exit
  never_throws_delete : throws.

Ltac throws_step :=
  first
    [ apply never_throws_bind; intros
    | solve [auto with throws]
    | case_match ].

Lemma never_throws_SymbolSorter_Visit p : never_throws (SymbolSorter_Visit p).
Proof. unfold SymbolSorter_Visit. repeat throws_step. Qed.

Lemma never_throws_SymbolVisitor_Run p : never_throws (SymbolVisitor_Run p).
Proof. unfold SymbolVisitor_Run. repeat throws_step. Qed.

#[local] Hint Resolve never_throws_SymbolSorter_Visit never_throws_SymbolVisitor_Run
  : throws.

Lemma never_throws_write_all to texts : never_throws (write_all to texts).
Proof. induction texts as [|t texts IH]; simpl; repeat throws_step. Qed.

Lemma never_throws_GetArchitecture_loop es : never_throws (GetArchitecture_loop es).
Proof. induction es as [|e es IH]; simpl; repeat throws_step. Qed.

Lemma never_throws_visit_all es : never_throws (visit_all es).
Proof. induction es as [|e es IH]; simpl; repeat throws_step. Qed.

Lemma never_throws_PrintPDBDeclarations_loop es :
  never_throws (PrintPDBDeclarations_loop es).
Proof. induction es as [|e es IH]; simpl; repeat throws_step. Qed.

Lemma never_throws_Expand e : never_throws (Expand e).
Proof. unfold Expand. repeat throws_step. Qed.

#[local] Hint Resolve never_throws_write_all never_throws_GetArchitecture_loop
  never_throws_visit_all never_throws_PrintPDBDeclarations_loop never_throws_Expand
  : throws.

Lemma never_throws_PrintPDBDefinitions_loop es :
  never_throws (PrintPDBDefinitions_loop es).
Proof. induction es as [|e es IH]; simpl; repeat throws_step. Qed.

#[local] Hint Resolve never_throws_PrintPDBDefinitions_loop : throws.

Lemma never_throws_PrintPDBHeader : never_throws PrintPDBHeader.
Proof. unfold PrintPDBHeader, GetArchitecture. repeat throws_step. Qed.

Lemma never_throws_PrintPDBDeclarations : never_throws PrintPDBDeclarations.
Proof. unfold PrintPDBDeclarations. repeat throws_step. Qed.

Lemma never_throws_PrintPDBDefinitions : never_throws PrintPDBDefinitions.
Proof. unfold PrintPDBDefinitions. repeat throws_step. Qed.

Lemma never_throws_PrintTestHeader : never_throws PrintTestHeader.
Proof. unfold PrintTestHeader. repeat throws_step. Qed.

Lemma never_throws_PrintTestFooter : never_throws PrintTestFooter.
Proof. unfold PrintTestFooter. repeat throws_step. Qed.

Lemma never_throws_CloseOpenedFiles : never_throws CloseOpenedFiles.
Proof. unfold CloseOpenedFiles. repeat throws_step. Qed.

#[local] Hint Resolve never_throws_PrintPDBHeader never_throws_PrintPDBDeclarations
  never_throws_PrintPDBDefinitions never_throws_PrintTestHeader
  never_throws_PrintTestFooter never_throws_CloseOpenedFiles : throws.

Lemma never_throws_DumpAllSymbols : never_throws DumpAllSymbols.
Proof. unfold DumpAllSymbols. repeat throws_step. Qed.

(** [DumpOneSymbol] throws at one place: the lookup of the name, before
    anything is printed. *)
Lemma DumpOneSymbol_throws w what w' :
  DumpOneSymbol w = (Throw what, w') ->
  what = MESSAGE_SYMBOL_NOT_FOUND /\ w' = w
  /\ exists p, m_PDB w = Some p /\ GetSymbolByName p (SymbolName (m_Settings w)) = None.
Proof.
  unfold DumpOneSymbol, bind at 1, the_PDB.
  destruct (m_PDB w) as [p|]; [|discriminate].
  unfold bind at 1. unfold settings.
  destruct (GetSymbolByName p (SymbolName (m_Settings w))) as [Symbol|] eqn:En.
  - intros E. exfalso. revert E.
    apply never_throws_bind; [auto with throws|]. intros _.
    case_match; repeat throws_step.
  - intros [= <- <-]. eauto.
Qed.

Lemma OpenPDBFile_throws w what w' :
  OpenPDBFile w = (Throw what, w') ->
  what = MESSAGE_FILE_NOT_FOUND /\ w' = w /\ PDB_Open (PdbPath (m_Settings w)) = None.
Proof.
  unfold OpenPDBFile, bind, settings.
  destruct (PDB_Open (PdbPath (m_Settings w))); [discriminate|].
  now intros [= <- <-].
Qed.

Lemma ParseParameters_throws argv w what w' :
  ParseParameters argv w = (Throw what, w') ->
  what = MESSAGE_INVALID_PARAMETERS /\ trace w' = trace w.
Proof.
  assert (never_throws (bind PrintUsage (fun _ => @exit _ unit EXIT_SUCCESS))) as Hu.
  { unfold PrintUsage. repeat throws_step. }
  destruct argv as [|a0 [|a1 [|a2 args]]]; unfold ParseParameters.
  - discriminate.
  - intros E. elim (Hu _ _ _ E).
  - destruct (is_help a1); [intros E; elim (Hu _ _ _ E)|]. discriminate.
  - intros E.
    pose proof (ParseParameters_keeps a0 a1 a2 args w _ _ E) as (Ht & _).
    split; [|exact Ht]. revert E. unfold ParseParameters.
    do 2 (erewrite bind_Ok; [|reflexivity]).
    unfold bind.
    match goal with |- context [ParseOptions args ?w0] =>
      destruct (ParseOptions_outcome args w0) as [(w1 & ->) | (w1 & ->)]
    end.
    + discriminate.
    + now intros [= <- _].
Qed.

Lemma ParseParameters_Ok_keeps argv w w1 :
  ParseParameters argv w = (Ok tt, w1) -> parse_keeps w w1.
Proof.
  destruct argv as [|a0 [|a1 [|a2 args]]].
  - discriminate.
  - unfold ParseParameters, bind, exit.
    destruct (PrintUsage w) as [[[]|?|?|] ?]; discriminate.
  - unfold ParseParameters.
    destruct (is_help a1); unfold bind, exit, undefined, modify.
    + destruct (PrintUsage w) as [[[]|?|?|] ?]; discriminate.
    + discriminate.
  - apply ParseParameters_keeps.
Qed.

(** ** The run for a file that does not open *)

(** X15.  When the options parse and the file at the path cannot be
    opened, [Run] returns [EXIT_FAILURE]; its only output is the line
    [File not found] on the error stream; the test file named by [-t]
    gets no header, and no definition is asked for; the two streams the
    settings point to are ended. *)
Theorem Run_file_not_found (argv : list string) (w w1 : World) :
  files_consistent w = true ->
  ParseParameters argv w = (Ok tt, w1) ->
  PDB_Open (PdbPath (m_Settings w1)) = None ->
  exists w',
    Run argv w = (Ok EXIT_FAILURE, w')
    /\ trace w' = trace w ++ [Write cerr ("File not found" +:+ endl)]
    /\ m_PDB w' = m_PDB w
    /\ streams w' ⊆ streams w1
    /\ (forall h, TestFile (PdbHeaderReconstructorSettings (m_Settings w1))
                   = Some (ofstream h) ->
                 TestFilename (m_Settings w1) <> None -> streams w' !! h = None)
    /\ (forall h, OutputFile (PdbHeaderReconstructorSettings (m_Settings w1))
                   = ofstream h ->
                 OutputFilename (m_Settings w1) <> None -> streams w' !! h = None).
Proof.
  intros Hw Ep Eo.
  pose proof (ParseParameters_consistent _ _ _ Hw Ep) as Hw1.
  pose proof (ParseParameters_Ok_keeps _ _ _ Ep) as (Ht1 & _ & Hp1 & _).
  assert (Run_try argv w = (Throw MESSAGE_FILE_NOT_FOUND, w1)) as Et.
  { unfold Run_try. rewrite (bind_Ok _ _ _ _ _ Ep).
    apply bind_Throw. unfold OpenPDBFile, bind, settings. now rewrite Eo. }
  unfold Run. rewrite Et.
  destruct (CloseOpenedFiles_consistent
              (emit (Write cerr (MESSAGE_FILE_NOT_FOUND +:+ endl)) w1))
    as (w' & Ec & Ht & Hs & Hp & Hsub & Htest & Hout); [exact Hw1|].
  exists w'. split.
  { unfold bind at 1. unfold write, modify. unfold bind. now rewrite Ec. }
  split; [rewrite Ht; simpl; now rewrite Ht1|].
  split; [rewrite Hp; simpl; exact Hp1|].
  split; [exact Hsub|].
  split.
  - intros h Hf Hn. apply (Htest h Hn Hf).
  - intros h Hf Hn. apply (Hout h Hn Hf).
Qed.

(** ** After the parameters are parsed *)

Lemma same_refl w : same_settings_and_streams w w.
Proof. unfold same_settings_and_streams. auto. Qed.

Lemma same_trans w1 w2 w3 :
  same_settings_and_streams w1 w2 -> same_settings_and_streams w2 w3 ->
  same_settings_and_streams w1 w3.
Proof.
  intros (A1 & B1 & C1) (A2 & B2 & C2).
  unfold same_settings_and_streams. rewrite A2, B2, C2. auto.
Qed.

Lemma same_bind {A B} (m : M A) (k : A -> M B) :
  (forall w, same_settings_and_streams w (m w).2) ->
  (forall a w, same_settings_and_streams w (k a w).2) ->
  forall w, same_settings_and_streams w (bind m k w).2.
Proof. apply bind_rel. exact same_trans. Qed.

Lemma same_the_sorter w : same_settings_and_streams w (the_sorter w).2.
Proof. unfold the_sorter. destruct (m_SymbolSorter w); apply same_refl. Qed.

Lemma same_the_PDB w : same_settings_and_streams w (the_PDB w).2.
Proof. unfold the_PDB. destruct (m_PDB w); apply same_refl. Qed.

Lemma same_deref p w : same_settings_and_streams w (deref p w).2.
Proof. unfold deref. destruct (memory w !! p); apply same_refl. Qed.

Lemma same_sprintf_s text w : same_settings_and_streams w (sprintf_s text w).2.
Proof. unfold sprintf_s. case_match; apply same_refl. Qed.

Lemma same_modify f w :
  (forall w, same_settings_and_streams w (f w)) ->
  same_settings_and_streams w (modify f w).2.
Proof. intros Hf. apply Hf. Qed.

Lemma same_header_keeps w w' : header_keeps w w' -> same_settings_and_streams w w'.
Proof. intros (A & _ & _ & B & C). unfold same_settings_and_streams. auto. Qed.

Ltac same_step :=
  first
    [ apply same_bind; intros
    | apply same_the_sorter
    | apply same_the_PDB
    | apply same_deref
    | apply same_sprintf_s
    | apply same_modify; intros; unfold same_settings_and_streams; simpl; tauto
    | apply same_refl
    | case_match ].

Lemma same_PrintPDBHeader w : same_settings_and_streams w (PrintPDBHeader w).2.
Proof. apply same_header_keeps, PrintPDBHeader_keeps. Qed.

Lemma same_SymbolSorter_Visit p w :
  same_settings_and_streams w (SymbolSorter_Visit p w).2.
Proof. apply same_header_keeps, header_keeps_SymbolSorter_Visit. Qed.

Lemma same_SymbolVisitor_Run p w :
  same_settings_and_streams w (SymbolVisitor_Run p w).2.
Proof. unfold SymbolVisitor_Run. repeat same_step. Qed.

Lemma same_visit_all es : forall w, same_settings_and_streams w (visit_all es w).2.
Proof.
  induction es as [|e es IH]; simpl; [apply same_refl|].
  same_step; [apply same_SymbolSorter_Visit | apply IH].
Qed.

Lemma same_PrintPDBDeclarations_loop es : forall w,
  same_settings_and_streams w (PrintPDBDeclarations_loop es w).2.
Proof.
  induction es as [|e es IH]; simpl; [apply same_refl|].
  same_step; [same_step|]. same_step; [same_step|].
  same_step; [|apply IH]. unfold write. repeat same_step.
Qed.

Lemma same_PrintPDBDeclarations w :
  same_settings_and_streams w (PrintPDBDeclarations w).2.
Proof.
  unfold PrintPDBDeclarations. same_step; [same_step|].
  case_match; [|apply same_refl].
  same_step; [same_step|].
  same_step; [apply same_PrintPDBDeclarations_loop|].
  unfold write. same_step.
Qed.

Lemma same_PrintPDBDefinitions_loop es : forall w,
  same_settings_and_streams w (PrintPDBDefinitions_loop es w).2.
Proof.
  induction es as [|e es IH]; simpl; [apply same_refl|].
  same_step; [rewrite Expand_world; apply same_refl|].
  same_step; [|apply IH].
  case_match; [apply same_SymbolVisitor_Run | apply same_refl].
Qed.

Lemma same_PrintPDBDefinitions w :
  same_settings_and_streams w (PrintPDBDefinitions w).2.
Proof.
  unfold PrintPDBDefinitions. same_step; [same_step|].
  case_match; [|apply same_refl].
  same_step; [same_step|]. apply same_PrintPDBDefinitions_loop.
Qed.

Lemma same_DumpAllSymbols w : same_settings_and_streams w (DumpAllSymbols w).2.
Proof.
  unfold DumpAllSymbols.
  same_step; [apply same_PrintPDBHeader|].
  same_step; [same_step|].
  same_step; [apply same_visit_all|].
  same_step; [apply same_PrintPDBDeclarations | apply same_PrintPDBDefinitions].
Qed.

Lemma same_DumpOneSymbol w : same_settings_and_streams w (DumpOneSymbol w).2.
Proof.
  unfold DumpOneSymbol.
  same_step; [same_step|]. same_step; [same_step|].
  case_match; [|apply same_refl].
  same_step; [apply same_PrintPDBHeader|].
  case_match; [|apply same_SymbolVisitor_Run].
  same_step; [apply same_SymbolSorter_Visit | apply same_PrintPDBDefinitions].
Qed.

Lemma same_OpenPDBFile w : same_settings_and_streams w (OpenPDBFile w).2.
Proof.
  unfold OpenPDBFile. same_step; [same_step|].
  case_match; [|apply same_refl]. same_step.
Qed.

Lemma same_PrintTestHeader w : same_settings_and_streams w (PrintTestHeader w).2.
Proof.
  unfold PrintTestHeader. same_step; [same_step|].
  case_match; [|apply same_refl].
  same_step; [same_step|]. unfold write. same_step.
Qed.

Lemma same_PrintTestFooter w : same_settings_and_streams w (PrintTestFooter w).2.
Proof.
  unfold PrintTestFooter. same_step; [same_step|].
  case_match; [|apply same_refl]. unfold write. same_step.
Qed.

Lemma same_Run_after_parse w : same_settings_and_streams w (Run_after_parse w).2.
Proof.
  unfold Run_after_parse.
  same_step; [apply same_OpenPDBFile|].
  same_step; [apply same_PrintTestHeader|].
  same_step; [same_step|].
  same_step; [|apply same_PrintTestFooter].
  case_match; [apply same_DumpAllSymbols | apply same_DumpOneSymbol].
Qed.

Lemma Run_try_after_parse argv w w1 :
  ParseParameters argv w = (Ok tt, w1) -> Run_try argv w = Run_after_parse w1.
Proof. intros Ep. unfold Run_try. now rewrite (bind_Ok _ _ _ _ _ Ep). Qed.

Lemma same_files_consistent w w' :
  m_Settings w' = m_Settings w -> files_consistent w' = files_consistent w.
Proof. unfold files_consistent. now intros ->. Qed.

(** X16.  Between [ParseParameters] and [CloseOpenedFiles] the run
    changes no setting, makes no stream and ends none, however it goes
    (returning, throwing, leaving); so whenever the parameters parse and
    [Run] returns, with either status, the settings at the end are the
    parsed ones, the two streams they name are ended and no new stream
    is left; if parsing dropped no stream, none at all is left. *)
Theorem Run_closes_files (argv : list string) (w w1 w' : World) (n : Z) :
  files_consistent w = true ->
  ParseParameters argv w = (Ok tt, w1) ->
  Run argv w = (Ok n, w') ->
  same_settings_and_streams w1 (Run_try argv w).2
  /\ m_Settings w' = m_Settings w1
  /\ streams w' ⊆ streams w1
  /\ (forall h, TestFile (PdbHeaderReconstructorSettings (m_Settings w1))
                 = Some (ofstream h) ->
               TestFilename (m_Settings w1) <> None -> streams w' !! h = None)
  /\ (forall h, OutputFile (PdbHeaderReconstructorSettings (m_Settings w1))
                 = ofstream h ->
               OutputFilename (m_Settings w1) <> None -> streams w' !! h = None)
  /\ (no_stray_stream w1 -> streams w' = ∅).
Proof.
  intros Hw Ep Er.
  pose proof (ParseParameters_consistent _ _ _ Hw Ep) as Hw1.
  pose proof (same_Run_after_parse w1) as Hsame.
  rewrite <- (Run_try_after_parse _ _ _ Ep) in Hsame.
  split; [exact Hsame|].
  assert (exists w2, CloseOpenedFiles w2 = (Ok tt, w')
                     /\ m_Settings w2 = m_Settings w1
                     /\ streams w2 = streams w1) as (w2 & Ec & Hset & Hstr).
  { revert Er. unfold Run.
    destruct (Run_try argv w) as [[[]|what|status|] w2]; try discriminate;
      destruct Hsame as (Hset & Hstr & _); simpl in Hset, Hstr.
    - unfold bind, ret.
      destruct (CloseOpenedFiles w2) as [[[]|?|?|] w3] eqn:Ec; try discriminate.
      intros [= _ <-]. eauto.
    - unfold bind at 1. unfold write, modify. unfold bind, ret.
      destruct (CloseOpenedFiles (emit _ w2)) as [[[]|?|?|] w3] eqn:Ec; try discriminate.
      intros [= _ <-]. eexists. split; [exact Ec|]. simpl. auto. }
  destruct (CloseOpenedFiles_consistent w2)
    as (w3 & Ec3 & _ & Hs & _ & Hsub & Htest & Hout).
  { now rewrite (same_files_consistent w1 w2 Hset). }
  rewrite Ec in Ec3. injection Ec3 as <-.
  rewrite Hset in *. rewrite Hstr in *.
  assert (forall h, TestFile (PdbHeaderReconstructorSettings (m_Settings w1))
                      = Some (ofstream h) ->
                    TestFilename (m_Settings w1) <> None -> streams w' !! h = None)
    as Htest'.
  { intros h Hf Hn. apply (Htest h Hn Hf). }
  assert (forall h, OutputFile (PdbHeaderReconstructorSettings (m_Settings w1))
                      = ofstream h ->
                    OutputFilename (m_Settings w1) <> None -> streams w' !! h = None)
    as Hout'.
  { intros h Hf Hn. apply (Hout h Hn Hf). }
  repeat (split; [assumption|]).
  intros Hstray. apply map_empty. intros h.
  destruct (streams w' !! h) as [name|] eqn:Eh; [|reflexivity].
  pose proof (lookup_weaken _ _ _ _ Eh Hsub) as Eh1.
  destruct (Hstray h name Eh1) as [[Hn Hf] | [Hn Hf]].
  - rewrite (Hout' h Hf Hn) in Eh. discriminate.
  - rewrite (Htest' h Hf Hn) in Eh. discriminate.
Qed.

(** ** How a run fails *)

Lemma PrintTestHeader_returns w r w' :
  PrintTestHeader w = (r, w') ->
  (r = Ok tt /\ w' = emits (test_header_events w) w) \/ (r = Undefined /\ w' = w).
Proof.
  unfold PrintTestHeader, bind, settings, test_header_events.
  destruct (TestFile (PdbHeaderReconstructorSettings (m_Settings w))) as [f|].
  - unfold sprintf_s.
    destruct (String.length (TEST_FILE_HEADER (OutputFilename (m_Settings w))) <? 16 * 1024).
    + unfold ret, write, modify. intros [= <- <-]. left. now rewrite emit_emits.
    + unfold undefined. intros [= <- <-]. now right.
  - unfold ret. intros [= <- <-]. left. now rewrite emits_nil.
Qed.

(** After the parameters are parsed the [try] block throws at two
    places: at the opening of the file, before anything is printed, and
    at the lookup of the symbol name, after the header of the test
    file. *)
Lemma Run_after_parse_throws w what w' :
  Run_after_parse w = (Throw what, w') ->
  (what = MESSAGE_FILE_NOT_FOUND /\ w' = w)
  \/ (what = MESSAGE_SYMBOL_NOT_FOUND
      /\ exists p, PDB_Open (PdbPath (m_Settings w)) = Some p
                   /\ w' = emits (test_header_events w) (with_PDB p w)).
Proof.
  unfold Run_after_parse. unfold bind at 1.
  destruct (OpenPDBFile w) as [[[]|what0|status|] w1] eqn:Eo; try discriminate.
  2:{ intros [= <- <-]. left. destruct (OpenPDBFile_throws _ _ _ Eo) as (-> & -> & _).
      auto. }
  assert (exists p, PDB_Open (PdbPath (m_Settings w)) = Some p /\ w1 = with_PDB p w)
    as (p & Ep & ->).
  { revert Eo. unfold OpenPDBFile, bind, settings.
    destruct (PDB_Open (PdbPath (m_Settings w))) as [p|]; [|discriminate].
    unfold modify. intros [= <-]. eauto. }
  unfold bind at 1.
  destruct (PrintTestHeader (with_PDB p w)) as [r1 w2] eqn:Eh.
  destruct (PrintTestHeader_returns _ _ _ Eh) as [[-> ->] | [-> ->]]; [|discriminate].
  unfold bind at 1. unfold settings.
  unfold bind.
  match goal with |- context [if ?c then _ else _] => destruct c end.
  - destruct (DumpAllSymbols _) as [[[]|what1|status|] w3] eqn:Ed; try discriminate.
    + intros E. elim (never_throws_PrintTestFooter _ _ _ E).
    + elim (never_throws_DumpAllSymbols _ _ _ Ed).
  - destruct (DumpOneSymbol _) as [[[]|what1|status|] w3] eqn:Ed; try discriminate.
    + intros E. elim (never_throws_PrintTestFooter _ _ _ E).
    + intros [= <- <-]. destruct (DumpOneSymbol_throws _ _ _ Ed) as (-> & -> & _).
      right. split; [reflexivity|]. exists p. auto.
Qed.

Lemma CloseOpenedFiles_trace w r w' :
  CloseOpenedFiles w = (r, w') -> trace w' = trace w.
Proof.
  unfold CloseOpenedFiles, bind, settings, delete, ret, undefined.
  repeat case_match; simplify_eq; intros; simplify_eq; reflexivity.
Qed.

(** X17.  [Run] returns one of two statuses.  It returns
    [ERROR_SUCCESS] exactly when the [try] block has returned.  It
    returns [EXIT_FAILURE] exactly when the block has thrown; the
    message is then one of the three the driver has; the line with the
    message on the error stream is the last event of the run; before it
    the run has printed nothing, except, when the symbol is not found,
    the header of the test file; and no definition was asked for. *)
Theorem Run_failure_is_reported (argv : list string) (w w' : World) (n : Z) :
  Run argv w = (Ok n, w') ->
  (n = ERROR_SUCCESS
   /\ exists w1, Run_try argv w = (Ok tt, w1) /\ trace w' = trace w1)
  \/ (n = EXIT_FAILURE
      /\ exists what w1 hdr,
           Run_try argv w = (Throw what, w1)
           /\ In what messages
           /\ trace w' = trace w ++ hdr ++ [Write cerr (what +:+ endl)]
           /\ (hdr = []
               \/ what = MESSAGE_SYMBOL_NOT_FOUND
                  /\ exists f name, hdr = [Write f (TEST_FILE_HEADER name)])
           /\ defined (trace w') = defined (trace w)).
Proof.
  unfold Run.
  destruct (Run_try argv w) as [[[]|what|status|] w1] eqn:Et; try discriminate.
  - unfold bind, ret.
    destruct (CloseOpenedFiles w1) as [[[]|?|?|] w2] eqn:Ec; try discriminate.
    intros [= <- <-]. left. split; [reflexivity|].
    exists w1. split; [reflexivity|]. apply (CloseOpenedFiles_trace _ _ _ Ec).
  - unfold bind at 1. unfold write, modify. unfold bind, ret.
    destruct (CloseOpenedFiles (emit _ w1)) as [[[]|?|?|] w2] eqn:Ec; try discriminate.
    intros [= <- <-]. right. split; [reflexivity|].
    apply CloseOpenedFiles_trace in Ec. simpl in Ec.
    assert (exists hdr,
              In what messages
              /\ trace w1 = trace w ++ hdr
              /\ (hdr = []
                  \/ what = MESSAGE_SYMBOL_NOT_FOUND
                     /\ exists f name, hdr = [Write f (TEST_FILE_HEADER name)]))
      as (hdr & Hin & Htr & Hhdr).
    { revert Et. unfold Run_try. unfold bind at 1.
      destruct (ParseParameters argv w) as [[[]|what0|status|] w0] eqn:Ep;
        try discriminate.
      - pose proof (ParseParameters_Ok_keeps _ _ _ Ep) as (Ht0 & _).
        intros E. change (Run_after_parse w0 = (Throw what, w1)) in E.
        destruct (Run_after_parse_throws _ _ _ E) as [[-> ->] | (-> & p & _ & ->)].
        + exists []. rewrite app_nil_r. split; [simpl; tauto|]. split; [exact Ht0|].
          now left.
        + exists (test_header_events w0). split; [simpl; tauto|].
          split; [simpl; now rewrite Ht0|].
          unfold test_header_events. destruct (TestFile _) as [f|]; [|now left].
          right. split; [reflexivity|]. eauto.
      - intros [= <- <-]. destruct (ParseParameters_throws _ _ _ _ Ep) as [-> Ht0].
        exists []. rewrite app_nil_r. split; [simpl; tauto|]. split; [exact Ht0|].
        now left. }
    exists what, w1, hdr. split; [reflexivity|]. split; [exact Hin|].
    split; [rewrite Ec, Htr; now rewrite <- app_assoc|].
    split; [exact Hhdr|].
    rewrite Ec, Htr, !defined_app.
    assert (defined hdr = []) as ->.
    { destruct Hhdr as [-> | (_ & f & name & ->)]; reflexivity. }
    now rewrite !app_nil_r.
Qed.

(** ** The test file *)

(** X18.  With a test file ([-t]), a [try] block that returns has
    written the header of the test file first and its footer last, into
    that file; between the two come the writes of the dump and then the
    definitions.  A block that throws has written no footer: nothing at
    all when the file does not open, the header alone when the symbol is
    not found. *)
Theorem test_file_is_bracketed (w w' : World) (f : ostream) :
  TestFile (PdbHeaderReconstructorSettings (m_Settings w)) = Some f ->
  let header := Write f (TEST_FILE_HEADER (OutputFilename (m_Settings w))) in
  (Run_after_parse w = (Ok tt, w') ->
     exists ws defs,
       trace w' = trace w ++ [header] ++ ws ++ map RunVisitor defs
                   ++ [Write f TEST_FILE_FOOTER]
       /\ forallb is_write ws = true)
  /\ (forall what, Run_after_parse w = (Throw what, w') ->
        (what = MESSAGE_FILE_NOT_FOUND /\ trace w' = trace w)
        \/ (what = MESSAGE_SYMBOL_NOT_FOUND /\ trace w' = trace w ++ [header])).
Proof.
  intros Hf header. split.
  - unfold Run_after_parse. unfold bind at 1.
    destruct (OpenPDBFile w) as [[[]|what0|status|] w1] eqn:Eo; try discriminate.
    assert (exists p, w1 = with_PDB p w) as (p & ->).
    { revert Eo. unfold OpenPDBFile, bind, settings.
      destruct (PDB_Open (PdbPath (m_Settings w))) as [p|]; [|discriminate].
      unfold modify. intros [= <-]. eauto. }
    unfold bind at 1.
    destruct (PrintTestHeader (with_PDB p w)) as [r1 w2] eqn:Eh.
    destruct (PrintTestHeader_returns _ _ _ Eh) as [[-> ->] | [-> ->]]; [|discriminate].
    unfold test_header_events. simpl m_Settings. rewrite Hf. fold header.
    set (w2 := emits [header] (with_PDB p w)).
    unfold bind at 1. unfold settings.
    assert (forall dump : M unit,
              (forall r w3, dump w2 = (r, w3) ->
                 exists ws defs, trace w3 = trace w2 ++ ws ++ map RunVisitor defs
                                 /\ forallb is_write ws = true) ->
              same_settings_and_streams w2 (dump w2).2 ->
              bind dump (fun _ => PrintTestFooter) w2 = (Ok tt, w') ->
              exists ws defs,
                trace w' = trace w ++ [header] ++ ws ++ map RunVisitor defs
                            ++ [Write f TEST_FILE_FOOTER]
                /\ forallb is_write ws = true) as Hdump.
    { intros dump Hshape Hsame. unfold bind.
      destruct (dump w2) as [[[]|?|?|] w3] eqn:Ed; try discriminate.
      destruct (Hshape _ _ eq_refl) as (ws & defs & Ht & Hws).
      destruct Hsame as (Hset & _). simpl in Hset.
      unfold PrintTestFooter, bind, settings. rewrite Hset. simpl m_Settings.
      rewrite Hf. unfold write, modify. intros [= <-].
      exists ws, defs. split; [|exact Hws]. simpl. rewrite Ht. simpl.
      now rewrite <- !app_assoc. }
    match goal with |- context [if ?c then _ else _] => destruct c end.
    + apply Hdump; [|apply same_DumpAllSymbols].
      intros r w3 Ed.
      destruct (DumpAllSymbols_shape _ _ _ Ed) as (ws & defs & Ht & Hws & _). eauto.
    + apply Hdump; [|apply same_DumpOneSymbol].
      intros r w3 Ed.
      destruct (DumpOneSymbol_shape _ _ _ Ed) as (ws & defs & Ht & Hws & _). eauto.
  - intros what E.
    destruct (Run_after_parse_throws _ _ _ E) as [[-> ->] | (-> & p & _ & ->)].
    + now left.
    + right. split; [reflexivity|]. unfold test_header_events. now rewrite Hf.
Qed.

(** ** What the loop reads of an option *)

(** X19.  Of an argument that passes the shape test the loop reads the
    second character and whether a third character is a dash: the
    argument parses exactly as the plain spelling of that letter, [-X]
    or [-X-].  The first character, and a third character that is no
    dash, are not looked at. *)
Theorem option_spelling (a : string) (next : option string) (w : World) :
  rejected_shape a = false ->
  let off := (String.length a =? 3) && Ascii.eqb (char_at a 2) "-" in
  let plain := String "-" (String (char_at a 1) (if off then "-" else "")) in
  rejected_shape plain = false
  /\ ParseOption a next w = ParseOption plain next w.
Proof.
  intros Ha off plain.
  assert (rejected_shape plain = false) as Hp.
  { unfold plain. now destruct off. }
  split; [exact Hp|].
  unfold ParseOption. rewrite Ha, Hp.
  assert (char_at plain 1 = char_at a 1) as -> by reflexivity.
  assert ((String.length plain =? 3) && Ascii.eqb (char_at plain 2) "-" = off) as ->.
  { unfold plain. now destruct off. }
  reflexivity.
Qed.

(** ** The header *)

(** X20.  With the header on, [PrintPDBHeader] first looks for the
    architecture and then writes one comment to the output: it names the
    path as given on the command line and the architecture that
    [GetArchitecture] has just stored ([None] when no symbol told it).
    The comment is formatted into a buffer of 16 KiB; a path that makes
    it longer is not handled. *)
Theorem PrintPDBHeader_text (w w1 : World) :
  PrintHeader (m_Settings w) = true ->
  GetArchitecture w = (Ok tt, w1) ->
  let text := HEADER_FILE_HEADER (PdbPath (m_Settings w))
                (ArchictureStrings (m_Architecture w1)) in
  (String.length text < 16 * 1024 ->
     PrintPDBHeader w =
       (Ok tt, emit (Write (OutputFile (PdbHeaderReconstructorSettings (m_Settings w))) text) w1))
  /\ (16 * 1024 <= String.length text -> PrintPDBHeader w = (Undefined, w1)).
Proof.
  intros Hh Ea text.
  assert (PrintPDBHeader w =
            bind (sprintf_s text)
              (fun t => write (OutputFile (PdbHeaderReconstructorSettings (m_Settings w))) t)
              w1) as ->.
  { unfold PrintPDBHeader, bind at 1, settings. rewrite Hh.
    now rewrite (bind_Ok _ _ _ _ _ Ea). }
  unfold bind, sprintf_s. split.
  - intros Hlen. apply Nat.ltb_lt in Hlen. now rewrite Hlen.
  - intros Hlen. apply Nat.ltb_ge in Hlen. now rewrite Hlen.
Qed.

(** ** Declarations, then definitions *)

Lemma fixed_from_lookup m m' p :
  FieldDefinition.fixed_from m m' -> is_Some (m !! p) -> is_Some (m' !! p).
Proof.
  intros F [s E]. destruct (F p) as [E' | (s0 & _ & _ & E')]; rewrite E'; eauto.
Qed.

Lemma all_mapped_fixed m m' es :
  FieldDefinition.fixed_from m m' -> all_mapped m es = true -> all_mapped m' es = true.
Proof.
  intros F. unfold all_mapped. rewrite !forallb_forall. intros Hm e He.
  specialize (Hm e He).
  destruct (m !! e) as [s|] eqn:E; [|discriminate].
  destruct (fixed_from_lookup m m' e F) as [s' ->]; [rewrite E; eauto | reflexivity].
Qed.

(** The correction of the printer touches arrays only, so it does not
    change which symbols are left to be printed where they are used. *)
Lemma is_inlined_fixed m m' p :
  FieldDefinition.fixed_from m m' -> is_inlined <$> (m' !! p) = is_inlined <$> (m !! p).
Proof.
  intros F. destruct (F p) as [-> | (s & -> & C & ->)]; [reflexivity|].
  simpl. f_equal. unfold is_inlined, Tag. simpl.
  unfold Array_ElementCount in C. destruct (u s); try discriminate. reflexivity.
Qed.

Lemma expanded_fixed w w' e :
  m_Settings w' = m_Settings w ->
  FieldDefinition.fixed_from (memory w) (memory w') ->
  expanded w' e = expanded w e.
Proof.
  intros Hs F. unfold expanded. rewrite Hs.
  destruct (decide _); [|reflexivity].
  pose proof (is_inlined_fixed _ _ e F) as Hi.
  destruct (memory w' !! e), (memory w !! e); simpl in Hi; congruence.
Qed.

Lemma runs_nil w : runs [] w = w.
Proof. reflexivity. Qed.

Lemma PrintPDBDefinitions_loop_unnamed es : forall w,
  MemberStructExpansion (PdbHeaderReconstructorSettings (m_Settings w))
    = MemberStructExpansionType.InlineUnnamed ->
  visitor_only_corrects (m_Settings w) ->
  all_mapped (memory w) es = true ->
  PrintPDBDefinitions_loop es w = (Ok tt, runs (List.filter (expanded w) es) w).
Proof.
  induction es as [|e es IH]; intros w Hx Hv Hm; [reflexivity|].
  simpl in Hm. apply andb_true_iff in Hm as [He Hes].
  destruct (memory w !! e) as [sym|] eqn:Ee; [|discriminate].
  simpl PrintPDBDefinitions_loop.
  assert (Expand e w = (Ok (expanded w e), w)) as Ex.
  { unfold Expand, expanded, bind, settings, deref, ret, is_inlined.
    destruct (decide _); [|contradiction]. now rewrite Ee. }
  rewrite (bind_Ok _ _ _ _ _ Ex).
  simpl List.filter. destruct (expanded w e).
  - rewrite (bind_Ok _ _ _ _ _ (SymbolVisitor_Run_spec e w)), runs_cons.
    set (w2 := with_memory (Visitor_Run (m_Settings w) e) (emit (RunVisitor e) w)).
    assert (FieldDefinition.fixed_from (memory w) (memory w2)) as F by apply Hv.
    rewrite (List.filter_ext (expanded w) (expanded w2)).
    2:{ intros a. symmetry. now apply expanded_fixed. }
    apply IH; [exact Hx | exact Hv |].
    now apply (all_mapped_fixed (memory w)).
  - erewrite bind_Ok; [|reflexivity]. now apply IH.
Qed.

Lemma filter_all {A} (f : A -> bool) (l : list A) :
  (forall a, f a = true) -> List.filter f l = l.
Proof.
  intros Hf. induction l as [|a l IH]; [reflexivity|].
  simpl. now rewrite Hf, IH.
Qed.

(** [PrintPDBDefinitions] with its sorter: the visitor is run on the
    symbols for which [Expand] holds, in the sorter's order. *)
Lemma PrintPDBDefinitions_exact w s :
  m_SymbolSorter w = Some s ->
  (MemberStructExpansion (PdbHeaderReconstructorSettings (m_Settings w))
     = MemberStructExpansionType.InlineUnnamed ->
   visitor_only_corrects (m_Settings w)) ->
  all_mapped (memory w) (Sorter_GetSortedSymbols s) = true ->
  PrintPDBDefinitions w = (Ok tt, runs (definitions w (Sorter_GetSortedSymbols s)) w).
Proof.
  intros Hs Hv Hm. unfold PrintPDBDefinitions, definitions, bind, settings.
  destruct (PrintDefinitions (m_Settings w)); [|reflexivity].
  unfold the_sorter. rewrite Hs.
  destruct (decide (MemberStructExpansion (PdbHeaderReconstructorSettings (m_Settings w))
                    = MemberStructExpansionType.InlineUnnamed)) as [Hx|Hx].
  - now apply PrintPDBDefinitions_loop_unnamed; auto.
  - rewrite filter_all; [now apply PrintPDBDefinitions_loop_all|].
    intros a. unfold expanded. now destruct (decide _).
Qed.

Lemma PrintPDBDeclarations_exact w s :
  m_SymbolSorter w = Some s ->
  all_mapped (memory w) (Sorter_GetSortedSymbols s) = true ->
  PrintPDBDeclarations w = (Ok tt, emits (declarations w (Sorter_GetSortedSymbols s)) w).
Proof.
  intros Hs Hm. unfold declarations.
  destruct (PrintDeclarations (m_Settings w)) eqn:Hd.
  - now apply PrintPDBDeclarations_spec.
  - unfold PrintPDBDeclarations, bind, settings. rewrite Hd. now rewrite emits_nil.
Qed.

Lemma definitions_same w w2 es :
  m_Settings w2 = m_Settings w -> memory w2 = memory w ->
  definitions w2 es = definitions w es.
Proof.
  intros Hs Hm. unfold definitions. rewrite Hs.
  destruct (PrintDefinitions _); [|reflexivity].
  apply List.filter_ext. intros e. unfold expanded. now rewrite Hm, Hs.
Qed.

Lemma declarations_same w w2 es :
  m_Settings w2 = m_Settings w -> memory w2 = memory w ->
  declarations w2 es = declarations w es.
Proof.
  intros Hs Hm. unfold declarations. rewrite Hs.
  destruct (PrintDeclarations _); [|reflexivity].
  do 2 f_equal. apply omap_pointwise. intros e. unfold declaration_of.
  now rewrite Hm, Hs.
Qed.

Lemma define_after w w2 s1 decls :
  m_Settings w2 = m_Settings w -> memory w2 = memory w ->
  m_SymbolSorter w2 = Some s1 ->
  (MemberStructExpansion (PdbHeaderReconstructorSettings (m_Settings w))
     = MemberStructExpansionType.InlineUnnamed ->
   visitor_only_corrects (m_Settings w)) ->
  all_mapped (memory w) (Sorter_GetSortedSymbols s1) = true ->
  PrintPDBDefinitions (emits decls w2)
  = (Ok tt,
     with_memory
       (fun _ => corrected (m_Settings w) (definitions w (Sorter_GetSortedSymbols s1))
                   (memory w))
       (emits (decls ++ map RunVisitor (definitions w (Sorter_GetSortedSymbols s1))) w2)).
Proof.
  intros Hs Hm Hsorter Hv Hmapped.
  assert (m_Settings (emits decls w2) = m_Settings w) as Hs' by exact Hs.
  assert (memory (emits decls w2) = memory w) as Hm' by exact Hm.
  rewrite (PrintPDBDefinitions_exact (emits decls w2) s1).
  - rewrite (definitions_same w _ _ Hs' Hm'), runs_world, emits_emits.
    now rewrite Hs', Hm'.
  - exact Hsorter.
  - now rewrite Hs'.
  - now rewrite Hm'.
Qed.

(** After the sorter has made its visits in [w1] (the state the header
    left), the declarations and the definitions of the sorted symbols. *)
Lemma declare_and_define w w1 s1 :
  header_keeps w w1 ->
  (MemberStructExpansion (PdbHeaderReconstructorSettings (m_Settings w))
     = MemberStructExpansionType.InlineUnnamed ->
   visitor_only_corrects (m_Settings w)) ->
  all_mapped (memory w) (Sorter_GetSortedSymbols s1) = true ->
  forall with_declarations : bool,
  bind (if with_declarations then PrintPDBDeclarations else ret tt)
       (fun _ => PrintPDBDefinitions) (with_SymbolSorter (Some s1) w1)
  = (Ok tt,
     dumped w w1 s1
       (if with_declarations then declarations w (Sorter_GetSortedSymbols s1) else [])
       (definitions w (Sorter_GetSortedSymbols s1))).
Proof.
  intros (Hset & _ & Hmem & _) Hv Hm with_declarations.
  assert (m_Settings (with_SymbolSorter (Some s1) w1) = m_Settings w) as Hset2 by exact Hset.
  assert (memory (with_SymbolSorter (Some s1) w1) = memory w) as Hmem2 by exact Hmem.
  unfold dumped. destruct with_declarations.
  - assert (all_mapped (memory (with_SymbolSorter (Some s1) w1))
              (Sorter_GetSortedSymbols s1) = true) as Hm2 by (now rewrite Hmem2).
    rewrite (bind_Ok _ _ _ _ _
               (PrintPDBDeclarations_exact (with_SymbolSorter (Some s1) w1) s1 eq_refl Hm2)).
    rewrite (declarations_same w _ _ Hset2 Hmem2).
    now apply define_after.
  - erewrite bind_Ok; [|reflexivity].
    rewrite <- (emits_nil (with_SymbolSorter (Some s1) w1)) at 1.
    now apply define_after.
Qed.


End Facts.

(** ** The facts above at the sample file *)

Lemma result_and_state `{Collaborators} {A} (x : outcome A * World) (a : outcome A) :
  x.1 = a -> x = (a, x.2).
Proof. destruct x. simpl. now intros ->. Qed.

Lemma value_option_takes_next_witness :
  rejected_shape "-o" = false
  /\ exists w1,
       @ParseOptions Examples.sample ["-o"; "-p"; "-x"] Examples.sample_start
         = ParseOptions ["-x"] w1
       /\ OutputFilename (m_Settings w1) = Some "-p".
Proof.
  split; [reflexivity|].
  destruct (@value_option_takes_next Examples.sample "-o" "-p" ["-x"]
              Examples.sample_start eq_refl (or_introl eq_refl))
    as (w1 & _ & E & _ & _ & _ & _ & _ & Ho & _).
  exists w1. split; [exact E | exact (proj1 (Ho eq_refl))].
Defined.

Lemma value_option_without_value_witness :
  @ParseOptions Examples.sample (["-p"] ++ ["-o"]) Examples.sample_start
    = (Throw MESSAGE_INVALID_PARAMETERS,
       (@ParseOptions Examples.sample ["-p"] Examples.sample_start).2).
Proof.
  apply (@value_option_without_value Examples.sample ["-p"] "-o").
  - reflexivity.
  - reflexivity.
  - left. reflexivity.
Defined.

Lemma unknown_option_letter_witness :
  ~ In (char_at "-z" 1) option_letters
  /\ @ParseOptions Examples.sample (["-p"] ++ "-z" :: ["-x"]) Examples.sample_start
     = (Throw MESSAGE_INVALID_PARAMETERS,
        (@ParseOptions Examples.sample ["-p"] Examples.sample_start).2).
Proof.
  assert (~ In (char_at "-z" 1) option_letters) as Hz.
  { simpl. intros Hin. repeat (destruct Hin as [Hin|Hin]; [discriminate Hin|]).
    exact Hin. }
  split; [exact Hz|].
  apply (@unknown_option_letter Examples.sample ["-p"] "-z" ["-x"]
           Examples.sample_start _ eq_refl Hz).
Defined.

Lemma last_switch_wins_witness :
  @ParseOptions Examples.sample ["-p"; "-p-"; "-x"] Examples.sample_start
    = @ParseOptions Examples.sample ["-p-"; "-x"] Examples.sample_start.
Proof.
  apply (@last_switch_wins Examples.sample "-p" "-p-" ["-x"]).
  - reflexivity.
  - reflexivity.
  - reflexivity.
  - left. reflexivity.
Defined.

Lemma option_spelling_witness :
  rejected_shape "xp-" = false
  /\ @ParseOption Examples.sample "xp-" None Examples.sample_start
     = @ParseOption Examples.sample "-p-" None Examples.sample_start.
Proof.
  split; [reflexivity|].
  exact (proj2 (@option_spelling Examples.sample "xp-" None Examples.sample_start eq_refl)).
Defined.

Lemma GetArchitecture_first_witness :
  let w := Examples.sample_opened ["pdbex"; "_POINT"; "sample.pdb"] in
  let after j := @visits Examples.sample (take j (GetSymbolMap Examples.sample_PDB))
                   (memory w) ([], ArchNone) in
  (exists k,
      k < 3
      /\ (forall j, 1 <= j <= k -> Sorter_GetImageArchitecture (after j) = ArchNone)
      /\ Sorter_GetImageArchitecture (after (S k)) <> ArchNone
      /\ GetArchitecture w =
           (Ok tt,
            with_SymbolSorter (Some (Sorter_Clear (after (S k))))
              (with_Architecture (Sorter_GetImageArchitecture (after (S k))) w)))
  \/ ((forall j, 1 <= j <= 3 -> Sorter_GetImageArchitecture (after j) = ArchNone)
      /\ GetArchitecture w
         = (Ok tt,
            with_SymbolSorter
              (Some (([1; 2; 6; 7; 8]%positive, ArchNone) : @Sorter Examples.sample)) w)).
Proof.
  intros w after.
  exact (@GetArchitecture_first Examples.sample w Examples.sample_PDB ([], ArchNone)
           eq_refl eq_refl).
Defined.

Lemma PrintPDBHeader_text_witness :
  let w := Examples.sample_opened ["pdbex"; "_POINT"; "sample.pdb"] in
  PrintHeader (m_Settings w) = true
  /\ PrintPDBHeader w =
       (Ok tt,
        emit (Write cout (@HEADER_FILE_HEADER Examples.sample "sample.pdb" "None")) (GetArchitecture w).2).
Proof.
  intros w. split; [reflexivity|].
  apply (@PrintPDBHeader_text Examples.sample w (GetArchitecture w).2 eq_refl eq_refl).
  apply Nat.ltb_lt. reflexivity.
Defined.

Lemma PrintPDBDefinitions_all_witness :
  let w := Examples.sample_sorted ["pdbex"; "*"; "sample.pdb"; "-e"; "n"] in
  m_SymbolSorter w = Some ([1; 2; 6; 7; 8]%positive, ArchNone)
  /\ defined (trace (PrintPDBDefinitions w).2)
     = defined (trace w) ++ [1; 2; 6; 7; 8]%positive.
Proof.
  intros w. split; [reflexivity|].
  assert (MemberStructExpansion (PdbHeaderReconstructorSettings (m_Settings w))
            <> MemberStructExpansionType.InlineUnnamed) as Hx by discriminate.
  exact (proj2 (proj1 (@PrintPDBDefinitions_all Examples.sample w
                         ([1; 2; 6; 7; 8]%positive, ArchNone) Hx eq_refl) eq_refl)).
Defined.

Lemma DumpAllSymbols_all_witness :
  let w := Examples.sample_opened ["pdbex"; "*"; "sample.pdb"; "-e"; "n"; "-k-"] in
  DumpAllSymbols w =
    (Ok tt,
     with_memory
       (fun _ => @corrected Examples.sample (m_Settings w) [1; 2; 6; 7; 8]%positive
                   (memory w))
       (emits [Write cout ("struct _POINT;" +:+ endl); Write cout endl;
               RunVisitor 1; RunVisitor 2; RunVisitor 6; RunVisitor 7; RunVisitor 8]
          (with_SymbolSorter
             (Some (([1; 2; 6; 7; 8]%positive, ArchNone) : @Sorter Examples.sample)) w))).
Proof.
  intros w.
  assert (MemberStructExpansion (PdbHeaderReconstructorSettings (m_Settings w))
            <> MemberStructExpansionType.InlineUnnamed) as Hx by discriminate.
  exact (@DumpAllSymbols_all Examples.sample w w Examples.sample_PDB ([], ArchNone)
           eq_refl eq_refl eq_refl Hx eq_refl eq_refl eq_refl).
Defined.

Lemma DumpOneSymbol_referenced_witness :
  let w := Examples.sample_opened ["pdbex"; "_POINT"; "sample.pdb"; "-e"; "n"; "-k-"] in
  DumpOneSymbol w =
    (Ok tt,
     with_memory
       (fun _ => @corrected Examples.sample (m_Settings w) [1; 2; 6]%positive (memory w))
       (emits [RunVisitor 1; RunVisitor 2; RunVisitor 6]
          (with_SymbolSorter
             (Some (([1; 2; 6]%positive, ArchNone) : @Sorter Examples.sample)) w))).
Proof.
  intros w.
  exact (@DumpOneSymbol_referenced Examples.sample w w Examples.sample_PDB 6
           ([], ArchNone) eq_refl eq_refl eq_refl eq_refl eq_refl eq_refl eq_refl).
Defined.

Lemma Run_file_not_found_witness :
  exists w',
    Examples.sample_Run ["pdbex"; "_POINT"; "missing.pdb"; "-t"; "test.c"]
      = (Ok EXIT_FAILURE, w')
    /\ trace w' = [Write cerr ("File not found" +:+ endl)].
Proof.
  destruct (@Run_file_not_found Examples.sample
              ["pdbex"; "_POINT"; "missing.pdb"; "-t"; "test.c"]
              Examples.sample_start
              (@ParseParameters Examples.sample
                 ["pdbex"; "_POINT"; "missing.pdb"; "-t"; "test.c"]
                 Examples.sample_start).2
              eq_refl eq_refl eq_refl)
    as (w' & E & Ht & _).
  exists w'. split; [exact E | exact Ht].
Defined.

Lemma Run_closes_files_witness :
  let argv := ["pdbex"; "_POINT"; "sample.pdb"; "-o"; "a.h"; "-t"; "a.c"] in
  exists w',
    @Run Examples.sample argv Examples.sample_start = (Ok ERROR_SUCCESS, w')
    /\ m_Settings w'
       = m_Settings (@ParseParameters Examples.sample argv Examples.sample_start).2
    /\ streams w'
         ⊆ streams (@ParseParameters Examples.sample argv Examples.sample_start).2.
Proof.
  intros argv.
  assert (@Run Examples.sample argv Examples.sample_start = (Ok ERROR_SUCCESS, (@Run Examples.sample argv Examples.sample_start).2)) as E.
  { apply result_and_state. vm_compute. reflexivity. }
  exists (@Run Examples.sample argv Examples.sample_start).2. split; [exact E|].
  destruct (@Run_closes_files Examples.sample argv Examples.sample_start
              (@ParseParameters Examples.sample argv Examples.sample_start).2
              (@Run Examples.sample argv Examples.sample_start).2 ERROR_SUCCESS eq_refl eq_refl E)
    as (_ & Hs & Hsub & _).
  split; [exact Hs | exact Hsub].
Defined.

Lemma Run_failure_is_reported_witness :
  let argv := ["pdbex"; "NoSuchType"; "sample.pdb"; "-t"; "test.c"] in
  exists w' what hdr,
    @Run Examples.sample argv Examples.sample_start = (Ok EXIT_FAILURE, w')
    /\ In what messages
    /\ trace w' = [] ++ hdr ++ [Write cerr (what +:+ endl)]
    /\ defined (trace w') = [].
Proof.
  intros argv.
  assert (@Run Examples.sample argv Examples.sample_start = (Ok EXIT_FAILURE, (@Run Examples.sample argv Examples.sample_start).2)) as E.
  { apply result_and_state. vm_compute. reflexivity. }
  destruct (@Run_failure_is_reported Examples.sample argv Examples.sample_start
              (@Run Examples.sample argv Examples.sample_start).2 EXIT_FAILURE E)
    as [[Hn _] | (_ & what & w1 & hdr & _ & Hin & Ht & _ & Hd)].
  - discriminate Hn.
  - exists (@Run Examples.sample argv Examples.sample_start).2, what, hdr.
    split; [exact E|]. split; [exact Hin|]. split; [exact Ht | exact Hd].
Defined.

Lemma test_file_is_bracketed_witness :
  let w := (@ParseParameters Examples.sample
              ["pdbex"; "_POINT"; "sample.pdb"; "-t"; "test.c"] Examples.sample_start).2 in
  TestFile (PdbHeaderReconstructorSettings (m_Settings w)) = Some (ofstream 0)
  /\ exists w' ws defs,
       Run_after_parse w = (Ok tt, w')
       /\ trace w'
          = trace w ++ [Write (ofstream 0) (TEST_FILE_HEADER None)] ++ ws
              ++ map RunVisitor defs ++ [Write (ofstream 0) TEST_FILE_FOOTER]
       /\ forallb is_write ws = true.
Proof.
  intros w. split; [reflexivity|].
  assert (Run_after_parse w = (Ok tt, (Run_after_parse w).2)) as E.
  { apply result_and_state. vm_compute. reflexivity. }
  destruct (proj1 (@test_file_is_bracketed Examples.sample w (Run_after_parse w).2
                     (ofstream 0) eq_refl) E)
    as (ws & defs & Ht & Hws).
  exists (Run_after_parse w).2, ws, defs.
  split; [exact E|]. split; [exact Ht | exact Hws].
Defined.

(** The sample visitor does to the symbols what the printer does. *)
Lemma sample_visitor_only_corrects (s : Settings) :
  @visitor_only_corrects Examples.sample s.
Proof.
  intros e mem. change (FieldDefinition.fixed_from mem (Examples.sample_Visitor_Run s e mem)).
  unfold Examples.sample_Visitor_Run.
  destruct (mem !! e) as [[size name [b|q|q n|r a|v|k fields|q|]]|];
    try apply FieldDefinition_Facts.fixed_from_refl.
  assert (forall m0, FieldDefinition.fixed_from mem m0 ->
            FieldDefinition.fixed_from mem
              (foldl (fun m f =>
                        match FieldDefinition.VisitArrayTypeEnd (FieldType f)
                                (FieldDefinition.fresh (UserDataFieldDefinitionSettings s), m)
                        with
                        | Some (_, m') => m'
                        | None => m
                        end) m0 fields)) as Hfold.
  { induction fields as [|f fields IH]; intros m0 F0; [exact F0|].
    cbn [foldl]. apply IH.
    destruct (FieldDefinition.VisitArrayTypeEnd (FieldType f)
                (FieldDefinition.fresh (UserDataFieldDefinitionSettings s), m0))
      as [[d' m']|] eqn:E; [|exact F0].
    apply (FieldDefinition_Facts.fixed_from_trans _ m0); [exact F0|].
    exact (FieldDefinition_Facts.call_fixes Examples.sample_GetBasicTypeString
             (FieldDefinition.CallVisitArrayTypeEnd (FieldType f)) _ _ _ _ E). }
  apply Hfold, FieldDefinition_Facts.fixed_from_refl.
Qed.



End Extractor_More.

(* ===================================================================== *)
(** * Reconstructing a symbol twice *)
(* ===================================================================== *)

Module Reconstruction_Facts.

Import FieldDefinition Reconstruction FieldDefinition_Facts.

(** ** What a correction leaves as it is *)

Lemma fixed_from_other m m' p sym :
  fixed_from m m' -> m !! p = Some sym -> Array_ElementCount sym <> Some 0%N ->
  m' !! p = Some sym.
Proof.
  intros F E C. destruct (F p) as [-> | (s0 & E0 & C0 & _)]; [exact E|].
  rewrite E in E0. injection E0 as <-. contradiction.
Qed.

Lemma settled_lookup m m' p : settled m p -> fixed_from m m' -> m' !! p = m !! p.
Proof.
  intros S F. destruct (F p) as [-> | (s0 & E0 & C0 & ->)]; [reflexivity|].
  rewrite E0. f_equal. specialize (S s0 E0 C0).
  destruct s0 as [size name payload]. simpl in S. subst size. reflexivity.
Qed.

Lemma settled_fixed m m' p : settled m p -> fixed_from m m' -> settled m' p.
Proof.
  intros S F. unfold settled. rewrite (settled_lookup _ _ _ S F). exact S.
Qed.

Lemma chain_base_fixed fuel : forall mem mem' p,
  fixed_from mem mem' -> chain_base fuel mem' p = chain_base fuel mem p.
Proof.
  induction fuel as [|fuel IH]; intros mem mem' p F; simpl; [reflexivity|].
  destruct (mem !! p) as [sym|] eqn:Ep.
  - destruct (fixed_from_tag _ _ _ _ F Ep) as (sym' & -> & ->).
    destruct (u sym); try reflexivity; now rewrite (IH _ _ _ F).
  - destruct (F p) as [-> | (s0 & E0 & _)]; [now rewrite Ep | congruence].
Qed.

(** A chain ends at a symbol that is no array. *)
Lemma chain_base_end fuel : forall mem p b sym,
  chain_base fuel mem p = Some b -> mem !! b = Some sym ->
  Array_ElementCount sym = None.
Proof.
  induction fuel as [|fuel IH]; intros mem p b sym; simpl; [discriminate|].
  destruct (mem !! p) as [s0|] eqn:Ep; [|discriminate].
  destruct (u s0) eqn:Hu;
    try (intros [= <-]; rewrite Ep; intros [= <-];
         unfold Array_ElementCount; now rewrite Hu);
    apply IH.
Qed.

Section WithReader.

Variable GetBasicTypeString : SYMBOL -> bool -> string.
Variable IsUnnamedSymbol : SYMBOL -> bool.
Variable dialect : Dialect.
Variable s : Extractor.Settings.

(** After the calls of its chain the symbol a visit began at has its
    correction. *)
Lemma chain_calls_settle fuel mem p cs more d d1 mem1 :
  chain_calls fuel mem p = Some cs ->
  calls GetBasicTypeString (cs ++ more) (d, mem) = Some (d1, mem1) ->
  settled mem1 p.
Proof.
  intros Ec E sym1 E1 C1.
  assert (fixed_from mem mem1) as F by (eapply calls_fixes; eauto).
  destruct fuel as [|fuel]; [discriminate|]. simpl in Ec.
  destruct (mem !! p) as [sym|] eqn:Ep; [|discriminate].
  destruct (fixed_from_tag _ _ _ _ F Ep) as (sym1' & E1' & Hu).
  rewrite E1 in E1'. injection E1' as <-.
  unfold Array_ElementCount in C1. rewrite Hu in C1.
  destruct (u sym) as [b|q|q n|r a|v|k f|q|] eqn:Hsym; try discriminate.
  injection C1 as ->.
  destruct (chain_calls fuel mem q) as [cs'|]; [|discriminate].
  injection Ec as <-. rewrite <- app_assoc in E.
  rewrite (FieldDefinition_More.calls_app GetBasicTypeString) in E.
  destruct (calls GetBasicTypeString cs' (d, mem)) as [[da ma]|] eqn:Ea; [|discriminate].
  assert (fixed_from mem ma) as Fa by (eapply calls_fixes; eauto).
  destruct (fixed_from_tag _ _ _ _ Fa Ep) as (sa & Esa & Hua).
  change (calls GetBasicTypeString ([CallVisitArrayTypeEnd p] ++ more) (da, ma))
    with (match VisitArrayTypeEnd p (da, ma) with
          | Some st' => calls GetBasicTypeString more st'
          | None => None
          end) in E.
  unfold VisitArrayTypeEnd in E. rewrite Esa in E.
  unfold Array_ElementCount in E. rewrite Hua, Hsym in E. simpl in E.
  match type of E with
  | calls _ _ (?db, ?mb) = _ =>
      assert (fixed_from mb mem1) as Fb by (eapply calls_fixes; eauto)
  end.
  destruct (Fb p) as [Eb | (s0 & E0 & _ & Eb)]; rewrite E1 in Eb.
  - rewrite lookup_insert_eq in Eb. now injection Eb as ->.
  - now injection Eb as ->.
Qed.

(** ** The visitor and the header reconstructor, run again *)

Lemma visit_replays expand fuel top Symbol naming :
  (forall t b, replays (expand t b)) ->
  (forall m, calls_tagged m naming = true) ->
  replays (visit GetBasicTypeString IsUnnamedSymbol dialect s expand fuel top Symbol naming).
Proof.
  intros Hexpand Hnaming m c a m2 c2. unfold visit.
  destruct (chain_calls fuel m Symbol) as [cs|] eqn:Ec; [|discriminate].
  destruct (calls GetBasicTypeString (cs ++ naming) _) as [[d m1]|] eqn:Ecalls;
    [|discriminate].
  destruct (chain_base fuel m1 Symbol) as [base|] eqn:Eb; [|discriminate].
  destruct (m1 !! base) as [bsym|] eqn:Ebs; [|discriminate].
  assert (calls_tagged m (cs ++ naming) = true) as T.
  { now rewrite calls_tagged_app, (chain_calls_tagged _ _ _ _ Ec), Hnaming. }
  assert (fixed_from m m1) as F1 by (eapply calls_fixes; eauto).
  pose proof (chain_calls_settle _ _ _ _ _ _ _ _ Ec Ecalls) as S1.
  pose proof (chain_base_end _ _ _ _ _ Eb Ebs) as Hend.
  set (inner := fun mem1 : Memory =>
         match u bsym with
         | UserData _ _ | Enum _ =>
             if top || inlined IsUnnamedSymbol s bsym
             then expand top base (mem1, c)
             else Some ([type_reference dialect (Tag bsym) (UserData_Kind bsym)
                           (type_name IsUnnamedSymbol s bsym c).1],
                        (mem1, (type_name IsUnnamedSymbol s bsym c).2))
         | Typedef _ =>
             Some ([type_reference dialect SymTagTypedef None (default "" (Name bsym))],
                   (mem1, c))
         | _ => Some ([], (mem1, c))
         end).
  change (match inner m1 with
          | Some (type_text, (mem2, c2)) =>
              match mem2 !! Symbol with
              | Some sym => Some (type_text, GetPrintableDefinition d, Size sym, (mem2, c2))
              | None => None
              end
          | None => None
          end = Some (a, (m2, c2)) ->
          fixed_from m m2
          /\ forall m', fixed_from m m' -> fixed_from m2 m' ->
               match chain_calls fuel m' Symbol with
               | Some cs0 =>
                   match calls GetBasicTypeString (cs0 ++ naming)
                           (fresh (Extractor.UserDataFieldDefinitionSettings s), m') with
                   | Some (d0, mem1) =>
                       match chain_base fuel mem1 Symbol with
                       | Some base0 =>
                           match mem1 !! base0 with
                           | Some bsym0 =>
                               match
                                 match u bsym0 with
                                 | UserData _ _ | Enum _ =>
                                     if top || inlined IsUnnamedSymbol s bsym0
                                     then expand top base0 (mem1, c)
                                     else Some ([type_reference dialect (Tag bsym0)
                                                   (UserData_Kind bsym0)
                                                   (type_name IsUnnamedSymbol s bsym0 c).1],
                                                (mem1, (type_name IsUnnamedSymbol s bsym0 c).2))
                                 | Typedef _ =>
                                     Some ([type_reference dialect SymTagTypedef None
                                              (default "" (Name bsym0))],
                                           (mem1, c))
                                 | _ => Some ([], (mem1, c))
                                 end
                               with
                               | Some (type_text, (mem2, c3)) =>
                                   match mem2 !! Symbol with
                                   | Some sym =>
                                       Some (type_text, GetPrintableDefinition d0, Size sym,
                                             (mem2, c3))
                                   | None => None
                                   end
                               | None => None
                               end
                           | None => None
                           end
                       | None => None
                       end
                   | None => None
                   end
               | None => None
               end = Some (a, (m', c2))).
  destruct (inner m1) as [[type_text [m2' c2']]|] eqn:Ei; [|discriminate].
  destruct (m2' !! Symbol) as [sym|] eqn:Es; [|discriminate].
  intros [= <- <- <-].
  assert (fixed_from m1 m2'
          /\ forall m', fixed_from m1 m' -> fixed_from m2' m' ->
               inner m' = Some (type_text, (m', c2'))) as [F12 Rep].
  { revert Ei. unfold inner.
    assert (forall t cc, Some (t, (m1, cc)) = Some (type_text, (m2', c2')) ->
              fixed_from m1 m2'
              /\ forall m' : Memory, fixed_from m1 m' -> fixed_from m2' m' ->
                   Some (t, (m', cc)) = Some (type_text, (m', c2'))) as Hhere.
    { intros t cc [= <- <- <-]. split; [apply fixed_from_refl | reflexivity]. }
    destruct (u bsym); try apply Hhere.
    - destruct (top || inlined IsUnnamedSymbol s bsym); [|apply Hhere].
      intros Ee. apply (Hexpand top base m1 c type_text m2' c2' Ee).
    - destruct (top || inlined IsUnnamedSymbol s bsym); [|apply Hhere].
      intros Ee. apply (Hexpand top base m1 c type_text m2' c2' Ee). }
  split; [eapply fixed_from_trans; eauto|].
  intros m' F F2.
  assert (fixed_from m1 m') as F1' by (eapply fixed_from_trans; eauto).
  rewrite (chain_calls_fixed _ _ _ _ F), Ec.
  rewrite (calls_again GetBasicTypeString _ _ _ _ _ _ T Ecalls F F1').
  rewrite (chain_base_fixed _ _ _ _ F1'), Eb.
  rewrite (fixed_from_other _ _ _ _ F1' Ebs) by (rewrite Hend; discriminate).
  fold (inner m'). rewrite (Rep m' F1' F2).
  rewrite (settled_lookup _ _ _ (settled_fixed _ _ _ S1 F12) F2), Es.
  reflexivity.
Qed.

Lemma walk_replays visit_member :
  (forall f, replays (visit_member f)) ->
  forall members cursor, replays (walk dialect s visit_member members cursor).
Proof.
  intros Hvisit. induction members as [|f rest IH]; intros cursor m c a m2 c2; simpl.
  - intros [= <- <- <-]. split; [apply fixed_from_refl | reflexivity].
  - destruct (visit_member f (m, _)) as [[[[type_text declarator] size] [m1 c1]]|] eqn:Ev;
      [|discriminate].
    destruct (walk dialect s visit_member rest _ (m1, c1))
      as [[[body cursor3] [m2' c2']]|] eqn:Ew; [|discriminate].
    intros [= <- <- <-].
    destruct (Hvisit f _ _ _ _ _ Ev) as [F1 Rv].
    destruct (IH _ _ _ _ _ _ Ew) as [F2 Rw].
    split; [eapply fixed_from_trans; eauto|].
    intros m' F F'.
    assert (fixed_from m1 m') as F1' by (eapply fixed_from_trans; eauto).
    rewrite (Rv m' F F1'), (Rw m' F1' F'). reflexivity.
Qed.

Lemma definition_replays fuel : forall top Symbol,
  replays (definition GetBasicTypeString IsUnnamedSymbol dialect s fuel top Symbol).
Proof.
  induction fuel as [|fuel IH]; intros top Symbol m c a m1 c1; simpl; [discriminate|].
  destruct (m !! Symbol) as [sym|] eqn:Es; [|discriminate].
  assert (forall m', fixed_from m m' -> Array_ElementCount sym = None ->
            m' !! Symbol = Some sym) as Hsame.
  { intros m' F C. apply (fixed_from_other _ _ _ _ F Es). rewrite C. discriminate. }
  destruct (u sym) as [b|q|q n|r a0|v|k fields|q|] eqn:Hu; try discriminate.
  - intros [= <- <- <-]. split; [apply fixed_from_refl|].
    intros m' F _. rewrite (Hsame m' F) by (unfold Array_ElementCount; now rewrite Hu).
    now rewrite Hu.
  - destruct (union_bitfield_violation s k fields) eqn:Hv; [discriminate|].
    match goal with
    | |- context [walk dialect s ?vm ?ms ?cur (m, ?cc)] =>
        pose proof (walk_replays vm
                      (fun f => visit_replays (definition GetBasicTypeString
                                                 IsUnnamedSymbol dialect s fuel)
                                  fuel false (FieldType f)
                                  [CallSetMemberName (Some (FieldName f))]
                                  IH (fun _ => eq_refl))
                      ms cur) as Hwalk;
        destruct (walk dialect s vm ms cur (m, cc))
          as [[[body cursor] [m1' c1']]|] eqn:Ew; [|discriminate]
    end.
    intros [= <- <- <-].
    destruct (Hwalk _ _ _ _ _ Ew) as [F1 Rw].
    split; [exact F1|].
    intros m' F F'. rewrite (Hsame m' F) by (unfold Array_ElementCount; now rewrite Hu).
    rewrite Hu, Hv, (Rw m' F F'). reflexivity.
Qed.

(** The visitor on a symbol and then again on the symbols it has
    corrected: the same text, and nothing more is corrected. *)
Lemma Visitor_text_again fuel e m text m1 :
  Visitor_text GetBasicTypeString IsUnnamedSymbol dialect s fuel e m = Some (text, m1) ->
  fixed_from m m1
  /\ forall m', fixed_from m m' -> fixed_from m1 m' ->
       Visitor_text GetBasicTypeString IsUnnamedSymbol dialect s fuel e m'
       = Some (text, m').
Proof.
  unfold Visitor_text.
  destruct (visit _ _ _ _ _ _ _ _ _ (m, no_counters))
    as [[[[type_text declarator] size] [m1' c1]]|] eqn:Ev; [|discriminate].
  intros [= <- <-].
  destruct (visit_replays _ fuel true e []
              (definition_replays fuel) (fun _ => eq_refl) _ _ _ _ _ Ev) as [F R].
  split; [exact F|]. intros m' F1 F2. now rewrite (R m' F1 F2).
Qed.

(** ** The same steps on symbols with more of them corrected *)

Lemma fixed_from_insert m m' p sym :
  fixed_from m m' -> fixed_from (<[p := sym]> m) (<[p := sym]> m').
Proof.
  intros F q. destruct (decide (q = p)) as [-> | Hq].
  - left. now rewrite !lookup_insert_eq.
  - rewrite !lookup_insert_ne by congruence. apply F.
Qed.

Lemma fixed_from_missing m m' p : fixed_from m m' -> m !! p = None -> m' !! p = None.
Proof.
  intros F E. destruct (F p) as [-> | (s0 & E0 & _)]; [exact E | congruence].
Qed.

Lemma call_alike c d m m' d1 m1 :
  call_tagged m c = true -> fixed_from m m' ->
  call GetBasicTypeString c (d, m) = Some (d1, m1) ->
  exists m1', call GetBasicTypeString c (d, m') = Some (d1, m1') /\ fixed_from m1 m1'.
Proof.
  intros T F E.
  destruct c as [p|p|p|p|n]; simpl in *;
    unfold VisitBaseType, VisitPointerTypeEnd, VisitArrayTypeEnd,
           VisitFunctionTypeEnd, SetMemberName in *;
    try (injection E as <- <-; eauto).
  - destruct (m !! p) as [sym|] eqn:Ep; [|discriminate].
    injection E as <- <-.
    rewrite (fixed_from_other _ _ _ _ F Ep); [eauto|].
    apply bool_decide_eq_true in T. unfold Tag, Array_ElementCount in *.
    destruct (u sym); discriminate.
  - destruct (m !! p) as [sym|] eqn:Ep; [|discriminate].
    destruct (Array_ElementCount sym) as [n|] eqn:C; [|discriminate].
    destruct (F p) as [E' | (s0 & E0 & C0 & E')]; rewrite E'.
    + rewrite Ep, C. destruct (n =? 0)%N; injection E as <- <-; eauto.
      eexists. split; [reflexivity|]. now apply fixed_from_insert.
    + rewrite Ep in E0. injection E0 as <-. rewrite C in C0. injection C0 as ->.
      assert (Array_ElementCount (set_Size 1 sym) = Some 0%N) as -> by exact C.
      simpl in *. injection E as <- <-.
      eexists. split; [reflexivity|]. now apply fixed_from_insert.
Qed.

Lemma calls_alike cs : forall d m m' d1 m1,
  calls_tagged m cs = true -> fixed_from m m' ->
  calls GetBasicTypeString cs (d, m) = Some (d1, m1) ->
  exists m1', calls GetBasicTypeString cs (d, m') = Some (d1, m1') /\ fixed_from m1 m1'.
Proof.
  induction cs as [|c cs IH]; intros d m m' d1 m1; simpl.
  - intros _ F [= <- <-]. eauto.
  - rewrite andb_true_iff. intros [Tc Tcs] F.
    destruct (call GetBasicTypeString c (d, m)) as [[d2 m2]|] eqn:E; [|discriminate].
    intros Hrest.
    destruct (call_alike _ _ _ _ _ _ Tc F E) as (m2' & -> & F2).
    apply (IH d2 m2 m2' d1 m1); [|exact F2|exact Hrest].
    eapply calls_tagged_fixed; [eapply call_fixes; eauto | exact Tcs].
Qed.

(** The end of a visit: the size of the symbol the visit began at, which
    has its correction by then. *)
Lemma visit_end_alike Symbol (declarator : string) (x x' : option (list string * RState)) :
  agree x x' ->
  (forall t m2 c2, x = Some (t, (m2, c2)) -> settled m2 Symbol) ->
  agree
    match x with
    | Some (type_text, (mem2, c2)) =>
        match mem2 !! Symbol with
        | Some sym => Some ((type_text, declarator, Size sym), (mem2, c2))
        | None => None
        end
    | None => None
    end
    match x' with
    | Some (type_text, (mem2, c2)) =>
        match mem2 !! Symbol with
        | Some sym => Some ((type_text, declarator, Size sym), (mem2, c2))
        | None => None
        end
    | None => None
    end.
Proof.
  destruct x as [[t [m2 c2]]|], x' as [[t' [m2' c2']]|]; simpl; try tauto.
  intros (<- & <- & F2) S. rewrite (settled_lookup _ _ _ (S _ _ _ eq_refl) F2).
  destruct (m2 !! Symbol); simpl; auto.
Qed.

Lemma visit_alike expand fuel top Symbol naming :
  (forall t b, replays (expand t b)) ->
  (forall t b, corrects_alike (expand t b)) ->
  (forall m, calls_tagged m naming = true) ->
  corrects_alike
    (visit GetBasicTypeString IsUnnamedSymbol dialect s expand fuel top Symbol naming).
Proof.
  intros Hreplays Halike Hnaming m m' c F. unfold visit.
  rewrite (chain_calls_fixed _ _ _ _ F).
  destruct (chain_calls fuel m Symbol) as [cs|] eqn:Ec; [|exact I].
  assert (calls_tagged m (cs ++ naming) = true) as T.
  { now rewrite calls_tagged_app, (chain_calls_tagged _ _ _ _ Ec), Hnaming. }
  destruct (calls_defined GetBasicTypeString (cs ++ naming)
              (fresh (Extractor.UserDataFieldDefinitionSettings s)) m T)
    as ([d m1] & Ecalls).
  destruct (calls_alike _ _ _ _ _ _ T F Ecalls) as (m1' & Ecalls' & F1).
  rewrite Ecalls, Ecalls'.
  rewrite (chain_base_fixed _ _ _ _ F1).
  destruct (chain_base fuel m1 Symbol) as [base|] eqn:Eb; [|exact I].
  destruct (m1 !! base) as [bsym|] eqn:Ebs;
    [|now rewrite (fixed_from_missing _ _ _ F1 Ebs)].
  pose proof (chain_base_end _ _ _ _ _ Eb Ebs) as Hend.
  rewrite (fixed_from_other _ _ _ _ F1 Ebs) by (rewrite Hend; discriminate).
  pose proof (chain_calls_settle _ _ _ _ _ _ _ _ Ec Ecalls) as S1.
  assert (forall t cc, agree (Some (t, (m1, cc))) (Some (t, (m1', cc : Counters)))
                       /\ forall (t0 : list string) m2 (c2 : Counters),
                            Some (t, (m1, cc)) = Some (t0, (m2, c2)) -> settled m2 Symbol)
    as Hhere.
  { intros t cc. split; [now repeat split|]. now intros t0 m2 c2 [= _ <- _]. }
  assert (agree (expand top base (m1, c)) (expand top base (m1', c))
          /\ forall t0 m2 c2, expand top base (m1, c) = Some (t0, (m2, c2)) ->
                              settled m2 Symbol) as Hexpand.
  { split; [now apply Halike|]. intros t0 m2 c2 Ee.
    apply (settled_fixed _ _ _ S1), (Hreplays top base m1 c t0 m2 c2 Ee). }
  apply visit_end_alike;
    destruct (u bsym); try apply Hhere;
    destruct (top || inlined IsUnnamedSymbol s bsym); solve [apply Hhere | apply Hexpand].
Qed.

Lemma walk_alike visit_member :
  (forall f, corrects_alike (visit_member f)) ->
  forall members cursor, corrects_alike (walk dialect s visit_member members cursor).
Proof.
  intros Hvisit. induction members as [|f rest IH]; intros cursor m m' c F; simpl.
  - now repeat split.
  - pose proof (Hvisit f m m' (padding dialect s cursor (Offset f) c).2 F) as Hv.
    destruct (visit_member f (m, _)) as [[[[type_text declarator] size] [m1 c1]]|],
             (visit_member f (m', _)) as [[[[type_text' declarator'] size'] [m1' c1']]|];
      simpl in Hv; try tauto.
    destruct Hv as ([= <- <- <-] & <- & F1).
    match goal with
    | |- context [walk dialect s visit_member rest ?cur (m1, c1)] =>
        pose proof (IH cur m1 m1' c1 F1) as Hw;
        destruct (walk dialect s visit_member rest cur (m1, c1))
          as [[[body cursor3] [m2 c2]]|],
                 (walk dialect s visit_member rest cur (m1', c1))
          as [[[body' cursor3'] [m2' c2']]|]
    end; simpl in Hw; try tauto.
    destruct Hw as ([= <- <-] & <- & F2). now repeat split.
Qed.

Lemma definition_alike fuel : forall top Symbol,
  corrects_alike (definition GetBasicTypeString IsUnnamedSymbol dialect s fuel top Symbol).
Proof.
  induction fuel as [|fuel IH]; intros top Symbol m m' c F; simpl; [exact I|].
  destruct (F Symbol) as [-> | (s0 & -> & C0 & ->)].
  - destruct (m !! Symbol) as [sym|]; [|exact I].
    destruct (u sym) as [b|q|q n|r a0|v|k fields|q|]; try exact I.
    + now repeat split.
    + destruct (union_bitfield_violation s k fields); [exact I|].
      match goal with
      | |- context [walk dialect s ?vm ?ms ?cur (m, ?cc)] =>
          pose proof (walk_alike vm
                        (fun f => visit_alike (definition GetBasicTypeString
                                                 IsUnnamedSymbol dialect s fuel)
                                    fuel false (FieldType f)
                                    [CallSetMemberName (Some (FieldName f))]
                                    (definition_replays fuel) IH (fun _ => eq_refl))
                        ms cur m m' cc F) as Hw;
          destruct (walk dialect s vm ms cur (m, cc)) as [[[body cursor] [m1 c1]]|],
                   (walk dialect s vm ms cur (m', cc)) as [[[body' cursor'] [m1' c1']]|]
      end; simpl in Hw; try tauto.
      destruct Hw as ([= <- <-] & <- & F1). now repeat split.
  - unfold Array_ElementCount in C0. destruct s0 as [size name payload]. simpl in *.
    destruct payload; try discriminate. exact I.
Qed.

(** The visitor on symbols and on the same symbols with more of them
    corrected: no text on either, or the same text. *)
Lemma Visitor_text_alike fuel e m m' :
  fixed_from m m' ->
  match Visitor_text GetBasicTypeString IsUnnamedSymbol dialect s fuel e m,
        Visitor_text GetBasicTypeString IsUnnamedSymbol dialect s fuel e m' with
  | Some (text, m1), Some (text', m1') => text = text' /\ fixed_from m1 m1'
  | None, None => True
  | _, _ => False
  end.
Proof.
  intros F. unfold Visitor_text.
  pose proof (visit_alike _ fuel true e [] (definition_replays fuel)
                (definition_alike fuel) (fun _ => eq_refl) m m' no_counters F) as Hv.
  destruct (visit _ _ _ _ _ _ _ _ _ (m, no_counters))
    as [[[[type_text declarator] size] [m1 c1]]|],
           (visit _ _ _ _ _ _ _ _ _ (m', no_counters))
    as [[[[type_text' declarator'] size'] [m1' c1']]|]; simpl in Hv; try tauto.
  destruct Hv as ([= <- <- <-] & <- & F1). now split.
Qed.

End WithReader.

(** ** The sorter does not look at what is corrected *)

Lemma sort_from_fixed fuel : forall mem mem' p st,
  fixed_from mem mem' -> sort_from fuel mem' p st = sort_from fuel mem p st.
Proof.
  induction fuel as [|fuel IH]; intros mem mem' p st F; simpl; [reflexivity|].
  destruct (bool_decide (p ∈ visited st)); [reflexivity|].
  assert (forall fields acc,
            foldl (fun acc f => sort_from fuel mem' (FieldType f) acc) acc fields
            = foldl (fun acc f => sort_from fuel mem (FieldType f) acc) acc fields)
    as Hfields.
  { induction fields as [|f fields IHf]; intros acc; simpl; [reflexivity|].
    now rewrite (IH _ _ _ _ F), IHf. }
  destruct (F p) as [-> | (s0 & -> & C0 & ->)].
  - destruct (mem !! p) as [sym|]; [|reflexivity].
    destruct (u sym); try reflexivity; now rewrite ?(IH _ _ _ _ F), ?Hfields.
  - unfold Array_ElementCount in C0.
    destruct s0 as [size name payload]. simpl in *.
    destruct payload; try discriminate. now rewrite (IH _ _ _ _ F).
Qed.

End Reconstruction_Facts.

(* ===================================================================== *)
(** * Dumping a symbol twice *)
(* ===================================================================== *)

Module Reconstruction_Runs.

Import Extractor More Extractor_Facts Extractor_More Reconstruction.

Section Again.

Context `{Collaborators}.

Hypothesis sorter_ignores : sorter_ignores_corrections.
Hypothesis visitor_again : visitor_runs_again.

Lemma corrected_app s es1 es2 m :
  corrected s (es1 ++ es2) m = corrected s es2 (corrected s es1 m).
Proof. apply foldl_app. Qed.

(** The visits only correct. *)
Lemma corrected_fixes s es : forall m, FieldDefinition.fixed_from m (corrected s es m).
Proof.
  induction es as [|e es IH]; simpl; intros m.
  - apply FieldDefinition_Facts.fixed_from_refl.
  - eapply FieldDefinition_Facts.fixed_from_trans;
      [apply (visitor_again s e m) | apply IH].
Qed.

Lemma runs_again_bind {A B} (m : M A) (k : A -> M B) :
  runs_again m -> (forall a, runs_again (k a)) -> runs_again (bind m k).
Proof.
  intros Hm Hk w r w1. unfold bind at 1.
  destruct (m w) as [[a|what|status|] w'] eqn:Em.
  - intros Ek. destruct (Hm _ _ _ Em) as ((evs1 & T1 & S1 & M1) & F1 & Rep1).
    destruct (Hk a _ _ _ Ek) as ((evs2 & T2 & S2 & M2) & F2 & Rep2).
    split; [|split].
    + exists (evs1 ++ evs2).
      split; [now rewrite T2, T1, <- app_assoc|].
      split; [congruence|].
      now rewrite M2, S1, M1, defined_app, corrected_app.
    + eapply FieldDefinition_Facts.fixed_from_trans; eauto.
    + intros M F F'. unfold bind.
      assert (FieldDefinition.fixed_from (memory w') M) as Fmid.
      { eapply FieldDefinition_Facts.fixed_from_trans; eauto. }
      rewrite (Rep1 M F Fmid). now apply Rep2.
  - intros [= <- <-]. destruct (Hm _ _ _ Em) as (Hevs & F1 & Rep1).
    split; [exact Hevs|]. split; [exact F1|].
    intros M F F'. unfold bind. now rewrite (Rep1 M F F').
  - intros [= <- <-]. destruct (Hm _ _ _ Em) as (Hevs & F1 & Rep1).
    split; [exact Hevs|]. split; [exact F1|].
    intros M F F'. unfold bind. now rewrite (Rep1 M F F').
  - intros [= <- <-]. destruct (Hm _ _ _ Em) as (Hevs & F1 & Rep1).
    split; [exact Hevs|]. split; [exact F1|].
    intros M F F'. unfold bind. now rewrite (Rep1 M F F').
Qed.

(** A piece with no event that leaves the settings and the symbols
    alone and reads of them nothing that a correction changes. *)
Lemma runs_again_keeps {A} (f : M A) :
  (forall w, trace (f w).2 = trace w
             /\ m_Settings (f w).2 = m_Settings w
             /\ memory (f w).2 = memory w) ->
  (forall w M, FieldDefinition.fixed_from (memory w) M ->
     f (with_memory (fun _ => M) w) = ((f w).1, with_memory (fun _ => M) (f w).2)) ->
  runs_again f.
Proof.
  intros Hkeeps Hswap w r w1 E.
  pose proof (Hkeeps w) as (Ht & Hs & Hm). pose proof (Hswap w) as Hsw.
  rewrite E in Ht, Hs, Hm, Hsw. simpl in Ht, Hs, Hm, Hsw.
  split; [|split].
  - exists []. rewrite app_nil_r. split; [exact Ht|]. split; [exact Hs | exact Hm].
  - rewrite Hm. apply FieldDefinition_Facts.fixed_from_refl.
  - intros M F _. now apply Hsw.
Qed.

Lemma runs_again_ret {A} (a : A) : runs_again (ret a).
Proof. now apply runs_again_keeps. Qed.

Lemma runs_again_throw {A} what : runs_again (@throw _ A what).
Proof. now apply runs_again_keeps. Qed.

Lemma runs_again_undefined {A} : runs_again (@undefined _ A).
Proof. now apply runs_again_keeps. Qed.

Lemma runs_again_settings : runs_again settings.
Proof. now apply runs_again_keeps. Qed.

Lemma runs_again_the_sorter : runs_again the_sorter.
Proof.
  apply runs_again_keeps; intros w; unfold the_sorter; simpl;
    destruct (m_SymbolSorter w); auto.
Qed.

Lemma runs_again_the_PDB : runs_again the_PDB.
Proof.
  apply runs_again_keeps; intros w; unfold the_PDB; simpl;
    destruct (m_PDB w); auto.
Qed.

Lemma runs_again_sprintf_s text : runs_again (sprintf_s text).
Proof.
  apply runs_again_keeps; intros w; unfold sprintf_s; case_match; auto.
Qed.

Lemma runs_again_with_Architecture a : runs_again (modify (with_Architecture a)).
Proof. now apply runs_again_keeps. Qed.

Lemma runs_again_with_SymbolSorter so : runs_again (modify (with_SymbolSorter so)).
Proof. now apply runs_again_keeps. Qed.

Lemma runs_again_write to text : runs_again (write to text).
Proof.
  intros w r w1 [= <- <-]. split; [|split].
  - exists [Write to text]. now repeat split.
  - apply FieldDefinition_Facts.fixed_from_refl.
  - reflexivity.
Qed.

Lemma runs_again_SymbolSorter_Visit p : runs_again (SymbolSorter_Visit p).
Proof.
  apply runs_again_keeps.
  - intros w. unfold SymbolSorter_Visit, bind, the_sorter, get, modify.
    destruct (m_SymbolSorter w); auto.
  - intros w M F. unfold SymbolSorter_Visit, bind, the_sorter, get, modify. simpl.
    destruct (m_SymbolSorter w) as [so|]; [|reflexivity]. simpl.
    now rewrite (sorter_ignores p _ _ so F).
Qed.

Lemma runs_again_GetArchitecture_loop es : runs_again (GetArchitecture_loop es).
Proof.
  induction es as [|e es IH]; simpl; [apply runs_again_ret|].
  apply runs_again_bind; [apply runs_again_SymbolSorter_Visit|]. intros _.
  apply runs_again_bind; [apply runs_again_the_sorter|]. intros so.
  destruct (decide _); [exact IH|].
  apply runs_again_bind; [apply runs_again_with_Architecture|]. intros _.
  apply runs_again_with_SymbolSorter.
Qed.

Lemma runs_again_PrintPDBHeader : runs_again PrintPDBHeader.
Proof.
  unfold PrintPDBHeader.
  apply runs_again_bind; [apply runs_again_settings|]. intros s.
  destruct (PrintHeader s); [|apply runs_again_ret].
  apply runs_again_bind.
  { unfold GetArchitecture. apply runs_again_bind; [apply runs_again_the_PDB|].
    intros p. apply runs_again_GetArchitecture_loop. }
  intros _ w r w1. unfold bind at 1. unfold get. intros E.
  assert (runs_again
            (bind (sprintf_s (HEADER_FILE_HEADER (PdbPath s)
                                (ArchictureStrings (m_Architecture w))))
               (fun text => write (OutputFile (PdbHeaderReconstructorSettings s)) text)))
    as Hrest.
  { apply runs_again_bind; [apply runs_again_sprintf_s|]. intros text.
    apply runs_again_write. }
  destruct (Hrest w r w1 E) as (Hevs & F & Rep).
  split; [exact Hevs|]. split; [exact F|].
  intros M F1 F2. exact (Rep M F1 F2).
Qed.

Lemma runs_again_Expand e : runs_again (Expand e).
Proof.
  apply runs_again_keeps.
  - intros w. now rewrite (Expand_world e w).
  - intros w M F. unfold Expand, bind, settings, deref, ret.
    cbv beta iota.
    change (m_Settings (with_memory (fun _ => M) w)) with (m_Settings w).
    destruct (decide _); [|reflexivity].
    cbv beta iota.
    change (memory (with_memory (fun _ => M) w)) with M.
    pose proof (is_inlined_fixed _ _ e F) as Hi. unfold is_inlined in Hi.
    destruct (M !! e) as [sym'|] eqn:E', (memory w !! e) as [sym|] eqn:E;
      cbn [fmap option_fmap option_map] in Hi; try discriminate; [|reflexivity].
    injection Hi as ->. reflexivity.
Qed.

Lemma runs_again_SymbolVisitor_Run e : runs_again (SymbolVisitor_Run e).
Proof.
  intros w r w1. rewrite SymbolVisitor_Run_spec. intros [= <- <-].
  destruct (visitor_again (m_Settings w) e (memory w)) as [F R].
  split; [|split].
  - exists [RunVisitor e]. now repeat split.
  - exact F.
  - intros M F1 F2. rewrite SymbolVisitor_Run_spec.
    unfold with_memory, emit. simpl. now rewrite (R M F1 F2).
Qed.

Lemma runs_again_PrintPDBDefinitions_loop es : runs_again (PrintPDBDefinitions_loop es).
Proof.
  induction es as [|e es IH]; simpl; [apply runs_again_ret|].
  apply runs_again_bind; [apply runs_again_Expand|]. intros expand.
  apply runs_again_bind; [|intros _; exact IH].
  destruct expand; [apply runs_again_SymbolVisitor_Run | apply runs_again_ret].
Qed.

Lemma runs_again_PrintPDBDefinitions : runs_again PrintPDBDefinitions.
Proof.
  unfold PrintPDBDefinitions.
  apply runs_again_bind; [apply runs_again_settings|]. intros s.
  destruct (PrintDefinitions s); [|apply runs_again_ret].
  apply runs_again_bind; [apply runs_again_the_sorter|]. intros so.
  apply runs_again_PrintPDBDefinitions_loop.
Qed.

Lemma runs_again_DumpOneSymbol : runs_again DumpOneSymbol.
Proof.
  unfold DumpOneSymbol.
  apply runs_again_bind; [apply runs_again_the_PDB|]. intros p.
  apply runs_again_bind; [apply runs_again_settings|]. intros s.
  destruct (GetSymbolByName p (SymbolName s)) as [Symbol|]; [|apply runs_again_throw].
  apply runs_again_bind; [apply runs_again_PrintPDBHeader|]. intros _.
  destruct (_ && _); [|apply runs_again_SymbolVisitor_Run].
  apply runs_again_bind; [apply runs_again_SymbolSorter_Visit|]. intros _.
  apply runs_again_PrintPDBDefinitions.
Qed.

Lemma runs_again_visit_all es : runs_again (visit_all es).
Proof.
  induction es as [|e es IH]; simpl; [apply runs_again_ret|].
  apply runs_again_bind; [apply runs_again_SymbolSorter_Visit|]. intros _. exact IH.
Qed.

(** A symbol read, of which the rest uses nothing that a correction
    changes. *)
Lemma runs_again_deref {B} e (k : SYMBOL -> M B) :
  (forall sym, runs_again (k sym)) ->
  (forall sym, Array_ElementCount sym = Some 0%N -> k (set_Size 1 sym) = k sym) ->
  runs_again (bind (deref e) k).
Proof.
  intros Hk Hsame w r w1. unfold bind at 1, deref.
  destruct (memory w !! e) as [sym|] eqn:Ee.
  - intros Ek. destruct (Hk sym _ _ _ Ek) as (Hevs & F & Rep).
    split; [exact Hevs|]. split; [exact F|].
    intros M F1 F2. unfold bind, deref.
    change (memory (with_memory (fun _ => M) w)) with M.
    destruct (F1 e) as [-> | (s0 & E0 & C0 & ->)].
    + rewrite Ee. now apply Rep.
    + rewrite Ee in E0. injection E0 as <-. rewrite (Hsame _ C0). now apply Rep.
  - intros [= <- <-]. split; [|split].
    + exists []. rewrite app_nil_r. now repeat split.
    + apply FieldDefinition_Facts.fixed_from_refl.
    + intros M F1 _. unfold bind, deref.
      change (memory (with_memory (fun _ => M) w)) with M.
      destruct (F1 e) as [-> | (s0 & E0 & _)]; [now rewrite Ee | congruence].
Qed.

Lemma runs_again_PrintPDBDeclarations_loop es :
  runs_again (PrintPDBDeclarations_loop es).
Proof.
  induction es as [|e es IH]; simpl; [apply runs_again_ret|].
  apply runs_again_deref.
  - intros sym. apply runs_again_bind; [apply runs_again_settings|]. intros s.
    apply runs_again_bind; [|intros _; exact IH].
    destruct (is_named_udt sym); [|apply runs_again_ret].
    destruct (declaration_line _ sym); [apply runs_again_write | apply runs_again_undefined].
  - intros sym C.
    assert (is_named_udt (set_Size 1 sym) = false /\ is_named_udt sym = false) as [-> ->];
      [|reflexivity].
    unfold is_named_udt, Tag, Array_ElementCount in *. destruct sym as [size name payload].
    simpl in *. destruct payload; try discriminate. now split.
Qed.

Lemma runs_again_PrintPDBDeclarations : runs_again PrintPDBDeclarations.
Proof.
  unfold PrintPDBDeclarations.
  apply runs_again_bind; [apply runs_again_settings|]. intros s.
  destruct (PrintDeclarations s); [|apply runs_again_ret].
  apply runs_again_bind; [apply runs_again_the_sorter|]. intros so.
  apply runs_again_bind; [apply runs_again_PrintPDBDeclarations_loop|]. intros _.
  apply runs_again_write.
Qed.

Lemma runs_again_DumpAllSymbols : runs_again DumpAllSymbols.
Proof.
  unfold DumpAllSymbols.
  apply runs_again_bind; [apply runs_again_PrintPDBHeader|]. intros _.
  apply runs_again_bind; [apply runs_again_the_PDB|]. intros p.
  apply runs_again_bind; [apply runs_again_visit_all|]. intros _.
  apply runs_again_bind; [apply runs_again_PrintPDBDeclarations|]. intros _.
  apply runs_again_PrintPDBDefinitions.
Qed.

End Again.

(** ** With the sorter and the visitor of the specification *)

Section Modelled.

Variable GetBasicTypeString : SYMBOL -> bool -> string.
Variable dialect : Dialect.
Variable fuel : nat.
Variable base : Collaborators.

Local Abbreviation spec := (modelled GetBasicTypeString dialect fuel base).

Lemma modelled_sorter_ignores : @sorter_ignores_corrections spec.
Proof. intros p m m' st F. apply Reconstruction_Facts.sort_from_fixed, F. Qed.

Lemma modelled_Visitor_Run s e m :
  @Visitor_Run spec s e m
  = match Visitor_text GetBasicTypeString (@IsUnnamedSymbol base) dialect s fuel e m with
    | Some (_, m1) => m1
    | None => m
    end.
Proof. reflexivity. Qed.

Lemma modelled_visitor_again : @visitor_runs_again spec.
Proof.
  intros s e m. rewrite modelled_Visitor_Run.
  destruct (Visitor_text _ _ _ s fuel e m) as [[text m1]|] eqn:E.
  - destruct (Reconstruction_Facts.Visitor_text_again _ _ _ _ _ _ _ _ _ E) as [F R].
    split; [exact F|]. intros M F1 F2.
    rewrite modelled_Visitor_Run, (R M F1 F2). reflexivity.
  - split; [apply FieldDefinition_Facts.fixed_from_refl|]. intros M F1 _.
    rewrite modelled_Visitor_Run.
    pose proof (Reconstruction_Facts.Visitor_text_alike GetBasicTypeString
                  (@IsUnnamedSymbol base) dialect s fuel e m M F1) as Ha.
    rewrite E in Ha.
    destruct (Visitor_text _ _ _ s fuel e M) as [[text' m1']|]; [contradiction|reflexivity].
Qed.

(** This visitor does to the symbols nothing but the correction of the
    printer. *)
Lemma modelled_visitor_only_corrects s : @visitor_only_corrects spec s.
Proof. intros e m. apply modelled_visitor_again. Qed.

(** The text of the same events, read on symbols that hold the
    corrections of the run already. *)
Lemma output_text_again s events : forall m M,
  FieldDefinition.fixed_from m M ->
  FieldDefinition.fixed_from (@corrected spec s (defined events) m) M ->
  output_text GetBasicTypeString dialect fuel base s events M
  = output_text GetBasicTypeString dialect fuel base s events m.
Proof.
  induction events as [|[to line|e] rest IH]; intros m M F F'; simpl; [reflexivity| |].
  - now rewrite (IH m M F F').
  - change (FieldDefinition.fixed_from
              (@corrected spec s (defined rest) (@Visitor_Run spec s e m)) M) in F'.
    rewrite modelled_Visitor_Run in F'.
    pose proof (Reconstruction_Facts.Visitor_text_alike GetBasicTypeString
                  (@IsUnnamedSymbol base) dialect s fuel e m M F) as Ha.
    destruct (Visitor_text _ _ _ s fuel e m) as [[t m1]|] eqn:E.
    + destruct (Reconstruction_Facts.Visitor_text_again _ _ _ _ _ _ _ _ _ E) as [F1 R].
      assert (FieldDefinition.fixed_from m1 M) as F1M.
      { eapply FieldDefinition_Facts.fixed_from_trans; [|exact F'].
        apply (corrected_fixes modelled_visitor_again). }
      rewrite (R M F F1M), (IH m1 M F1M F'). reflexivity.
    + destruct (Visitor_text _ _ _ s fuel e M) as [[t' m1']|]; [contradiction|reflexivity].
Qed.


End Modelled.


End Reconstruction_Runs.
